(** * Disk-space monitor and dashboard reporter

    A shallow embedding of the two programs of [src/reporting/main.go]
    together with the parts of the Go standard library their functions
    call ([time], [sort], [strings], [strconv], [unicode/utf8],
    [net/url]).

    The disk monitor (second program of the file): [MetricsStore],
    [sortDatapoints], [collectMetrics], [metricsHandler],
    [grafanaHandler], [parseSimpleTime], [grafanaSimpleHandler].

    The dashboard reporter (first program): [scheduleNextRun],
    [getGrafanaScreenshot], [sendEmail], [processScreenshots].

    Go strings are byte sequences: they are [string]s, one [ascii] per
    byte.  [int64] and [int] (64-bit target) are [Z] with the wrap-around
    written out, [float64] is IEEE-754 binary64 as [spec_float]. *)

From Stdlib Require Import ZArith Lia ZifyNat List Bool Ascii String.
From Stdlib Require Import Sorted Permutation DecimalString DecimalPos.
From Stdlib Require Import Floats.SpecFloat.
From stdpp Require Import base list gmap strings.

Local Open Scope Z_scope.

(** ** Machine integers *)

Definition int64_min : Z := - 2 ^ 63.
Definition int64_max : Z := 2 ^ 63 - 1.
Definition uint64_max : Z := 2 ^ 64 - 1.

Definition wrap64 (z : Z) : Z := (z + 2 ^ 63) mod 2 ^ 64 - 2 ^ 63.

Definition in_int64 (z : Z) : Prop := int64_min <= z <= int64_max.

(** Signed 64-bit multiplication and negation. *)
Definition mul64 (x y : Z) : Z := wrap64 (x * y).
Definition neg64 (x : Z) : Z := wrap64 (- x).

(** ** [float64] *)

Definition float64 : Type := spec_float.

(** The conversion [float64(n)] of an integer: round to nearest, ties to
    even. *)
Definition float64_of_Z (z : Z) : float64 := binary_normalize 53 1024 z 0 false.

(** The Go comparison [x < y] on [float64]. *)
Definition float64_lt (x y : float64) : bool := SFltb x y.
Definition float64_le (x y : float64) : bool := SFleb x y.

(** ** [math/bits] *)

Module GoBits.
(** [bits.Len(x)]: the number of bits needed to write [x]. *)
Definition Len (n : nat) : nat :=
  match n with O => O | _ => S (Nat.log2 n) end.
End GoBits.

(** ** [unicode/utf8], [unicode] and [strings] *)

Definition byte_of (c : ascii) : Z := Z.of_N (N_of_ascii c).

Fixpoint bytes_of (s : string) : list Z :=
  match s with
  | EmptyString => []
  | String c s' => byte_of c :: bytes_of s'
  end.

Module GoUtf8.

Definition RuneError : Z := 0xFFFD.
Definition RuneSelf : Z := 0x80.
Definition UTFMax : nat := 4.

Definition continuation (b : Z) : bool := (0x80 <=? b) && (b <=? 0xBF).

(** [utf8.DecodeRuneInString]: the first rune and its width in bytes;
    an invalid or short encoding is [RuneError] of width 1. *)
Definition DecodeRune (p : list Z) : Z * nat :=
  match p with
  | [] => (RuneError, O)
  | s0 :: p1 =>
      if s0 <? RuneSelf then (s0, 1%nat)
      else if (s0 <? 0xC2) || (0xF4 <? s0) then (RuneError, 1%nat)
      else
        let sz := if s0 <? 0xE0 then 2%nat
                  else if s0 <? 0xF0 then 3%nat else 4%nat in
        let lo := if s0 =? 0xE0 then 0xA0
                  else if s0 =? 0xF0 then 0x90 else 0x80 in
        let hi := if s0 =? 0xED then 0x9F
                  else if s0 =? 0xF4 then 0x8F else 0xBF in
        if (length p <? sz)%nat then (RuneError, 1%nat) else
        match p1 with
        | [] => (RuneError, 1%nat)
        | s1 :: p2 =>
            if (s1 <? lo) || (hi <? s1) then (RuneError, 1%nat) else
            if (sz <=? 2)%nat then
              (Z.lor (Z.shiftl (Z.land s0 0x1F) 6) (Z.land s1 0x3F), 2%nat)
            else
            match p2 with
            | [] => (RuneError, 1%nat)
            | s2 :: p3 =>
                if negb (continuation s2) then (RuneError, 1%nat) else
                if (sz <=? 3)%nat then
                  (Z.lor (Z.shiftl (Z.land s0 0x0F) 12)
                     (Z.lor (Z.shiftl (Z.land s1 0x3F) 6) (Z.land s2 0x3F)),
                   3%nat)
                else
                match p3 with
                | [] => (RuneError, 1%nat)
                | s3 :: _ =>
                    if negb (continuation s3) then (RuneError, 1%nat) else
                    (Z.lor (Z.shiftl (Z.land s0 0x07) 18)
                       (Z.lor (Z.shiftl (Z.land s1 0x3F) 12)
                          (Z.lor (Z.shiftl (Z.land s2 0x3F) 6)
                             (Z.land s3 0x3F))),
                     4%nat)
                end
            end
        end
  end.

(** [utf8.RuneStart]. *)
Definition RuneStart (b : Z) : bool := negb (Z.land b 0xC0 =? 0x80).

(** The backwards search of [DecodeLastRuneInString] for a start byte:
    [start] runs from [end - 2] down to [lim]. *)
Fixpoint lastStart (p : list Z) (start : nat) (n : nat) : option nat :=
  match n with
  | O => None
  | S n' =>
      if RuneStart (default 0 (p !! start)) then Some start
      else match start with
           | O => None
           | S start' => lastStart p start' n'
           end
  end.

(** [utf8.DecodeLastRuneInString]. *)
Definition DecodeLastRune (p : list Z) : Z * nat :=
  let end_ := length p in
  match end_ with
  | O => (RuneError, O)
  | S start =>
      let r := default 0 (p !! start) in
      if r <? RuneSelf then (r, 1%nat) else
      let lim := (end_ - UTFMax)%nat in
      let start :=
        match start with
        | O => O
        | S start' =>
            match lastStart p start' (S start' - lim) with
            | Some s => s
            | None => (lim - 1)%nat
            end
        end in
      let '(r, size) := DecodeRune (drop start p) in
      if (start + size =? end_)%nat then (r, size) else (RuneError, 1%nat)
  end.

End GoUtf8.

Module GoUnicode.
(** [unicode.IsSpace]: the Unicode White_Space property. *)
Definition IsSpace (r : Z) : bool :=
  if r <=? 0xFF then
    ((0x09 <=? r) && (r <=? 0x0D)) || (r =? 0x20) || (r =? 0x85) || (r =? 0xA0)
  else
    (r =? 0x1680) || ((0x2000 <=? r) && (r <=? 0x200A))
    || (r =? 0x2028) || (r =? 0x2029) || (r =? 0x202F) || (r =? 0x205F)
    || (r =? 0x3000).
End GoUnicode.

Module GoStrings.

(** The table [asciiSpace]: tab, newline, vertical tab, form feed,
    carriage return, space. *)
Definition asciiSpace (c : Z) : bool :=
  ((0x09 <=? c) && (c <=? 0x0D)) || (c =? 0x20).

(** [indexFunc(s, unicode.IsSpace, false)]: the index of the first rune
    that is not a space, decoding as [range s] does. *)
Fixpoint indexNotSpace (n : nat) (p : list Z) (i : nat) : option nat :=
  match n with
  | O => None
  | S n' =>
      match p with
      | [] => None
      | _ =>
          let '(r, size) := GoUtf8.DecodeRune p in
          if GoUnicode.IsSpace r then indexNotSpace n' (drop size p) (i + size)
          else Some i
      end
  end.

(** [lastIndexFunc(s, unicode.IsSpace, false)]. *)
Fixpoint lastIndexNotSpace (n : nat) (p : list Z) (i : nat) : option nat :=
  match n with
  | O => None
  | S n' =>
      if (0 <? i)%nat then
        let '(r, size) := GoUtf8.DecodeLastRune (take i p) in
        let i := (i - size)%nat in
        if GoUnicode.IsSpace r then lastIndexNotSpace n' p i else Some i
      else None
  end.

(** [strings.TrimLeftFunc(s, unicode.IsSpace)], as an offset. *)
Definition TrimLeftSpace (p : list Z) : list Z :=
  match indexNotSpace (length p) p 0 with
  | None => []
  | Some i => drop i p
  end.

(** [strings.TrimRightFunc(s, unicode.IsSpace)]. *)
Definition TrimRightSpace (p : list Z) : list Z :=
  match lastIndexNotSpace (length p) p (length p) with
  | Some i =>
      if GoUtf8.RuneSelf <=? default 0 (p !! i)
      then take (i + snd (GoUtf8.DecodeRune (drop i p))) p
      else take (S i) p
  | None => []
  end.

(** The two ASCII scans of [strings.TrimSpace]; [None] when a byte
    outside ASCII sends it to the Unicode-aware functions. *)
Fixpoint asciiStart (p : list Z) (start : nat) : option nat :=
  match p with
  | [] => Some start
  | c :: p' =>
      if GoUtf8.RuneSelf <=? c then None
      else if asciiSpace c then asciiStart p' (S start) else Some start
  end.

Fixpoint asciiStop (rev_p : list Z) (stop : nat) : option nat :=
  match rev_p with
  | [] => Some stop
  | c :: p' =>
      if GoUtf8.RuneSelf <=? c then None
      else if asciiSpace c then asciiStop p' (stop - 1) else Some stop
  end.

(** Number of leading space bytes before the first byte outside ASCII
    or the first non-space. *)
Fixpoint asciiPrefix (p : list Z) : nat :=
  match p with
  | [] => O
  | c :: p' =>
      if (c <? GoUtf8.RuneSelf) && asciiSpace c then S (asciiPrefix p') else O
  end.

Definition TrimSpace_bytes (p : list Z) : list Z :=
  match asciiStart p 0 with
  | None => TrimRightSpace (TrimLeftSpace (drop (asciiPrefix p) p))
  | Some start =>
      let q := drop start p in
      match asciiStop (rev q) (length q) with
      | None => TrimRightSpace (take (length q - asciiPrefix (rev q)) q)
      | Some stop => take stop q
      end
  end.

Definition string_of_bytes (p : list Z) : string :=
  fold_right (fun b s => String (ascii_of_N (Z.to_N b)) s) EmptyString p.

(** [strings.TrimSpace]. *)
Definition TrimSpace (s : string) : string :=
  string_of_bytes (TrimSpace_bytes (bytes_of s)).

(** [strings.ToLower] on a one-byte string, which is all the parser
    passes.  An ASCII capital is lowered; a lone byte outside ASCII is
    invalid UTF-8 and is mapped to the encoding of U+FFFD. *)
Definition ToLower1 (c : ascii) : string :=
  let b := byte_of c in
  if GoUtf8.RuneSelf <=? b then string_of_bytes [0xEF; 0xBF; 0xBD]
  else if (0x41 <=? b) && (b <=? 0x5A)
       then string_of_bytes [b + 0x20]
       else String c EmptyString.

End GoStrings.

(** ** [strconv] *)

Module GoStrconv.

Inductive NumError : Type := ErrSyntax | ErrRange.

(** The digit loop of [ParseUint(s, 10, 64)]: no underscores, no
    letters; the range error is raised at the byte that overflows. *)
Fixpoint ParseUint_loop (p : list Z) (n : Z) : NumError + Z :=
  match p with
  | [] => inr n
  | c :: p' =>
      if (0x30 <=? c) && (c <=? 0x39) then
        let d := c - 0x30 in
        if uint64_max / 10 + 1 <=? n then inl ErrRange else
        let n1 := n * 10 + d in
        if uint64_max <? n1 then inl ErrRange else ParseUint_loop p' n1
      else inl ErrSyntax
  end.

Definition ParseUint (p : list Z) : NumError + Z :=
  match p with
  | [] => inl ErrSyntax
  | _ => ParseUint_loop p 0
  end.

(** [strconv.ParseInt(s, 10, 64)]. *)
Definition ParseInt (s : string) : NumError + Z :=
  match bytes_of s with
  | [] => inl ErrSyntax
  | c :: p' =>
      let neg := c =? 0x2D in
      let digits := if (c =? 0x2B) || neg then p' else c :: p' in
      match ParseUint digits with
      | inl ErrSyntax => inl ErrSyntax
      | inl ErrRange => inl ErrRange
      | inr un =>
          let cutoff := 2 ^ 63 in
          if negb neg && (cutoff <=? un) then inl ErrRange
          else if neg && (cutoff <? un) then inl ErrRange
          else inr (if neg then - un else un)
      end
  end.

(** [strconv.Atoi] on a 64-bit target: its fast path for short strings
    returns what [ParseInt(s, 10, 0)] returns. *)
Definition Atoi (s : string) : NumError + Z := ParseInt s.

(** The verb [%d] of [fmt.Sprintf] on an [int64]. *)
Definition FormatInt (z : Z) : string := NilZero.string_of_int (Z.to_int z).

End GoStrconv.

(** ** [time] *)

Module GoTime.

(** [time.Duration]: a count of nanoseconds in an [int64]. *)
Definition Nanosecond : Z := 1.
Definition Microsecond : Z := 1000 * Nanosecond.
Definition Millisecond : Z := 1000 * Microsecond.
Definition Second : Z := 1000 * Millisecond.
Definition Minute : Z := 60 * Second.
Definition Hour : Z := 60 * Minute.

(** The wall-clock part of a [time.Time]: seconds since year 1 (an
    [int64]) and a nanosecond offset in [0, 999999999].  The monitor
    compares stored instants built by [time.Unix], which carry no
    monotonic reading, so every comparison it makes is on these two
    fields. *)
Record Time : Type := mkTime { sec : Z; nsec : Z }.

(** Seconds from year 1 to 1970. *)
Definition unixToInternal : Z :=
  (1969 * 365 + 1969 / 4 - 1969 / 100 + 1969 / 400) * 86400.

Definition internalToUnix : Z := - unixToInternal.

(** [time.Unix(sec, nsec)]. *)
Definition Unix (s ns : Z) : Time :=
  let '(s, ns) :=
    if (ns <? 0) || (1000000000 <=? ns) then
      let n := Z.quot ns 1000000000 in
      let s := wrap64 (s + n) in
      let ns := ns - n * 1000000000 in
      if ns <? 0 then (wrap64 (s - 1), ns + 1000000000) else (s, ns)
    else (s, ns) in
  mkTime (wrap64 (s + unixToInternal)) ns.

Definition After (t u : Time) : bool :=
  (sec u <? sec t) || ((sec t =? sec u) && (nsec u <? nsec t)).

Definition Before (t u : Time) : bool :=
  (sec t <? sec u) || ((sec t =? sec u) && (nsec t <? nsec u)).

Definition Equal (t u : Time) : bool :=
  (sec t =? sec u) && (nsec t =? nsec u).

(** [t.Unix()] and [t.UnixNano()]. *)
Definition unixSec (t : Time) : Z := wrap64 (sec t + internalToUnix).

Definition UnixNano (t : Time) : Z :=
  wrap64 (wrap64 (unixSec t * 1000000000) + nsec t).

(** [t.addSec(d)]: saturating. *)
Definition addSec (t : Time) (d : Z) : Time :=
  let sum := wrap64 (sec t + d) in
  if Bool.eqb (sec t <? sum) (0 <? d) then mkTime sum (nsec t)
  else if 0 <? d then mkTime (2 ^ 63 - 1) (nsec t)
  else mkTime (- (2 ^ 63 - 1)) (nsec t).

(** [t.Add(d)]. *)
Definition Add (t : Time) (d : Z) : Time :=
  let dsec := Z.quot d 1000000000 in
  let ns := nsec t + Z.rem d 1000000000 in
  let '(dsec, ns) :=
    if 1000000000 <=? ns then (dsec + 1, ns - 1000000000)
    else if ns <? 0 then (dsec - 1, ns + 1000000000)
    else (dsec, ns) in
  addSec (mkTime (sec t) ns) dsec.

(** The chronological order on instants. *)
Definition le (t u : Time) : Prop :=
  sec t < sec u \/ (sec t = sec u /\ nsec t <= nsec u).

(** The earliest and the latest instant a [Time] can hold. *)
Definition minTime : Time := mkTime int64_min 0.
Definition maxTime : Time := mkTime int64_max 999999999.

End GoTime.

(** ** [sort]

    [sort.Slice] of Go 1.19 and later: pattern-defeating quicksort over
    an index-based [Less] and [Swap] (file [zsortfunc.go] of the
    standard library).  The slice is a list, an index a [nat]; every
    loop is bounded by the distance its indices still have to travel. *)

Module GoSort.

(** The hint [choosePivot_func] gives about the slice. *)
Inductive sortedHint : Type := unknownHint | increasingHint | decreasingHint.

(** [xorshift.Next], the generator of [breakPatterns_func], on a
    [uint64].  Which exchanges [breakPatterns_func] makes is all that
    depends on it. *)
Definition xorshift_Next (r : Z) : Z :=
  let r := Z.lxor r (Z.shiftl r 13 mod 2 ^ 64) in
  let r := Z.lxor r (Z.shiftr r 7) in
  let r := Z.lxor r (Z.shiftl r 17 mod 2 ^ 64) in
  r.

(** [nextPowerOfTwo]: [1 << bits.Len(length)]. *)
Definition nextPowerOfTwo (length : nat) : Z := 2 ^ Z.of_nat (GoBits.Len length).

Section Func.
Context {A : Type} (less : A -> A -> bool).

(** [data.Less(i, j)]: the closure of the caller on the elements at
    [i] and [j]. *)
Definition Less (l : list A) (i j : nat) : bool :=
  match l !! i, l !! j with
  | Some x, Some y => less x y
  | _, _ => false
  end.

(** [data.Swap(i, j)]. *)
Definition Swap (l : list A) (i j : nat) : list A :=
  match l !! i, l !! j with
  | Some x, Some y => <[j := x]> (<[i := y]> l)
  | _, _ => l
  end.

(** The inner loop of [insertionSort_func]:
    [for j := i; j > a && data.Less(j, j-1); j--]. *)
Fixpoint insertionSort_inner (l : list A) (a j : nat) : list A :=
  match j with
  | O => l
  | S j' =>
      if (a <? j)%nat && Less l j j'
      then insertionSort_inner (Swap l j j') a j'
      else l
  end.

(** Its outer loop, [for i := a + 1; i < b; i++], with [n = b - i] turns
    to go. *)
Fixpoint insertionSort_loop (l : list A) (a i n : nat) : list A :=
  match n with
  | O => l
  | S n' => insertionSort_loop (insertionSort_inner l a i) a (S i) n'
  end.

(** [insertionSort_func]: sorts [data[a:b]]. *)
Definition insertionSort_func (l : list A) (a b : nat) : list A :=
  insertionSort_loop l a (S a) (b - S a).

(** The loop of [siftDown_func]; [root] grows at every turn and stays
    below [hi], so [hi] turns are enough. *)
Fixpoint siftDown_loop (n : nat) (l : list A) (root hi first : nat) : list A :=
  match n with
  | O => l
  | S n' =>
      let child := (2 * root + 1)%nat in
      if (hi <=? child)%nat then l else
      let child :=
        if (child + 1 <? hi)%nat && Less l (first + child) (first + child + 1)
        then (child + 1)%nat else child in
      if negb (Less l (first + root) (first + child)) then l else
      siftDown_loop n' (Swap l (first + root) (first + child)) child hi first
  end.

(** [siftDown_func]: restores the heap order on [data[lo:hi]], offsets
    counted from [first]. *)
Definition siftDown_func (l : list A) (lo hi first : nat) : list A :=
  siftDown_loop hi l lo hi first.

(** The two loops of [heapSort_func], both running down to 0:
    [for i := (hi - 1) / 2; i >= 0; i--] builds the heap,
    [for i := hi - 1; i >= 0; i--] pops its greatest element. *)
Fixpoint heapSort_build (l : list A) (i hi first : nat) : list A :=
  let l := siftDown_func l i hi first in
  match i with
  | O => l
  | S i' => heapSort_build l i' hi first
  end.

Fixpoint heapSort_pop (l : list A) (i first : nat) : list A :=
  let l := siftDown_func (Swap l first (first + i)) 0 i first in
  match i with
  | O => l
  | S i' => heapSort_pop l i' first
  end.

(** [heapSort_func]. *)
Definition heapSort_func (l : list A) (a b : nat) : list A :=
  let first := a in
  let hi := (b - a)%nat in
  let l := heapSort_build l ((hi - 1) / 2) hi first in
  heapSort_pop l (hi - 1) first.

(** The scans [for i <= j && p(i) { i++ }] and
    [for i <= j && p(j) { j-- }], with [n = j + 1 - i] indices left
    between the two. *)
Fixpoint scan_up (p : nat -> bool) (i n : nat) : nat :=
  match n with
  | O => i
  | S n' => if p i then scan_up p (S i) n' else i
  end.

Fixpoint scan_down (p : nat -> bool) (j n : nat) : nat :=
  match n with
  | O => j
  | S n' => if p j then scan_down p (j - 1) n' else j
  end.

(** The loop [for { ... }] of [partition_func]; [i] and [j] move
    towards each other at every turn. *)
Fixpoint partition_loop (n : nat) (l : list A) (a i j : nat) : list A * nat * nat :=
  match n with
  | O => (l, i, j)
  | S n' =>
      let i := scan_up (fun i => Less l i a) i (S j - i) in
      let j := scan_down (fun j => negb (Less l j a)) j (S j - i) in
      if (j <? i)%nat then (l, i, j) else
      partition_loop n' (Swap l i j) a (S i) (j - 1)
  end.

(** [partition_func]: one quicksort partition around [data[pivot]];
    returns the new index of the pivot and whether the slice was
    already partitioned. *)
Definition partition_func (l : list A) (a b pivot : nat) : list A * nat * bool :=
  let l := Swap l a pivot in
  let i := S a in
  let j := (b - 1)%nat in
  let i := scan_up (fun i => Less l i a) i (S j - i) in
  let j := scan_down (fun j => negb (Less l j a)) j (S j - i) in
  if (j <? i)%nat then (Swap l j a, j, true) else
  let l := Swap l i j in
  let '(l, i, j) := partition_loop (b - a) l a (S i) (j - 1) in
  (Swap l j a, j, false).

(** The loop of [partitionEqual_func]. *)
Fixpoint partitionEqual_loop (n : nat) (l : list A) (a i j : nat) : list A * nat :=
  match n with
  | O => (l, i)
  | S n' =>
      let i := scan_up (fun i => negb (Less l a i)) i (S j - i) in
      let j := scan_down (fun j => Less l a j) j (S j - i) in
      if (j <? i)%nat then (l, i) else
      partitionEqual_loop n' (Swap l i j) a (S i) (j - 1)
  end.

(** [partitionEqual_func]: the elements equal to the pivot first, then
    the greater ones. *)
Definition partitionEqual_func (l : list A) (a b pivot : nat) : list A * nat :=
  let l := Swap l a pivot in
  partitionEqual_loop (b - a) l a (S a) (b - 1).

(** The two shifts of [partialInsertionSort_func]:
    [for j := i - 1; j >= 1; j--] moves the smaller element left,
    [for j := i + 1; j < b; j++] the greater one right. *)
Fixpoint shiftLeft (l : list A) (j : nat) : list A :=
  match j with
  | O => l
  | S j' => if negb (Less l j j') then l else shiftLeft (Swap l j j') j'
  end.

Fixpoint shiftRight (l : list A) (j n : nat) : list A :=
  match n with
  | O => l
  | S n' =>
      if negb (Less l j (j - 1)) then l
      else shiftRight (Swap l j (j - 1)) (S j) n'
  end.

Definition maxSteps : nat := 5.
Definition shortestShifting : nat := 50.

(** The loop [for j := 0; j < maxSteps; j++] of
    [partialInsertionSort_func]. *)
Fixpoint partialInsertionSort_loop (steps : nat) (l : list A) (a b i : nat)
  : list A * bool :=
  match steps with
  | O => (l, false)
  | S steps' =>
      let i := scan_up (fun i => negb (Less l i (i - 1))) i (b - i) in
      if (i =? b)%nat then (l, true) else
      if (b - a <? shortestShifting)%nat then (l, false) else
      let l := Swap l i (i - 1) in
      let l := if (2 <=? i - a)%nat then shiftLeft l (i - 1) else l in
      let l := if (2 <=? b - i)%nat then shiftRight l (i + 1) (b - (i + 1)) else l in
      partialInsertionSort_loop steps' l a b i
  end.

(** [partialInsertionSort_func]: sorts a slice that is nearly sorted;
    returns whether the slice is sorted at the end. *)
Definition partialInsertionSort_func (l : list A) (a b : nat) : list A * bool :=
  partialInsertionSort_loop maxSteps l a b (S a).

(** The three exchanges of [breakPatterns_func]. *)
Fixpoint breakPatterns_loop (n : nat) (l : list A) (a length idx : nat)
  (random modulus : Z) (i : nat) : list A :=
  match n with
  | O => l
  | S n' =>
      let random := xorshift_Next random in
      let other := Z.to_nat (Z.land random (modulus - 1)) in
      let other := if (length <=? other)%nat then (other - length)%nat else other in
      breakPatterns_loop n' (Swap l (idx - 1 + i) (a + other))
        a length idx random modulus (S i)
  end.

(** [breakPatterns_func]. *)
Definition breakPatterns_func (l : list A) (a b : nat) : list A :=
  let length := (b - a)%nat in
  if (8 <=? length)%nat then
    let random := Z.of_nat length in
    let modulus := nextPowerOfTwo length in
    let idx := (a + (length / 4) * 2 - 1)%nat in
    breakPatterns_loop 3 l a length idx random modulus 0
  else l.

(** [order2_func], [median_func] and [medianAdjacent_func] choose among
    indices and count in [swaps] the pairs found out of order. *)
Definition order2_func (l : list A) (a b swaps : nat) : nat * nat * nat :=
  if Less l b a then (b, a, S swaps) else (a, b, swaps).

Definition median_func (l : list A) (a b c swaps : nat) : nat * nat :=
  let '(a, b, swaps) := order2_func l a b swaps in
  let '(b, c, swaps) := order2_func l b c swaps in
  let '(a, b, swaps) := order2_func l a b swaps in
  (b, swaps).

Definition medianAdjacent_func (l : list A) (a swaps : nat) : nat * nat :=
  median_func l (a - 1) a (a + 1) swaps.

Definition shortestNinther : nat := 50.
Definition maxSwaps : nat := 4 * 3.

(** [choosePivot_func]. *)
Definition choosePivot_func (l : list A) (a b : nat) : nat * sortedHint :=
  let len := (b - a)%nat in
  let swaps := O in
  let i := (a + len / 4 * 1)%nat in
  let j := (a + len / 4 * 2)%nat in
  let k := (a + len / 4 * 3)%nat in
  let '(j, swaps) :=
    if (8 <=? len)%nat then
      let '(i, j, k, swaps) :=
        if (shortestNinther <=? len)%nat then
          let '(i, swaps) := medianAdjacent_func l i swaps in
          let '(j, swaps) := medianAdjacent_func l j swaps in
          let '(k, swaps) := medianAdjacent_func l k swaps in
          (i, j, k, swaps)
        else (i, j, k, swaps) in
      median_func l i j k swaps
    else (j, swaps) in
  if (swaps =? 0)%nat then (j, increasingHint)
  else if (swaps =? maxSwaps)%nat then (j, decreasingHint)
  else (j, unknownHint).

(** [reverseRange_func]. *)
Fixpoint reverseRange_loop (n : nat) (l : list A) (i j : nat) : list A :=
  match n with
  | O => l
  | S n' =>
      if (i <? j)%nat then reverseRange_loop n' (Swap l i j) (S i) (j - 1) else l
  end.

Definition reverseRange_func (l : list A) (a b : nat) : list A :=
  reverseRange_loop (b - a) l a (b - 1).

Definition maxInsertion : nat := 12.

Definition hint_eqb (h1 h2 : sortedHint) : bool :=
  match h1, h2 with
  | unknownHint, unknownHint | increasingHint, increasingHint
  | decreasingHint, decreasingHint => true
  | _, _ => false
  end.

(** [pdqsort_func]: sorts [data[a:b]].  One unit of [fuel] pays for one
    turn of its loop [for { ... }]; [None] is a loop that has run out of
    fuel. *)
Fixpoint pdqsort_func (fuel : nat) (l : list A) (a b limit : nat)
  (wasBalanced wasPartitioned : bool) : option (list A) :=
  match fuel with
  | O => None
  | S fuel' =>
      let length := (b - a)%nat in
      if (length <=? maxInsertion)%nat then Some (insertionSort_func l a b) else
      if (limit =? 0)%nat then Some (heapSort_func l a b) else
      let '(l, limit) :=
        if negb wasBalanced then (breakPatterns_func l a b, (limit - 1)%nat)
        else (l, limit) in
      let '(pivot, hint) := choosePivot_func l a b in
      let '(l, pivot, hint) :=
        if hint_eqb hint decreasingHint
        then (reverseRange_func l a b, ((b - 1) - (pivot - a))%nat, increasingHint)
        else (l, pivot, hint) in
      let '(l, done) :=
        if wasBalanced && wasPartitioned && hint_eqb hint increasingHint
        then partialInsertionSort_func l a b
        else (l, false) in
      if done then Some l else
      if (0 <? a)%nat && negb (Less l (a - 1) pivot) then
        let '(l, mid) := partitionEqual_func l a b pivot in
        pdqsort_func fuel' l mid b limit wasBalanced wasPartitioned
      else
        let '(l, mid, alreadyPartitioned) := partition_func l a b pivot in
        let wasPartitioned := alreadyPartitioned in
        let leftLen := (mid - a)%nat in
        let rightLen := (b - mid)%nat in
        let balanceThreshold := (length / 8)%nat in
        if (leftLen <? rightLen)%nat then
          let wasBalanced := (balanceThreshold <=? leftLen)%nat in
          match pdqsort_func fuel' l a mid limit true true with
          | None => None
          | Some l =>
              pdqsort_func fuel' l (S mid) b limit wasBalanced wasPartitioned
          end
        else
          let wasBalanced := (balanceThreshold <=? rightLen)%nat in
          match pdqsort_func fuel' l (S mid) b limit true true with
          | None => None
          | Some l =>
              pdqsort_func fuel' l a mid limit wasBalanced wasPartitioned
          end
  end.

(** [sort.Slice(x, less)]. *)
Definition Slice (x : list A) : option (list A) :=
  let length := length x in
  let limit := GoBits.Len length in
  pdqsort_func (S length) x 0 length limit true true.

End Func.
End GoSort.

(** ** Data model of the monitor *)

Record PartitionMetrics : Type := mkPartition {
  Path : string;
  Total : Z;
  Used : Z;
  Free : Z;
  UsagePercent : float64
}.

Record DiskMetrics : Type := mkMetrics {
  Timestamp : Z;
  Partitions : list PartitionMetrics
}.

(** A datapoint [[]float64{value, timestamp}]: the handler builds only
    two-element points. *)
Definition datapoint : Type := (float64 * float64)%type.

Record TimeserieResponse : Type := mkTimeserie {
  Target : string;
  Datapoints : list datapoint
}.

Record MetricsStore : Type := mkStore {
  data : list DiskMetrics;
  maxSize : Z
}.

(** The process-wide store: empty, 24 hours of minute-resolution data. *)
Definition store : MetricsStore := mkStore [] (60 * 24).

(** ** The series store *)

(** [MetricsStore.add]: append, then drop the head once over capacity. *)
Definition add (s : MetricsStore) (metrics : DiskMetrics) : MetricsStore :=
  let data' := data s ++ [metrics] in
  if maxSize s <? Z.of_nat (length data')
  then mkStore (tail data') (maxSize s)
  else mkStore data' (maxSize s).

(** The instant a snapshot was taken: [time.Unix(m.Timestamp, 0)]. *)
Definition capturedAt (m : DiskMetrics) : GoTime.Time :=
  GoTime.Unix (Timestamp m) 0.

(** The test in the loop of [MetricsStore.getRange]; Go's [&&] binds
    tighter than [||]. *)
Definition inRange (fromTime toTime : GoTime.Time) (m : DiskMetrics) : bool :=
  let ts := GoTime.Unix (Timestamp m) 0 in
  (GoTime.After ts fromTime && GoTime.Before ts toTime)
  || GoTime.Equal ts fromTime || GoTime.Equal ts toTime.

(** [MetricsStore.getRange]. *)
Definition getRange (s : MetricsStore) (fromTime toTime : GoTime.Time)
  : list DiskMetrics :=
  fold_left
    (fun result m => if inRange fromTime toTime m then result ++ [m] else result)
    (data s) [].

(** ** Sorting a series *)

(** The closure given to [sort.Slice]: [sorted[i][1] < sorted[j][1]]. *)
Definition lessTimestamp (x y : datapoint) : bool := float64_lt (snd x) (snd y).

(** [sortDatapoints]: sorts a copy.  [GoSort.Slice] always returns (lemma
    [Slice_sorts] below), so the second branch is never taken. *)
Definition sortDatapoints (datapoints : list datapoint) : list datapoint :=
  match GoSort.Slice lessTimestamp datapoints with
  | Some sorted => sorted
  | None => datapoints
  end.

(** ** The collector *)

(** What [gopsutil]'s [disk.Partitions] and [disk.Usage] return; an error
    is its message. *)
Record PartitionStat : Type := mkPartitionStat { Mountpoint : string }.

Record UsageStat : Type := mkUsage {
  usTotal : Z;
  usUsed : Z;
  usFree : Z;
  usUsedPercent : float64
}.

(** The host as one collection cycle sees it. *)
Record Host : Type := mkHost {
  disk_Partitions : string + list PartitionStat;
  disk_Usage : string -> string + UsageStat;
  time_Now : GoTime.Time
}.

(** The process-wide state: the store and the two gauge vectors. *)
Record Monitor : Type := mkMonitor {
  mon_store : MetricsStore;
  diskUsage : gmap (string * string) float64;
  diskUsagePercent : gmap string float64
}.

(** One turn of the loop of [collectMetrics] over the partitions. *)
Definition collectPartition (h : Host)
  (acc : list PartitionMetrics * gmap (string * string) float64 * gmap string float64)
  (partition : PartitionStat)
  : list PartitionMetrics * gmap (string * string) float64 * gmap string float64 :=
  let '(parts, du, dup) := acc in
  match disk_Usage h (Mountpoint partition) with
  | inl _ => acc
  | inr usage =>
      let mp := Mountpoint partition in
      let du := <[(mp, "total"%string) := float64_of_Z (usTotal usage)]> du in
      let du := <[(mp, "used"%string) := float64_of_Z (usUsed usage)]> du in
      let du := <[(mp, "free"%string) := float64_of_Z (usFree usage)]> du in
      let dup := <[mp := usUsedPercent usage]> dup in
      (parts ++ [mkPartition mp (usTotal usage) (usUsed usage) (usFree usage)
                   (usUsedPercent usage)], du, dup)
  end.

(** [collectMetrics]. *)
Definition collectMetrics (h : Host) (st : Monitor)
  : (string + DiskMetrics) * Monitor :=
  match disk_Partitions h with
  | inl err => (inl err, st)
  | inr partitions =>
      let '(parts, du, dup) :=
        fold_left (collectPartition h) partitions
          ([], diskUsage st, diskUsagePercent st) in
      let metrics := mkMetrics (GoTime.unixSec (time_Now h)) parts in
      (inr metrics, mkMonitor (add (mon_store st) metrics) du dup)
  end.

(** ** HTTP handlers *)

(** What a handler writes: [http.Error], [http.Redirect], or a JSON
    body. *)
Inductive Response (B : Type) : Type :=
| HttpError (msg : string) (code : Z)
| HttpRedirect (url : string) (code : Z)
| HttpJSON (body : B).

Arguments HttpError {B} msg code.
Arguments HttpRedirect {B} url code.
Arguments HttpJSON {B} body.

Definition StatusTemporaryRedirect : Z := 307.
Definition StatusBadRequest : Z := 400.
Definition StatusInternalServerError : Z := 500.

(** [url.Values] and its [Get]: the first value of a key, or the empty
    string. *)
Definition Get (query : gmap string (list string)) (key : string) : string :=
  match query !! key with
  | Some (v :: _) => v
  | _ => EmptyString
  end.

(** [metricsHandler]. *)
Definition metricsHandler (h : Host) (st : Monitor)
  : Response DiskMetrics * Monitor :=
  match collectMetrics h st with
  | (inl err, st') => (HttpError err StatusInternalServerError, st')
  | (inr metrics, st') => (HttpJSON metrics, st')
  end.

(** The body of the inner loop of [grafanaHandler]. *)
Definition projectPartition (pathFilter : string) (timestamp : float64)
  (pathMetrics : gmap string (list datapoint)) (partition : PartitionMetrics)
  : gmap string (list datapoint) :=
  if negb (String.eqb pathFilter "") && negb (String.eqb (Path partition) pathFilter)
  then pathMetrics
  else
    let usedKey := (Path partition +:+ " - Used")%string in
    let freeKey := (Path partition +:+ " - Free")%string in
    let percentKey := (Path partition +:+ " - Usage %")%string in
    let pathMetrics :=
      match pathMetrics !! usedKey with
      | None => <[percentKey := []]> (<[freeKey := []]> (<[usedKey := []]> pathMetrics))
      | Some _ => pathMetrics
      end in
    let pathMetrics :=
      <[usedKey := default [] (pathMetrics !! usedKey)
                   ++ [(float64_of_Z (Used partition), timestamp)]]> pathMetrics in
    let pathMetrics :=
      <[freeKey := default [] (pathMetrics !! freeKey)
                   ++ [(float64_of_Z (Free partition), timestamp)]]> pathMetrics in
    let pathMetrics :=
      <[percentKey := default [] (pathMetrics !! percentKey)
                      ++ [(UsagePercent partition, timestamp)]]> pathMetrics in
    pathMetrics.

(** The body of the outer loop. *)
Definition projectSnapshot (pathFilter : string)
  (pathMetrics : gmap string (list datapoint)) (m : DiskMetrics)
  : gmap string (list datapoint) :=
  let timestamp := float64_of_Z (mul64 (Timestamp m) 1000) in
  fold_left (projectPartition pathFilter timestamp) (Partitions m) pathMetrics.

(** The map [pathMetrics] once both loops are done. *)
Definition project (metrics : list DiskMetrics) (pathFilter : string)
  : gmap string (list datapoint) :=
  fold_left (projectSnapshot pathFilter) metrics ∅.

(** The response array.  Go leaves the order in which [range] visits a
    map open; the entries are listed here in the order of [map_to_list],
    and nothing below depends on it. *)
Definition response_of (pathMetrics : gmap string (list datapoint))
  : list TimeserieResponse :=
  (fun kv => mkTimeserie (fst kv) (sortDatapoints (snd kv)))
    <$> map_to_list pathMetrics.

(** [grafanaHandler]. *)
Definition grafanaHandler (s : MetricsStore) (query : gmap string (list string))
  : Response (list TimeserieResponse) :=
  let pathFilter := Get query "path" in
  let fromStr := Get query "from" in
  let toStr := Get query "to" in
  match GoStrconv.ParseInt fromStr with
  | inl _ => HttpError "Invalid 'from' parameter" StatusBadRequest
  | inr fromMs =>
      let fromTime := GoTime.Unix (Z.quot fromMs 1000) 0 in
      match GoStrconv.ParseInt toStr with
      | inl _ => HttpError "Invalid 'to' parameter" StatusBadRequest
      | inr toMs =>
          let toTime := GoTime.Unix (Z.quot toMs 1000) 0 in
          let metrics := getRange s fromTime toTime in
          HttpJSON (response_of (project metrics pathFilter))
      end
  end.

(** ** The relative-time parser *)

Inductive TimeError : Type :=
| EmptyTimeString
| InvalidNumberFormat (number : string)
| UnsupportedTimeUnit (unit : string).

(** The text of the error, as [fmt.Errorf] builds it. *)
Definition errorString (e : TimeError) : string :=
  match e with
  | EmptyTimeString => "empty time string"
  | InvalidNumberFormat number => "invalid number format: " +:+ number
  | UnsupportedTimeUnit unit => "unsupported time unit: " +:+ unit
  end.

(** [timeStr[:len(timeStr)-1]] and [timeStr[len(timeStr)-1:]]. *)
Fixpoint splitLast (s : string) : option (string * ascii) :=
  match s with
  | EmptyString => None
  | String c s' =>
      match splitLast s' with
      | None => Some (EmptyString, c)
      | Some (number, unit) => Some (String c number, unit)
      end
  end.

(** [parseSimpleTime]. *)
Definition parseSimpleTime (timeStr : string) : TimeError + Z :=
  let timeStr := GoStrings.TrimSpace timeStr in
  match splitLast timeStr with
  | None => inl EmptyTimeString
  | Some (number, unit) =>
      match GoStrconv.Atoi number with
      | inl _ => inl (InvalidNumberFormat number)
      | inr value =>
          let lower := GoStrings.ToLower1 unit in
          if String.eqb lower "m" then inr (mul64 value GoTime.Minute)
          else if String.eqb lower "h" then inr (mul64 value GoTime.Hour)
          else if String.eqb lower "d" then inr (mul64 (mul64 value 24) GoTime.Hour)
          else inl (UnsupportedTimeUnit (String unit EmptyString))
      end
  end.

(** [grafanaSimpleHandler], with the clock reading [now] made explicit. *)
Definition grafanaSimpleHandler (now : GoTime.Time) (query : gmap string (list string))
  : Response unit :=
  let path := Get query "path" in
  let simpleTime := Get query "time" in
  match parseSimpleTime simpleTime with
  | inl err =>
      HttpError ("Invalid time format: " +:+ errorString err) StatusBadRequest
  | inr duration =>
      let from := GoTime.Add now (neg64 duration) in
      let fromMs := Z.quot (GoTime.UnixNano from) GoTime.Millisecond in
      let toMs := Z.quot (GoTime.UnixNano now) GoTime.Millisecond in
      let redirectURL :=
        ("/grafana?path=" +:+ path +:+ "&from=" +:+ GoStrconv.FormatInt fromMs
         +:+ "&to=" +:+ GoStrconv.FormatInt toMs)%string in
      HttpRedirect redirectURL StatusTemporaryRedirect
  end.

(** ** Scenarios

    Concrete snapshots and stores used by the examples below. *)

(** A snapshot taken at Unix second [t] with the single partition ["/"]
    and [u] bytes used. *)
Definition snapshotAt (t u : Z) : DiskMetrics :=
  mkMetrics t [mkPartition "/" 100 u (100 - u) (float64_of_Z u)].

(** A store whose snapshots were appended against a clock that stepped
    back. *)
Definition steppedBackStore : MetricsStore :=
  mkStore [snapshotAt 5 50; snapshotAt 3 30] (60 * 24).

(** A store with the single snapshot of second 5. *)
Definition singletonStore : MetricsStore :=
  mkStore [snapshotAt 5 50] (60 * 24).

(** Thirteen snapshots of which the seventh was taken against a clock
    set back; the [u] bytes used number them in ingestion order. *)
Definition steppedBackSnapshots : list DiskMetrics :=
  [snapshotAt 5 0; snapshotAt 5 1; snapshotAt 5 2; snapshotAt 5 3;
   snapshotAt 5 4; snapshotAt 5 5; snapshotAt 1 6; snapshotAt 5 7;
   snapshotAt 5 8; snapshotAt 5 9; snapshotAt 5 10; snapshotAt 5 11;
   snapshotAt 5 12].

(** The store of the scenario of the specification: capacity 3, appends
    at seconds 1 to 4. *)
Definition scenarioStore : MetricsStore :=
  fold_left add
    [snapshotAt 1 10; snapshotAt 2 20; snapshotAt 3 30; snapshotAt 4 40]
    (mkStore [] 3).

(** The series of used bytes that the scenario expects:
    [[20,2000],[30,3000],[40,4000]]. *)
Definition scenarioUsed : TimeserieResponse :=
  mkTimeserie "/ - Used"
    [(float64_of_Z 20, float64_of_Z 2000); (float64_of_Z 30, float64_of_Z 3000);
     (float64_of_Z 40, float64_of_Z 4000)].

(** The points ingested for the used bytes of ["/"] from the thirteen
    snapshots. *)
Definition steppedBackPoints : list datapoint :=
  default [] (project steppedBackSnapshots "/" !! "/ - Used"%string).

(** ** Vocabulary of the specification *)

(** Not-a-number, on which no comparison holds. *)
Definition isNaN (f : float64) : bool :=
  match f with S754_nan => true | _ => false end.

(** A point whose timestamp is a number. *)
Definition timed (pt : datapoint) : Prop := isNaN (snd pt) = false.

(** Two points in ascending order of timestamp. *)
Definition byTimestamp (pt1 pt2 : datapoint) : Prop :=
  float64_le (snd pt1) (snd pt2) = true.


(** [capturedAt] lies in the closed interval [[fromTime, toTime]]. *)
Definition within (fromTime toTime : GoTime.Time) (m : DiskMetrics) : bool :=
  negb (GoTime.After fromTime (capturedAt m))
  && negb (GoTime.After (capturedAt m) toTime).

(** Two snapshots in chronological order. *)
Definition ascending (m1 m2 : DiskMetrics) : Prop :=
  GoTime.le (capturedAt m1) (capturedAt m2).

(** A decimal digit, and the number a run of digits writes. *)
Definition isDigit (c : Z) : bool := (0x30 <=? c) && (c <=? 0x39).

Definition valueFrom (p : list Z) (n : Z) : Z :=
  fold_left (fun n c => n * 10 + (c - 0x30)) p n.

Definition decimalValue (p : list Z) : Z := valueFrom p 0.

(** One or more decimal digits. *)
Definition isDigits (s : string) : bool :=
  match bytes_of s with
  | [] => false
  | p => forallb isDigit p
  end.

(** An optional sign followed by one or more decimal digits, and the
    integer it writes. *)
Definition signedDecimal (s : string) : option Z :=
  match bytes_of s with
  | [] => None
  | c :: p' =>
      let digits := if (c =? 0x2B) || (c =? 0x2D) then p' else c :: p' in
      match digits with
      | [] => None
      | _ =>
          if forallb isDigit digits
          then Some (if c =? 0x2D then - decimalValue digits else decimalValue digits)
          else None
      end
  end.

(** The length in nanoseconds of the unit a letter names. *)
Definition unitNanos (unit : ascii) : option Z :=
  if (Ascii.eqb unit "m" || Ascii.eqb unit "M")%char then Some GoTime.Minute
  else if (Ascii.eqb unit "h" || Ascii.eqb unit "H")%char then Some GoTime.Hour
  else if (Ascii.eqb unit "d" || Ascii.eqb unit "D")%char then Some (24 * GoTime.Hour)
  else None.

(** The nanoseconds from the Unix epoch to an instant, as an unbounded
    integer. *)
Definition unixNanos (t : GoTime.Time) : Z :=
  (GoTime.sec t + GoTime.internalToUnix) * 1000000000 + GoTime.nsec t.

(** A well-formed instant: its nanosecond offset is below one second. *)
Definition wfTime (t : GoTime.Time) : Prop := 0 <= GoTime.nsec t < 1000000000.

(** The address of the range-query endpoint with its parameters. *)
Definition rangeQueryURL (path : string) (fromMs toMs : Z) : string :=
  ("/grafana?path=" +:+ path +:+ "&from=" +:+ GoStrconv.FormatInt fromMs
   +:+ "&to=" +:+ GoStrconv.FormatInt toMs)%string.

(** A relative-time request for the last hour. *)
Definition lastHourQuery : gmap string (list string) :=
  {[ "time"%string := ["1h"%string] ]}.

(** A host with the single partition ["/"], half full, at Unix second
    [t]. *)
Definition hostAt (t : Z) : Host :=
  mkHost (inr [mkPartitionStat "/"])
         (fun _ => inr (mkUsage 100 50 50 (float64_of_Z 50)))
         (GoTime.Unix t 0).

(** The state of the process at start. *)
Definition initialMonitor : Monitor := mkMonitor store ∅ ∅.

(** The names of the three series of a partition. *)
Definition usedKey (path : string) : string := (path +:+ " - Used")%string.
Definition freeKey (path : string) : string := (path +:+ " - Free")%string.
Definition percentKey (path : string) : string := (path +:+ " - Usage %")%string.

(** The timestamp the handler gives the points of a snapshot. *)
Definition timestampOf (m : DiskMetrics) : float64 :=
  float64_of_Z (mul64 (Timestamp m) 1000).

(** The readings of the partitions whose path is exactly [path], each
    with the timestamp of its snapshot, in ingestion order. *)
Definition readingsOf (path : string) (metrics : list DiskMetrics)
  : list (float64 * PartitionMetrics) :=
  flat_map
    (fun m => map (fun p => (timestampOf m, p))
                  (List.filter (fun p => String.eqb (Path p) path) (Partitions m)))
    metrics.

Definition usedPoint (r : float64 * PartitionMetrics) : datapoint :=
  (float64_of_Z (Used (snd r)), fst r).
Definition freePoint (r : float64 * PartitionMetrics) : datapoint :=
  (float64_of_Z (Free (snd r)), fst r).
Definition percentPoint (r : float64 * PartitionMetrics) : datapoint :=
  (UsagePercent (snd r), fst r).

(** The three series of one partition path, or no series at all when
    there is no reading. *)
Definition seriesFor (path : string) (readings : list (float64 * PartitionMetrics))
  : gmap string (list datapoint) :=
  match readings with
  | [] => ∅
  | _ =>
      <[percentKey path := map percentPoint readings]>
        (<[freeKey path := map freePoint readings]>
           (<[usedKey path := map usedPoint readings]> ∅))
  end.

(** Snapshots with the partitions ["/"] and ["/data"]. *)
Definition twoPartitions (t : Z) : DiskMetrics :=
  mkMetrics t [mkPartition "/" 100 10 90 (float64_of_Z 10);
               mkPartition "/data" 200 40 160 (float64_of_Z 20)].

(** ** More vocabulary *)

(** A snapshot taken exactly at one of the two ends of an interval. *)
Definition atEndpoint (fromTime toTime : GoTime.Time) (m : DiskMetrics) : bool :=
  GoTime.Equal (capturedAt m) fromTime || GoTime.Equal (capturedAt m) toTime.

(** A string that writes an integer of the [int64] range: an optional
    sign, then one or more decimal digits. *)
Definition writesInt64 (str : string) : Prop :=
  exists v, signedDecimal str = Some v /\ in_int64 v.

(** A Unix second that [time.Unix] holds without wrap-around. *)
Definition representable (t : Z) : Prop := in_int64 (t + GoTime.unixToInternal).

(** A snapshot whose timestamp lies between two Unix seconds, both
    included. *)
Definition betweenSeconds (a b : Z) (m : DiskMetrics) : bool :=
  (a <=? Timestamp m) && (Timestamp m <=? b).

(** A partition path that the filter lets through: every path when the
    filter is empty. *)
Definition selected (pathFilter path : string) : bool :=
  String.eqb pathFilter "" || String.eqb path pathFilter.

(** The readings that the filter lets through, each with the timestamp
    of its snapshot, in ingestion order. *)
Definition ingested (pathFilter : string) (metrics : list DiskMetrics)
  : list (float64 * PartitionMetrics) :=
  flat_map
    (fun m => map (fun p => (timestampOf m, p))
                  (List.filter (fun p => selected pathFilter (Path p)) (Partitions m)))
    metrics.

(** The readings of one path among a list of readings. *)
Definition readingsAt (path : string) (readings : list (float64 * PartitionMetrics))
  : list (float64 * PartitionMetrics) :=
  List.filter (fun r => String.eqb (Path (snd r)) path) readings.

(** The series that readings give: no series when there is no
    reading. *)
Definition seriesOf (point : float64 * PartitionMetrics -> datapoint)
  (readings : list (float64 * PartitionMetrics)) : option (list datapoint) :=
  match readings with
  | [] => None
  | _ => Some (map point readings)
  end.

(** The map holds, for every path, the three series of its readings,
    and nothing else. *)
Definition tracks (pathMetrics : gmap string (list datapoint))
  (readings : list (float64 * PartitionMetrics)) : Prop :=
  (forall path,
     pathMetrics !! usedKey path = seriesOf usedPoint (readingsAt path readings)
     /\ pathMetrics !! freeKey path = seriesOf freePoint (readingsAt path readings)
     /\ pathMetrics !! percentKey path
        = seriesOf percentPoint (readingsAt path readings))
  /\ (forall key, is_Some (pathMetrics !! key) ->
        exists path, readingsAt path readings <> []
                     /\ (key = usedKey path \/ key = freeKey path
                         \/ key = percentKey path)).

(** A run of ASCII white space: tab, line feed, vertical tab, form feed,
    carriage return, space. *)
Definition isAsciiSpaces (s : string) : bool :=
  forallb GoStrings.asciiSpace (bytes_of s).

(** A byte of ASCII that is not white space. *)
Definition visible (c : Z) : bool :=
  (c <? GoUtf8.RuneSelf) && negb (GoStrings.asciiSpace c).

(** A string that starts with a visible byte and ends with one. *)
Definition visibleEnds (s : string) : bool :=
  match head (bytes_of s), last (bytes_of s) with
  | Some c, Some d => visible c && visible d
  | _, _ => false
  end.

(** The parameters that the address [rangeQueryURL path fromMs toMs]
    carries, as [url.Values], for a path without a byte that a query
    string reserves. *)
Definition rangeQuery (path : string) (fromMs toMs : Z)
  : gmap string (list string) :=
  {[ "path"%string := [path];
     "from"%string := [GoStrconv.FormatInt fromMs];
     "to"%string := [GoStrconv.FormatInt toMs] ]}.

(** What one partition adds to a snapshot: its reading, or nothing when
    its usage cannot be read. *)
Definition reading (h : Host) (partition : PartitionStat) : list PartitionMetrics :=
  match disk_Usage h (Mountpoint partition) with
  | inl _ => []
  | inr usage =>
      [mkPartition (Mountpoint partition) (usTotal usage) (usUsed usage)
         (usFree usage) (usUsedPercent usage)]
  end.

(** The snapshots that the hosts give, one for each host whose
    partitions can be listed. *)
Definition snapshotsOf (hosts : list Host) : list DiskMetrics :=
  flat_map
    (fun h => match disk_Partitions h with
              | inl _ => []
              | inr partitions =>
                  [mkMetrics (GoTime.unixSec (time_Now h))
                     (flat_map (reading h) partitions)]
              end)
    hosts.

(** The last reading of a mount point in a snapshot. *)
Definition lastReading (mountpoint : string) (parts : list PartitionMetrics)
  : option PartitionMetrics :=
  last (List.filter (fun p => String.eqb (Path p) mountpoint) parts).

(** Successive runs of [collectMetrics], whether the loop of [main] or
    [metricsHandler] starts them, one at a time, each on the host as it
    is at that moment. *)
Definition collections (hosts : list Host) (st : Monitor) : Monitor :=
  fold_left (fun st h => snd (collectMetrics h st)) hosts st.

(** The gauges show, for each mount point read in [parts], its last
    reading there, and are those of [du0] and [dup0] elsewhere. *)
Definition gaugesShow (du0 : gmap (string * string) float64) (dup0 : gmap string float64)
  (parts : list PartitionMetrics)
  (du : gmap (string * string) float64) (dup : gmap string float64) : Prop :=
  forall mountpoint,
    match lastReading mountpoint parts with
    | Some p =>
        dup !! mountpoint = Some (UsagePercent p)
        /\ du !! (mountpoint, "total"%string) = Some (float64_of_Z (Total p))
        /\ du !! (mountpoint, "used"%string) = Some (float64_of_Z (Used p))
        /\ du !! (mountpoint, "free"%string) = Some (float64_of_Z (Free p))
        /\ (forall kind, kind <> "total"%string -> kind <> "used"%string ->
              kind <> "free"%string ->
              du !! (mountpoint, kind) = du0 !! (mountpoint, kind))
    | None =>
        dup !! mountpoint = dup0 !! mountpoint
        /\ (forall kind, du !! (mountpoint, kind) = du0 !! (mountpoint, kind))
    end.

(** A range query for the second 7, on every path. *)
Definition secondSevenQuery : gmap string (list string) :=
  {[ "from"%string := ["7000"%string]; "to"%string := ["7999"%string] ]}.

(** The reading of the partition ["/"] on the host [hostAt]. *)
Definition halfFull : PartitionMetrics :=
  mkPartition "/" 100 50 50 (float64_of_Z 50).
(** * The dashboard reporter

    The first program of [src/reporting/main.go]: it waits for the
    scheduled time of day, fetches a picture of each dashboard and mails
    them.  First the parts of the Go standard library it calls beyond
    those above. *)

(** ** [time]: calendar dates, zones, differences and [Parse]

    The date computations of package [time] as they stand up to Go
    1.23 ([absDate], [daysSinceEpoch], [Date], [norm]); [uint64] and
    [int] arithmetic is written with its wrap-around. *)

Module GoDate.

Definition uint64 (z : Z) : Z := z mod 2 ^ 64.

Definition secondsPerMinute : Z := 60.
Definition secondsPerHour : Z := 60 * secondsPerMinute.
Definition secondsPerDay : Z := 24 * secondsPerHour.
Definition daysPer400Years : Z := 365 * 400 + 97.
Definition daysPer100Years : Z := 365 * 100 + 24.
Definition daysPer4Years : Z := 365 * 4 + 1.

(** The year of the absolute epoch, and the offsets between the
    absolute, the internal (year 1) and the Unix epoch;
    [365.2425 * secondsPerDay] is 31556952. *)
Definition absoluteZeroYear : Z := -292277022399.
Definition internalYear : Z := 1.
Definition absoluteToInternal : Z := (absoluteZeroYear - internalYear) * 31556952.
Definition internalToAbsolute : Z := - absoluteToInternal.

Definition minDuration : Z := - 2 ^ 63.
Definition maxDuration : Z := 2 ^ 63 - 1.

(** A [*Location] as the date functions use it: [lookup] gives, for a
    Unix second, the offset of the zone in effect in seconds east of
    UTC, and the Unix seconds [start] and [end] between which that zone
    is in effect. *)
Record Location : Type := mkLocation { lookup : Z -> Z * Z * Z }.

Definition alpha : Z := - 2 ^ 63.
Definition omega : Z := 2 ^ 63 - 1.

Definition UTC : Location := mkLocation (fun _ => (0, alpha, omega)).

(** [t.abs()], for a [t] whose location is [l]: seconds since the
    absolute epoch, on the clock of [l]. *)
Definition abs (t : GoTime.Time) (l : Location) : Z :=
  let sec := GoTime.unixSec t in
  let '(offset, _, _) := lookup l sec in
  let sec := wrap64 (sec + offset) in
  uint64 (wrap64 (sec + (GoTime.unixToInternal + internalToAbsolute))).

(** The table [daysBefore]: days of a non-leap year before the month of
    index [m], for [m] from 0 to 12. *)
Definition daysBeforeTable : list Z :=
  [0; 31; 59; 90; 120; 151; 181; 212; 243; 273; 304; 334; 365].

Definition daysBefore (m : Z) : Z := default 0 (daysBeforeTable !! Z.to_nat m).

(** [isLeap]; [%] is the remainder of the truncated division. *)
Definition isLeap (year : Z) : bool :=
  (Z.rem year 4 =? 0) && (negb (Z.rem year 100 =? 0) || (Z.rem year 400 =? 0)).

(** [absDate(abs, full)]: year, month, day of the month, day of the
    year. *)
Definition absDate (abs : Z) (full : bool) : Z * Z * Z * Z :=
  let d := abs / secondsPerDay in
  let n := d / daysPer400Years in
  let y := 400 * n in
  let d := d - daysPer400Years * n in
  let n := d / daysPer100Years in
  let n := n - Z.shiftr n 2 in
  let y := y + 100 * n in
  let d := d - daysPer100Years * n in
  let n := d / daysPer4Years in
  let y := y + 4 * n in
  let d := d - daysPer4Years * n in
  let n := d / 365 in
  let n := n - Z.shiftr n 2 in
  let y := y + n in
  let d := d - 365 * n in
  let year := wrap64 (wrap64 y + absoluteZeroYear) in
  let yday := d in
  if negb full then (year, 0, 0, yday) else
  let day := yday in
  if isLeap year && (day =? 31 + 29 - 1) then (year, 2, 29, yday) else
  let day := if isLeap year && (31 + 29 - 1 <? day) then day - 1 else day in
  let month := Z.quot day 31 in
  let end_ := daysBefore (month + 1) in
  let '(month, begin) :=
    if end_ <=? day then (month + 1, end_) else (month, daysBefore month) in
  let month := month + 1 in
  let day := day - begin + 1 in
  (year, month, day, yday).

(** [t.Year()], [t.Month()], [t.Day()], [t.Hour()], [t.Minute()]. *)
Definition Year (t : GoTime.Time) (l : Location) : Z :=
  let '(year, _, _, _) := absDate (abs t l) false in year.

Definition Month (t : GoTime.Time) (l : Location) : Z :=
  let '(_, month, _, _) := absDate (abs t l) true in month.

Definition Day (t : GoTime.Time) (l : Location) : Z :=
  let '(_, _, day, _) := absDate (abs t l) true in day.

Definition Hour (t : GoTime.Time) (l : Location) : Z :=
  Z.quot (abs t l mod secondsPerDay) secondsPerHour.

Definition Minute (t : GoTime.Time) (l : Location) : Z :=
  Z.quot (abs t l mod secondsPerHour) secondsPerMinute.

(** [norm(hi, lo, base)]: bring [lo] into [[0, base)], carrying into
    [hi]. *)
Definition norm (hi lo base : Z) : Z * Z :=
  let '(hi, lo) :=
    if lo <? 0 then
      let n := wrap64 (Z.quot (wrap64 (wrap64 (- lo) - 1)) base + 1) in
      (wrap64 (hi - n), wrap64 (lo + wrap64 (n * base)))
    else (hi, lo) in
  if base <=? lo then
    let n := Z.quot lo base in
    (wrap64 (hi + n), wrap64 (lo - wrap64 (n * base)))
  else (hi, lo).

(** [daysSinceEpoch(year)]. *)
Definition daysSinceEpoch (year : Z) : Z :=
  let y := uint64 (wrap64 (year - absoluteZeroYear)) in
  let n := y / 400 in
  let y := y - 400 * n in
  let d := uint64 (daysPer400Years * n) in
  let n := y / 100 in
  let y := y - 100 * n in
  let d := uint64 (d + daysPer100Years * n) in
  let n := y / 4 in
  let y := y - 4 * n in
  let d := uint64 (d + daysPer4Years * n) in
  let n := y in
  uint64 (d + 365 * n).

(** [time.Date]. *)
Definition Date (year month day hour min sec nsec : Z) (loc : Location)
  : GoTime.Time :=
  let m := wrap64 (month - 1) in
  let '(year, m) := norm year m 12 in
  let month := m + 1 in
  let '(sec, nsec) := norm sec nsec 1000000000 in
  let '(min, sec) := norm min sec 60 in
  let '(hour, min) := norm hour min 60 in
  let '(day, hour) := norm day hour 24 in
  let d := daysSinceEpoch year in
  let d := uint64 (d + daysBefore (month - 1)) in
  let d := if isLeap year && (3 <=? month) then uint64 (d + 1) else d in
  let d := uint64 (d + uint64 (wrap64 (day - 1))) in
  let abs := uint64 (d * secondsPerDay) in
  let abs :=
    uint64 (abs + uint64 (wrap64 (wrap64 (wrap64 (hour * secondsPerHour)
                                           + wrap64 (min * secondsPerMinute))
                                  + sec))) in
  let unix := wrap64 (wrap64 abs + (absoluteToInternal + GoTime.internalToUnix)) in
  let '(offset, start, end_) := lookup loc unix in
  let unix :=
    if negb (offset =? 0) then
      let utc := wrap64 (unix - offset) in
      let offset :=
        if (utc <? start) || (end_ <=? utc)
        then (let '(offset, _, _) := lookup loc utc in offset)
        else offset in
      wrap64 (unix - offset)
    else unix in
  GoTime.mkTime (wrap64 (unix + GoTime.unixToInternal)) nsec.

(** [t.Sub(u)] for two instants of which one carries no monotonic
    reading. *)
Definition Sub (t u : GoTime.Time) : Z :=
  let d := wrap64 (wrap64 (wrap64 (GoTime.sec t - GoTime.sec u) * GoTime.Second)
                   + (GoTime.nsec t - GoTime.nsec u)) in
  if GoTime.Equal (GoTime.Add u d) t then d
  else if GoTime.Before t u then minDuration
  else maxDuration.

(** [isDigit(s, i)] and [getnum(s, fixed)] of [format.go]: one or two
    leading digits, two when [fixed]. *)
Definition isDigit (s : list Z) (i : nat) : bool :=
  match s !! i with
  | Some c => (0x30 <=? c) && (c <=? 0x39)
  | None => false
  end.

Definition getnum (s : list Z) (fixed : bool) : option (Z * list Z) :=
  if negb (isDigit s 0) then None
  else if negb (isDigit s 1) then
    if fixed then None
    else Some (default 0 (s !! 0%nat) - 0x30, drop 1 s)
  else Some ((default 0 (s !! 0%nat) - 0x30) * 10
             + (default 0 (s !! 1%nat) - 0x30), drop 2 s).

(** [time.Parse("15:04", value)].  The layout has the chunks [15] (hour,
    one or two digits), [:] and [04] (minute, two digits); text after
    the minute is an error; year, month and day default to 0, 1 and 1,
    and the zone to UTC.  [None] stands for the error. *)
Definition Parse_15_04 (value : string) : option GoTime.Time :=
  match getnum (bytes_of value) false with
  | None => None
  | Some (hour, value) =>
      if (hour <? 0) || (24 <=? hour) then None else
      match value with
      | [] => None
      | c :: value =>
          if negb (c =? 0x3A) then None else
          match getnum value true with
          | None => None
          | Some (min, value) =>
              if (min <? 0) || (60 <=? min) then None else
              match value with
              | [] => Some (Date 0 1 1 hour min 0 0 UTC)
              | _ => None
              end
          end
      end
  end.

End GoDate.

(** ** The schedule *)

(** [scheduleNextRun], with the clock reading [now] and its location
    ([time.Local]) made explicit.  [None] is [log.Fatal]: the process
    exits. *)
Definition scheduleNextRun (now : GoTime.Time) (local : GoDate.Location)
  (scheduleTime : string) : option Z :=
  match GoDate.Parse_15_04 scheduleTime with
  | None => None
  | Some scheduledTime =>
      let targetTime :=
        GoDate.Date (GoDate.Year now local) (GoDate.Month now local)
          (GoDate.Day now local)
          (GoDate.Hour scheduledTime GoDate.UTC)
          (GoDate.Minute scheduledTime GoDate.UTC) 0 0 local in
      let targetTime :=
        if GoTime.After now targetTime
        then GoTime.Add targetTime (24 * GoTime.Hour)
        else targetTime in
      Some (GoDate.Sub targetTime now)
  end.
(** ** Vocabulary for the reporter *)

(** A time of day written [H:MM] or [HH:MM], with the hour below 24 and
    the minute below 60: its hour and its minute. *)
Definition clockOf (s : string) : option (Z * Z) :=
  let digit (c : Z) := (0x30 <=? c) && (c <=? 0x39) in
  let clock (h m : Z) := if (h <? 24) && (m <? 60) then Some (h, m) else None in
  match bytes_of s with
  | [a; colon; c; d] =>
      if digit a && (colon =? 0x3A) && digit c && digit d
      then clock (a - 0x30) ((c - 0x30) * 10 + (d - 0x30))
      else None
  | [a; b; colon; c; d] =>
      if digit a && digit b && (colon =? 0x3A) && digit c && digit d
      then clock ((a - 0x30) * 10 + (b - 0x30)) ((c - 0x30) * 10 + (d - 0x30))
      else None
  | _ => None
  end.

(** A location that has one zone only, [offset] seconds east of UTC. *)
Definition fixedZone (l : GoDate.Location) (offset : Z) : Prop :=
  forall s, fst (fst (GoDate.lookup l s)) = offset.

(** The nanoseconds since midnight on the clock of a zone [offset]
    seconds east of UTC. *)
Definition nanosOfDay (t : GoTime.Time) (offset : Z) : Z :=
  (unixNanos t + offset * GoTime.Second) mod (24 * GoTime.Hour).

(** The month and the day of the month of the day [yday] of a year,
    counted from 0, as [absDate] finds them. *)
Definition monthDay (leap : bool) (yday : Z) : Z * Z :=
  let day := yday in
  if leap && (day =? 31 + 29 - 1) then (2, 29) else
  let day := if leap && (31 + 29 - 1 <? day) then day - 1 else day in
  let month := Z.quot day 31 in
  let end_ := GoDate.daysBefore (month + 1) in
  let '(month, begin) :=
    if end_ <=? day then (month + 1, end_) else (month, GoDate.daysBefore month) in
  (month + 1, day - begin + 1).

(** The days of a year before the day [day] of the month [month]. *)
Definition daysBeforeDate (leap : bool) (month day : Z) : Z :=
  GoDate.daysBefore (month - 1) + (if leap && (3 <=? month) then 1 else 0)
  + (day - 1).

(** [monthDay] gives a month and a day that lead back to [yday]. *)
Definition monthDayOk (leap : bool) (yday : Z) : bool :=
  let '(month, day) := monthDay leap yday in
  (1 <=? month) && (month <=? 12) && (1 <=? day) && (day <=? 31)
  && (daysBeforeDate leap month day =? yday).

(** A location with the single zone two hours east of UTC. *)
Definition twoHoursEast : GoDate.Location :=
  GoDate.mkLocation (fun _ => (7200, GoDate.alpha, GoDate.omega)).
(** ** [net/url]: query strings *)

Module GoURL.

Definition isAlnum (c : Z) : bool :=
  ((0x61 <=? c) && (c <=? 0x7A)) || ((0x41 <=? c) && (c <=? 0x5A))
  || ((0x30 <=? c) && (c <=? 0x39)).

(** [shouldEscape(c, encodeQueryComponent)]: everything is escaped but
    letters, digits and the marks [-], [_], [.] and [~]. *)
Definition shouldEscape (c : Z) : bool :=
  if isAlnum c then false
  else if (c =? 0x2D) || (c =? 0x5F) || (c =? 0x2E) || (c =? 0x7E) then false
  else true.

(** The digit of index [n] in ["0123456789ABCDEF"]. *)
Definition upperhex (n : Z) : Z := if n <? 10 then 0x30 + n else 0x41 + (n - 10).

(** [escape(s, encodeQueryComponent)]: a space becomes [+], a byte to
    escape becomes [%] and two hexadecimal digits. *)
Fixpoint escape (s : list Z) : list Z :=
  match s with
  | [] => []
  | c :: s' =>
      if c =? 0x20 then 0x2B :: escape s'
      else if shouldEscape c
           then 0x25 :: upperhex (Z.shiftr c 4) :: upperhex (Z.land c 15) :: escape s'
           else c :: escape s'
  end.

Definition QueryEscape (s : string) : string :=
  GoStrings.string_of_bytes (escape (bytes_of s)).

Definition ishex (c : Z) : bool :=
  ((0x30 <=? c) && (c <=? 0x39)) || ((0x61 <=? c) && (c <=? 0x66))
  || ((0x41 <=? c) && (c <=? 0x46)).

Definition unhex (c : Z) : Z :=
  if (0x30 <=? c) && (c <=? 0x39) then c - 0x30
  else if (0x61 <=? c) && (c <=? 0x66) then c - 0x61 + 10
  else if (0x41 <=? c) && (c <=? 0x46) then c - 0x41 + 10
  else 0.

(** [unescape(s, encodeQueryComponent)]; [None] is the [EscapeError] of
    a [%] that two hexadecimal digits do not follow. *)
Fixpoint unescape (s : list Z) : option (list Z) :=
  match s with
  | [] => Some []
  | c :: s' =>
      if c =? 0x25 then
        match s' with
        | a :: b :: s'' =>
            if ishex a && ishex b
            then option_map (cons (Z.lor (Z.shiftl (unhex a) 4) (unhex b)))
                   (unescape s'')
            else None
        | _ => None
        end
      else if c =? 0x2B then option_map (cons 0x20) (unescape s')
      else option_map (cons c) (unescape s')
  end.

(** [url.Values] and its [Add]. *)
Definition Values : Type := gmap string (list string).

Definition Add (v : Values) (key value : string) : Values :=
  <[key := default [] (v !! key) ++ [value]]> v.

(** [strings.Cut(s, sep)] for a separator of one byte: what comes
    before its first occurrence and what comes after. *)
Fixpoint cut (sep : Z) (s : list Z) : list Z * list Z :=
  match s with
  | [] => ([], [])
  | c :: s' =>
      if c =? sep then ([], s')
      else let '(before, after) := cut sep s' in (c :: before, after)
  end.

(** The loop of [parseQuery]: a piece with a semicolon, an empty piece
    and a piece with a bad escape are skipped.  The error it also
    returns is dropped by [URL.Query]. *)
Fixpoint parseQuery (fuel : nat) (m : Values) (query : list Z) : Values :=
  match fuel with
  | O => m
  | S fuel =>
      match query with
      | [] => m
      | _ =>
          let '(key, query) := cut 0x26 query in
          if existsb (Z.eqb 0x3B) key then parseQuery fuel m query else
          match key with
          | [] => parseQuery fuel m query
          | _ =>
              let '(key, value) := cut 0x3D key in
              match unescape key, unescape value with
              | Some key, Some value =>
                  parseQuery fuel
                    (Add m (GoStrings.string_of_bytes key)
                       (GoStrings.string_of_bytes value))
                    query
              | _, _ => parseQuery fuel m query
              end
          end
      end
  end.

(** [u.Query()] on the raw query of an address. *)
Definition Query (rawQuery : string) : Values :=
  parseQuery (S (String.length rawQuery)) ∅ (bytes_of rawQuery).

(** The keys in ascending order, as [slices.Sort] leaves them. *)
Fixpoint insertKey (k : string) (l : list string) : list string :=
  match l with
  | [] => [k]
  | k' :: l' => if String.leb k k' then k :: l else k' :: insertKey k l'
  end.

Definition sortedKeys (v : Values) : list string :=
  fold_right insertKey [] (map fst (map_to_list v)).

(** [v.Encode()]: [key=value] for every value of every key, keys in
    ascending order, joined by [&]. *)
Definition encodeKey (v : Values) (buf : list Z) (k : string) : list Z :=
  let keyEscaped := escape (bytes_of k) in
  fold_left
    (fun buf value =>
       (match buf with [] => buf | _ => buf ++ [0x26] end)
       ++ keyEscaped ++ [0x3D] ++ escape (bytes_of value))
    (default [] (v !! k)) buf.

Definition Encode (v : Values) : string :=
  GoStrings.string_of_bytes (fold_left (encodeKey v) (sortedKeys v) []).

(** The fields of a [url.URL]. *)
Record URL : Type := mkURL {
  Scheme : string;
  Opaque : string;
  User : option (string * option string);
  Host : string;
  Path : string;
  RawPath : string;
  OmitHost : bool;
  ForceQuery : bool;
  RawQuery : string;
  Fragment : string;
  RawFragment : string
}.

Definition setRawQuery (u : URL) (q : string) : URL :=
  mkURL (Scheme u) (Opaque u) (User u) (Host u) (Path u) (RawPath u)
    (OmitHost u) (ForceQuery u) q (Fragment u) (RawFragment u).

End GoURL.

(** ** [net/http]: requests and responses *)

Module GoHTTP.

Record Request : Type := mkRequest {
  Method : string;
  URL : GoURL.URL;
  Header : gmap string (list string);
  Host : string
}.

(** A response: its status code and its body, a reader of type [B]. *)
Record Response (B : Type) : Type := mkResponse {
  StatusCode : Z;
  Body : B
}.

Arguments mkResponse {B} StatusCode Body.
Arguments StatusCode {B} r.
Arguments Body {B} r.

Definition StatusOK : Z := 200.

(** [h.Add(key, value)] for a key already in canonical form. *)
Definition HeaderAdd (h : gmap string (list string)) (key value : string)
  : gmap string (list string) :=
  <[key := default [] (h !! key) ++ [value]]> h.

End GoHTTP.

(** ** [time]: the layout [2006-01-02] *)

Module GoFormat.

(** [appendInt(b, x, width)]: a sign when [x] is negative, then the
    decimal digits of its magnitude behind zeros up to [width]. *)
Definition appendInt (x width : Z) : list Z :=
  let u := Z.abs x in
  let digits := bytes_of (GoStrconv.FormatInt u) in
  (if x <? 0 then [0x2D] else [])
  ++ repeat 0x30 (Z.to_nat width - length digits) ++ digits.

(** [t.Format("2006-01-02")] for a [t] whose location is [l]. *)
Definition Format_2006_01_02 (t : GoTime.Time) (l : GoDate.Location) : string :=
  let '(year, month, day, _) := GoDate.absDate (GoDate.abs t l) true in
  GoStrings.string_of_bytes
    (appendInt year 4 ++ [0x2D] ++ appendInt month 2 ++ [0x2D] ++ appendInt day 2).

End GoFormat.

(** ** The reporter *)

Record Config : Type := mkConfig {
  GrafanaURL : string;
  GrafanaAPIKey : string;
  DashboardUIDs : list string;
  EmailFrom : string;
  EmailTo : list string;
  SMTPHost : string;
  SMTPPort : Z;
  SMTPUser : string;
  SMTPPassword : string;
  ScheduleTime : string;
  TimeRange : string
}.

(** A [gomail] message as [sendEmail] fills it: headers, body with its
    content type, and attachments by name. *)
Record Message : Type := mkMessage {
  msgHeader : gmap string (list string);
  msgContentType : string;
  msgBody : string;
  msgAttachments : list (string * list Z)
}.

(** [gomail.NewDialer]: SSL is on for port 465. *)
Record Dialer : Type := mkDialer {
  dialHost : string;
  dialPort : Z;
  dialUsername : string;
  dialPassword : string;
  dialSSL : bool
}.

Definition NewDialer (host : string) (port : Z) (username password : string)
  : Dialer :=
  mkDialer host port username password (port =? 465).

(** What lies outside the program, for a state of the world [W] and
    response bodies [B]: building a request from an address
    ([http.NewRequest], an error being its message), the exchange with
    the server, reading and closing a body, the mail server, the clock
    and the local time zone. *)
Record Outside (W B : Type) : Type := mkOutside {
  http_NewRequest : string -> string -> string + GoHTTP.Request;
  client_Do : GoHTTP.Request -> W -> (string + GoHTTP.Response B) * W;
  io_ReadAll : B -> W -> (list Z * option string) * W;
  body_Close : B -> W -> W;
  gomail_DialAndSend : Dialer -> Message -> W -> option string * W;
  clock_Now : W -> GoTime.Time;
  clock_Local : GoDate.Location
}.

Arguments http_NewRequest {W B} o _ _.
Arguments client_Do {W B} o _ _.
Arguments io_ReadAll {W B} o _ _.
Arguments body_Close {W B} o _ _.
Arguments gomail_DialAndSend {W B} o _ _ _.
Arguments clock_Now {W B} o _.
Arguments clock_Local {W B} o.

Section Reporter.
Context {W B : Type} (o : Outside W B).

(** The first half of [getGrafanaScreenshot]: the request it builds, or
    the error of [http.NewRequest]. *)
Definition screenshotRequest (config : Config) (dashboardUID : string)
  : string + GoHTTP.Request :=
  let url := (GrafanaURL config +:+ "/api/dashboards/uid/" +:+ dashboardUID
              +:+ "/png")%string in
  match http_NewRequest o "GET" url with
  | inl err => inl err
  | inr req =>
      let header :=
        GoHTTP.HeaderAdd (GoHTTP.Header req) "Authorization"
          ("Bearer " +:+ GrafanaAPIKey config) in
      let u :=
        if negb (String.eqb (TimeRange config) "") then
          let q := GoURL.Query (GoURL.RawQuery (GoHTTP.URL req)) in
          let q := GoURL.Add q "from" ("now-" +:+ TimeRange config) in
          let q := GoURL.Add q "to" "now" in
          GoURL.setRawQuery (GoHTTP.URL req) (GoURL.Encode q)
        else GoHTTP.URL req in
      inr (GoHTTP.mkRequest (GoHTTP.Method req) u header (GoHTTP.Host req))
  end.

(** [getGrafanaScreenshot]: the bytes and the error it returns, and the
    world afterwards.  The body is closed when the function returns. *)
Definition getGrafanaScreenshot (config : Config) (dashboardUID : string) (w : W)
  : (list Z * option string) * W :=
  match screenshotRequest config dashboardUID with
  | inl err => (([], Some err), w)
  | inr req =>
      match client_Do o req w with
      | (inl err, w) => (([], Some err), w)
      | (inr resp, w) =>
          if negb (GoHTTP.StatusCode resp =? GoHTTP.StatusOK) then
            (([], Some ("grafana API returned status: "
                        +:+ GoStrconv.FormatInt (GoHTTP.StatusCode resp))%string),
             body_Close o (GoHTTP.Body resp) w)
          else
            let '(result, w) := io_ReadAll o (GoHTTP.Body resp) w in
            (result, body_Close o (GoHTTP.Body resp) w)
      end
  end.

(** [sendEmail].  Go leaves the order in which [range] visits the map
    open; the attachments are listed here in the order of
    [map_to_list]. *)
Definition sendEmail (config : Config) (screenshots : gmap string (list Z)) (w : W)
  : option string * W :=
  let subject :=
    ("Grafana Dashboards Report - "
     +:+ GoFormat.Format_2006_01_02 (clock_Now o w) (clock_Local o))%string in
  let header : gmap string (list string) :=
    <["Subject"%string := [subject]]>
      (<["To"%string := EmailTo config]>
         (<["From"%string := [EmailFrom config]]> ∅)) in
  let body := "Please find attached the latest dashboard screenshots."%string in
  let attachments :=
    map (fun kv : string * list Z =>
           (("dashboard-" +:+ fst kv +:+ ".png")%string, snd kv))
        (map_to_list screenshots) in
  let m := mkMessage header "text/plain" body attachments in
  let d := NewDialer (SMTPHost config) (SMTPPort config) (SMTPUser config)
             (SMTPPassword config) in
  gomail_DialAndSend o d m w.

(** One turn of the loop of [processScreenshots]: the map of
    screenshots, the lines logged and the world. *)
Definition fetchScreenshot (config : Config)
  (acc : gmap string (list Z) * list string * W) (uid : string)
  : gmap string (list Z) * list string * W :=
  let '(screenshots, logged, w) := acc in
  match getGrafanaScreenshot config uid w with
  | ((_, Some err), w) =>
      (screenshots,
       logged ++ [("Error getting screenshot for dashboard " +:+ uid +:+ ": "
                   +:+ err)%string],
       w)
  | ((screenshot, None), w) => (<[uid := screenshot]> screenshots, logged, w)
  end.

(** [processScreenshots]: its error, the lines it logged, and the world
    afterwards. *)
Definition processScreenshots (config : Config) (w : W)
  : option string * list string * W :=
  let '(screenshots, logged, w) :=
    fold_left (fetchScreenshot config) (DashboardUIDs config) (∅, [], w) in
  if (size screenshots =? 0)%nat
  then (Some "no screenshots were captured successfully"%string, logged, w)
  else let '(err, w) := sendEmail config screenshots w in (err, logged, w).

End Reporter.
(** ** Vocabulary for the correctness of [sort.Slice] *)

Section SortSpec.
Context {A : Type} (less : A -> A -> bool).

(** [y] is not less than [x]: the two are in ascending order. *)
Definition notLess (x y : A) : Prop := less y x = false.

(** The elements at the indices [a <= i < j < b] are in order: the later
    one is never less than the earlier one. *)
Definition sortedRange (a b : nat) (l : list A) : Prop :=
  forall i j x y, (a <= i)%nat -> (i < j)%nat -> (j < b)%nat ->
    l !! i = Some x -> l !! j = Some y -> less y x = false.

(** Every element at an index of [[a, b)] satisfies [Q]. *)
Definition rangeAll (Q : A -> Prop) (a b : nat) (l : list A) : Prop :=
  forall k x, (a <= k < b)%nat -> l !! k = Some x -> Q x.

(** [l'] is obtained from [l] by exchanging elements at indices of
    [[a, b)], which are indices of the slice. *)
Inductive reach (a b : nat) : list A -> list A -> Prop :=
| reach_refl (l : list A) : reach a b l l
| reach_swap (l l' : list A) (i j : nat) :
    (a <= i < b)%nat -> (a <= j < b)%nat -> (b <= length l)%nat ->
    reach a b (GoSort.Swap l i j) l' -> reach a b l l'.

(** Neither element is less than the other. *)
Definition tied (x y : A) : bool := negb (less x y) && negb (less y x).

(** [l'] is obtained from [l] by exchanging neighbours of which the
    right one is less than the left one. *)
Inductive reachStable : list A -> list A -> Prop :=
| reachStable_refl (l : list A) : reachStable l l
| reachStable_swap (l l' : list A) (j : nat) :
    GoSort.Less less l (S j) j = true ->
    reachStable (GoSort.Swap l (S j) j) l' -> reachStable l l'.

(** The elements tied with [x] come in the same order in [l'] as in
    [l]. *)
Definition tiesKept (x : A) (l l' : list A) : Prop :=
  List.filter (tied x) l' = List.filter (tied x) l.

(** The heap order of [heapSort_func] on the offsets below [hi] from
    [first]: no child is greater than its parent, for the parents from
    [lo] on. *)
Definition heapAt (first hi : nat) (l : list A) (p : nat) : Prop :=
  forall c x y, (c = 2 * p + 1 \/ c = 2 * p + 2)%nat -> (c < hi)%nat ->
    l !! (first + p)%nat = Some x -> l !! (first + c)%nat = Some y ->
    less x y = false.

Definition heapFrom (lo first hi : nat) (l : list A) : Prop :=
  forall p, (lo <= p)%nat -> heapAt first hi l p.

(** The loop shared by [partition_func] and [partitionEqual_func]: scan
    up while [up] holds, scan down while [down] holds, exchange, and
    again, until the two indices cross. *)
Fixpoint crossLoop (up down : list A -> nat -> bool) (n : nat)
  (l : list A) (i j : nat) : list A * nat * nat :=
  match n with
  | O => (l, i, j)
  | S n' =>
      let i := GoSort.scan_up (up l) i (S j - i) in
      let j := GoSort.scan_down (down l) j (S j - i) in
      if (j <? i)%nat then (l, i, j)
      else crossLoop up down n' (GoSort.Swap l i j) (S i) (j - 1)
  end.

(** What holds between two rounds of that loop, for a pivot [p] kept at
    index [a] and a test [L] on elements: the elements after [a] and
    before [i] pass the test, those after [j] and before [b] fail it. *)
Definition crossInv (L : A -> bool) (a b : nat) (p : A)
  (l : list A) (i j : nat) : Prop :=
  (a < i)%nat /\ (i <= S j)%nat /\ (j < b)%nat /\ l !! a = Some p
  /\ rangeAll (fun x => L x = true) (S a) i l
  /\ rangeAll (fun x => L x = false) (S j) b l.

(** What [pdqsort_func] relies on when it is called on [[a, b)] with
    [a > 0]: no element of the range is less than the element just
    before it. *)
Definition lowerBound (a b : nat) (l : list A) : Prop :=
  forall q, (0 < a)%nat -> l !! (a - 1)%nat = Some q ->
    rangeAll (fun x => less x q = false) a b l.

End SortSpec.

(** ** More vocabulary for the reporter *)

Section ReporterVocabulary.
Context {W B : Type} (o : Outside W B).

(** The outcomes of fetching the dashboards one after the other, from
    the world [w] on: for each dashboard the bytes and the error of
    [getGrafanaScreenshot]; and the world afterwards. *)
Fixpoint fetches (config : Config) (uids : list string) (w : W)
  : list (string * (list Z * option string)) * W :=
  match uids with
  | [] => ([], w)
  | uid :: uids =>
      let '(outcome, w) := getGrafanaScreenshot o config uid w in
      let '(outcomes, w) := fetches config uids w in
      ((uid, outcome) :: outcomes, w)
  end.

End ReporterVocabulary.

(** A fetch that ended with an error. *)
Definition failed (outcome : string * (list Z * option string)) : bool :=
  match snd (snd outcome) with Some _ => true | None => false end.

(** The bytes of a fetch of the dashboard [uid] that succeeded. *)
Definition capture (uid : string) (outcome : string * (list Z * option string))
  : option (list Z) :=
  match outcome with
  | (u, (data, None)) => if String.eqb u uid then Some data else None
  | _ => None
  end.

(** The screenshot kept for a dashboard: the last fetch of it that
    succeeded. *)
Definition captured (outcomes : list (string * (list Z * option string)))
  (uid : string) : option (list Z) :=
  last (omap (capture uid) outcomes).

(** The line logged for a fetch that failed. *)
Definition errorLine (outcome : string * (list Z * option string)) : option string :=
  match outcome with
  | (uid, (_, Some err)) =>
      Some ("Error getting screenshot for dashboard " +:+ uid +:+ ": " +:+ err)%string
  | _ => None
  end.


(** A string of bytes that a query component keeps as they are:
    letters, digits, [-], [_], [.] and [~]. *)
Definition unreserved (s : string) : bool :=
  forallb (fun c => negb (GoURL.shouldEscape c)) (bytes_of s).

(** The address of the picture of a dashboard. *)
Definition screenshotURL (config : Config) (dashboardUID : string) : string :=
  (GrafanaURL config +:+ "/api/dashboards/uid/" +:+ dashboardUID +:+ "/png")%string.

(** A reporter whose two dashboards answer 500 and 200, with a world
    that counts the exchanges. *)
Definition twoDashboards : Outside nat unit :=
  mkOutside nat unit
    (fun method url =>
       inr (GoHTTP.mkRequest method
              (GoURL.mkURL "http" "" None "grafana" url "" false false "" "" "")
              ∅ "grafana"))
    (fun req w =>
       (inr (GoHTTP.mkResponse (if (w =? 0)%nat then 500 else 200) tt), S w))
    (fun _ w => (([0x89; 0x50; 0x4E; 0x47], None), w))
    (fun _ w => w)
    (fun _ _ w => (None, w))
    (fun _ => GoTime.Unix 1700000000 0)
    GoDate.UTC.

Definition twoDashboardsConfig : Config :=
  mkConfig "http://grafana" "key" ["a"%string; "b"%string] "from@example.org"
    ["to@example.org"%string] "smtp" 587 "user" "pass" "9:30" "12h".

(** ** The query string of the redirect *)

(** What follows the [?] in the address [rangeQueryURL path fromMs toMs]:
    the raw query that the server of the range-query endpoint parses. *)
Definition rangeRawQuery (path : string) (fromMs toMs : Z) : string :=
  ("path=" +:+ path +:+ "&from=" +:+ GoStrconv.FormatInt fromMs
   +:+ "&to=" +:+ GoStrconv.FormatInt toMs)%string.

(** A byte that a query string reads as it is, that ends no parameter
    and does not end the query: any byte but [&], [;], [%], [+] and
    [#]. *)
Definition plainByte (c : Z) : bool :=
  negb ((c =? 0x26) || (c =? 0x3B) || (c =? 0x25) || (c =? 0x2B) || (c =? 0x23)).

Definition plain (s : string) : bool := forallb plainByte (bytes_of s).
(** * Properties *)

(** ** Machine integers and instants *)

Lemma wrap64_range (z : Z) : int64_min <= wrap64 z <= int64_max.
Proof.
  unfold wrap64, int64_min, int64_max.
  pose proof (Z.mod_pos_bound (z + 2 ^ 63) (2 ^ 64) ltac:(lia)). lia.
Qed.

Lemma wrap64_id (z : Z) : in_int64 z -> wrap64 z = z.
Proof.
  unfold in_int64, int64_min, int64_max, wrap64. intros H.
  rewrite Z.mod_small by lia. lia.
Qed.

Lemma le_refl (t : GoTime.Time) : GoTime.le t t.
Proof. unfold GoTime.le. lia. Qed.

Lemma le_trans (t u v : GoTime.Time) :
  GoTime.le t u -> GoTime.le u v -> GoTime.le t v.
Proof. unfold GoTime.le. lia. Qed.

Lemma After_spec (t u : GoTime.Time) :
  GoTime.After t u = true <-> ~ GoTime.le t u.
Proof. unfold GoTime.After, GoTime.le. destruct t, u; simpl. lia. Qed.

Lemma Before_spec (t u : GoTime.Time) :
  GoTime.Before t u = true <-> ~ GoTime.le u t.
Proof. unfold GoTime.Before, GoTime.le. destruct t, u; simpl. lia. Qed.

Lemma Equal_spec (t u : GoTime.Time) :
  GoTime.Equal t u = true <-> t = u.
Proof.
  unfold GoTime.Equal. destruct t as [s n], u as [s' n']; simpl. split.
  - intros H. f_equal; lia.
  - intros [= -> ->]. lia.
Qed.

Lemma le_antisym (t u : GoTime.Time) : GoTime.le t u -> GoTime.le u t -> t = u.
Proof.
  unfold GoTime.le. destruct t as [s n], u as [s' n']; simpl.
  intros ? ?. f_equal; lia.
Qed.

Lemma le_total (t u : GoTime.Time) : GoTime.le t u \/ GoTime.le u t.
Proof. unfold GoTime.le. lia. Qed.

(** ** The series store *)

(** The test of [getRange] is membership in the closed interval, as soon
    as the interval is not inverted. *)
Lemma inRange_spec (fromTime toTime : GoTime.Time) (m : DiskMetrics) :
  GoTime.le fromTime toTime ->
  inRange fromTime toTime m = true <->
  GoTime.le fromTime (capturedAt m) /\ GoTime.le (capturedAt m) toTime.
Proof.
  intros Hft. unfold inRange. fold (capturedAt m).
  rewrite !orb_true_iff, andb_true_iff, After_spec, Before_spec, !Equal_spec.
  destruct (le_total fromTime (capturedAt m)) as [H1|H1];
    destruct (le_total (capturedAt m) toTime) as [H2|H2]; split.
  - tauto.
  - intros _.
    destruct (Z.eq_dec (GoTime.sec (capturedAt m)) (GoTime.sec fromTime)) as [e1|n1];
    destruct (Z.eq_dec (GoTime.nsec (capturedAt m)) (GoTime.nsec fromTime)) as [e2|n2];
    destruct (Z.eq_dec (GoTime.sec (capturedAt m)) (GoTime.sec toTime)) as [e3|n3];
    destruct (Z.eq_dec (GoTime.nsec (capturedAt m)) (GoTime.nsec toTime)) as [e4|n4];
    try (left; right; destruct (capturedAt m), fromTime; simpl in *; congruence);
    try (right; destruct (capturedAt m), toTime; simpl in *; congruence);
    left; left; unfold GoTime.le in *; lia.
  - intros [[[Ha Hb]| ->]| ->]; [tauto | split; [apply le_refl | assumption] | ].
    split; [assumption | apply le_refl].
  - intros [_ H3]. right. symmetry. apply le_antisym; assumption.
  - intros [[[Ha Hb]| ->]| ->]; [tauto | split; [apply le_refl | assumption] | ].
    split; [assumption | apply le_refl].
  - intros [H3 _]. left. right. apply le_antisym; assumption.
  - intros [[[Ha Hb]| ->]| ->]; [tauto | split; [apply le_refl | assumption] | ].
    split; [assumption | apply le_refl].
  - intros [H3 H4]. left. right. apply le_antisym; assumption.
Qed.

Lemma getRange_filter (s : MetricsStore) (fromTime toTime : GoTime.Time) :
  getRange s fromTime toTime = List.filter (inRange fromTime toTime) (data s).
Proof.
  unfold getRange.
  enough (forall l acc,
    fold_left (fun result m =>
                 if inRange fromTime toTime m then result ++ [m] else result) l acc
    = acc ++ List.filter (inRange fromTime toTime) l) as H by apply (H _ []).
  induction l as [|m l IH]; intros acc; simpl.
  - now rewrite app_nil_r.
  - rewrite IH. destruct (inRange fromTime toTime m); [|reflexivity].
    now rewrite <- app_assoc.
Qed.

Lemma add_data (s : MetricsStore) (m : DiskMetrics) :
  data (add s m) = data s ++ [m]
  \/ (maxSize s < Z.of_nat (length (data s ++ [m]))
      /\ exists oldest, oldest :: data (add s m) = data s ++ [m]).
Proof.
  unfold add. destruct (Z.ltb_spec (maxSize s) (Z.of_nat (length (data s ++ [m])))).
  - right. split; [assumption|]. simpl.
    destruct (data s ++ [m]) as [|x l] eqn:E.
    + destruct (data s); discriminate.
    + exists x. reflexivity.
  - left. reflexivity.
Qed.

Lemma add_maxSize (s : MetricsStore) (m : DiskMetrics) :
  maxSize (add s m) = maxSize s.
Proof. unfold add. now destruct (_ <? _). Qed.

Lemma adds_maxSize (ms : list DiskMetrics) (s : MetricsStore) :
  maxSize (fold_left add ms s) = maxSize s.
Proof.
  revert s. induction ms as [|m ms IH]; intros s; simpl; [reflexivity|].
  now rewrite IH, add_maxSize.
Qed.

(** A store that respects its capacity still does after one more
    append. *)
Lemma add_bounded (s : MetricsStore) (m : DiskMetrics) :
  0 <= maxSize s ->
  Z.of_nat (length (data s)) <= maxSize s ->
  Z.of_nat (length (data (add s m))) <= maxSize s.
Proof.
  intros H0 Hlen. unfold add.
  destruct (Z.ltb_spec (maxSize s) (Z.of_nat (length (data s ++ [m])))) as [H|H];
    simpl; [|assumption].
  rewrite length_app in H. simpl in H.
  destruct (data s) as [|x l]; simpl in *; [lia|].
  rewrite length_app. simpl. lia.
Qed.

Lemma adds_bounded (ms : list DiskMetrics) (s : MetricsStore) :
  0 <= maxSize s ->
  Z.of_nat (length (data s)) <= maxSize s ->
  Z.of_nat (length (data (fold_left add ms s))) <= maxSize s.
Proof.
  revert s. induction ms as [|m ms IH]; intros s H0 Hlen; simpl; [assumption|].
  rewrite <- (add_maxSize s m). apply IH; rewrite add_maxSize; [assumption|].
  now apply add_bounded.
Qed.

Lemma tail_drop {A} (l : list A) (k : nat) : tail (drop k l) = drop (S k) l.
Proof.
  revert k. induction l as [|x l IH]; intros [|k]; simpl; try reflexivity.
  apply IH.
Qed.

(** After any run of appends to an empty store the store holds the last
    [maxSize] snapshots appended, oldest first. *)
Lemma adds_data (cap : Z) (ms : list DiskMetrics) :
  0 <= cap ->
  data (fold_left add ms (mkStore [] cap))
  = drop (length ms - Z.to_nat cap) ms.
Proof.
  intros Hcap. induction ms as [|m ms IH] using rev_ind; [reflexivity|].
  rewrite fold_left_app. simpl.
  set (s := fold_left add ms (mkStore [] cap)) in *.
  assert (Hmax : maxSize s = cap) by apply adds_maxSize.
  unfold add. rewrite IH, Hmax, !length_app, length_drop. simpl.
  destruct (Z.ltb_spec cap
              (Z.of_nat (length ms - (length ms - Z.to_nat cap) + 1))) as [H|H]; simpl.
  - assert (Z.to_nat cap <= length ms)%nat by lia.
    replace (length ms + 1 - Z.to_nat cap)%nat
      with (S (length ms - Z.to_nat cap)) by lia.
    rewrite <- tail_drop. rewrite drop_app_le by lia. reflexivity.
  - assert (length ms < Z.to_nat cap)%nat by lia.
    replace (length ms - Z.to_nat cap)%nat with O by lia.
    replace (length ms + 1 - Z.to_nat cap)%nat with O by lia.
    reflexivity.
Qed.

(** Every stored instant lies between the two extreme instants. *)
Lemma inRange_all_time (m : DiskMetrics) :
  inRange GoTime.minTime GoTime.maxTime m = true.
Proof.
  unfold inRange, GoTime.Unix, GoTime.After, GoTime.Before, GoTime.Equal,
    GoTime.minTime, GoTime.maxTime. simpl.
  pose proof (wrap64_range (Timestamp m + GoTime.unixToInternal)) as H.
  unfold int64_min, int64_max in *. lia.
Qed.

Lemma getRange_all_time (s : MetricsStore) :
  getRange s GoTime.minTime GoTime.maxTime = data s.
Proof.
  rewrite getRange_filter. induction (data s) as [|m l IH]; simpl; [reflexivity|].
  now rewrite inRange_all_time, IH.
Qed.

(** C1. After more than [maxSize] appends to a store created empty, a
    range query over all time returns exactly the last [maxSize]
    snapshots appended, in append order; after every append the store
    holds at most [maxSize] snapshots, and an append leaves the stored
    sequence extended by the new snapshot, less at most its one oldest
    element. *)
Theorem C1_store_keeps_most_recent (cap : Z) (ms : list DiskMetrics) :
  0 <= cap ->
  cap < Z.of_nat (length ms) ->
  let appended (k : nat) := fold_left add (take k ms) (mkStore [] cap) in
  getRange (fold_left add ms (mkStore [] cap)) GoTime.minTime GoTime.maxTime
  = drop (length ms - Z.to_nat cap) ms
  /\ length (getRange (fold_left add ms (mkStore [] cap))
               GoTime.minTime GoTime.maxTime) = Z.to_nat cap
  /\ (forall k, Z.of_nat (length (data (appended k))) <= cap)
  /\ (forall k m, ms !! k = Some m ->
        appended (S k) = add (appended k) m
        /\ (data (add (appended k) m) = data (appended k) ++ [m]
            \/ exists oldest,
                 oldest :: data (add (appended k) m) = data (appended k) ++ [m])).
Proof.
  intros Hcap Hlen appended. repeat split.
  - rewrite getRange_all_time. now apply adds_data.
  - rewrite getRange_all_time, adds_data, length_drop by assumption. lia.
  - intros k. unfold appended.
    change cap with (maxSize (mkStore [] cap)) at 2.
    apply adds_bounded; simpl; lia.
  - unfold appended. rewrite (take_S_r _ _ _ H), fold_left_app. reflexivity.
  - destruct (add_data (appended k) m) as [E|[_ E]]; [now left | now right].
Qed.

Lemma C1_store_keeps_most_recent_witness :
  getRange
    (fold_left add
       [snapshotAt 1 10; snapshotAt 2 20; snapshotAt 3 30; snapshotAt 4 40]
       (mkStore [] 3))
    GoTime.minTime GoTime.maxTime
  = [snapshotAt 2 20; snapshotAt 3 30; snapshotAt 4 40].
Proof.
  exact (proj1 (C1_store_keeps_most_recent 3
                  [snapshotAt 1 10; snapshotAt 2 20; snapshotAt 3 30; snapshotAt 4 40]
                  ltac:(lia) ltac:(simpl; lia))).
Defined.

Lemma within_spec (fromTime toTime : GoTime.Time) (m : DiskMetrics) :
  within fromTime toTime m = true <->
  GoTime.le fromTime (capturedAt m) /\ GoTime.le (capturedAt m) toTime.
Proof.
  unfold within. rewrite andb_true_iff, !negb_true_iff.
  rewrite <- !not_true_iff_false, !After_spec.
  unfold GoTime.le. lia.
Qed.

Lemma filter_ext_in_bool {A} (f g : A -> bool) (l : list A) :
  (forall x, In x l -> f x = g x) -> List.filter f l = List.filter g l.
Proof.
  induction l as [|x l IH]; intros H; simpl; [reflexivity|].
  rewrite (H x) by now left. rewrite IH; [reflexivity|].
  intros y Hy. apply H. now right.
Qed.

Lemma getRange_within (s : MetricsStore) (fromTime toTime : GoTime.Time) :
  GoTime.le fromTime toTime ->
  getRange s fromTime toTime = List.filter (within fromTime toTime) (data s).
Proof.
  intros Hft. rewrite getRange_filter. apply filter_ext_in_bool. intros m _.
  apply eq_true_iff_eq. now rewrite inRange_spec, within_spec.
Qed.

Lemma filter_StronglySorted {A} (R : A -> A -> Prop) (f : A -> bool) (l : list A) :
  StronglySorted R l -> StronglySorted R (List.filter f l).
Proof.
  induction 1 as [|x l Hl IH Hx]; simpl; [constructor|].
  destruct (f x); [|assumption]. constructor; [assumption|].
  rewrite List.Forall_forall in *. intros y Hy.
  apply Hx. apply List.filter_In in Hy. tauto.
Qed.

(** C2, as the code has it. For every store and every [fromTime] not
    after [toTime], [getRange] returns exactly the stored snapshots whose
    [capturedAt] lies in the closed interval (endpoints included), each
    as often as it is stored and in the order of the store, which is
    ascending [capturedAt] order whenever the store is in that order; it
    returns the empty sequence when no snapshot lies in the interval. *)
Theorem C2_range_closed_interval
  (s : MetricsStore) (fromTime toTime : GoTime.Time) :
  GoTime.le fromTime toTime ->
  getRange s fromTime toTime = List.filter (within fromTime toTime) (data s)
  /\ (forall m, In m (getRange s fromTime toTime) <->
                In m (data s)
                /\ GoTime.le fromTime (capturedAt m)
                /\ GoTime.le (capturedAt m) toTime)
  /\ sublist (getRange s fromTime toTime) (data s)
  /\ (StronglySorted ascending (data s) ->
      StronglySorted ascending (getRange s fromTime toTime))
  /\ ((forall m, In m (data s) ->
         ~ (GoTime.le fromTime (capturedAt m) /\ GoTime.le (capturedAt m) toTime)) ->
      getRange s fromTime toTime = []).
Proof.
  intros Hft. pose proof (getRange_within s _ _ Hft) as E. rewrite E.
  split; [reflexivity|]. split; [|split; [|split]].
  - intros m. rewrite List.filter_In, within_spec. tauto.
  - clear E. induction (data s) as [|m l IH]; simpl; [constructor|].
    destruct (within fromTime toTime m); now constructor.
  - apply filter_StronglySorted.
  - intros Hnone. clear E. induction (data s) as [|m l IH]; simpl; [reflexivity|].
    destruct (within fromTime toTime m) eqn:Hm.
    + exfalso. apply (Hnone m); [now left|]. now apply within_spec.
    + apply IH. intros m' Hm'. apply Hnone. now right.
Qed.

Lemma C2_range_closed_interval_witness :
  getRange steppedBackStore (GoTime.Unix 4 0) (GoTime.Unix 5 0)
  = List.filter (within (GoTime.Unix 4 0) (GoTime.Unix 5 0)) (data steppedBackStore).
Proof.
  refine (proj1 (C2_range_closed_interval steppedBackStore
                   (GoTime.Unix 4 0) (GoTime.Unix 5 0) _)).
  unfold GoTime.le. vm_compute. left. reflexivity.
Defined.

(** C2 as stated fails: the result follows the order of the store, not
    the order of [capturedAt]. *)
Lemma C2_range_not_ascending :
  GoTime.le (GoTime.Unix 0 0) (GoTime.Unix 10 0)
  /\ getRange steppedBackStore (GoTime.Unix 0 0) (GoTime.Unix 10 0)
     = [snapshotAt 5 50; snapshotAt 3 30]
  /\ ~ Sorted ascending
         (getRange steppedBackStore (GoTime.Unix 0 0) (GoTime.Unix 10 0)).
Proof.
  split; [|split].
  - unfold GoTime.le. vm_compute. left. reflexivity.
  - reflexivity.
  - intros H. change (getRange _ _ _) with [snapshotAt 5 50; snapshotAt 3 30] in H.
    inversion H as [|? ? _ Hhd]; subst. inversion Hhd as [|? ? Hle]; subst.
    unfold ascending, GoTime.le in Hle. vm_compute in Hle.
    destruct Hle as [Hlt|[Heq _]]; discriminate.
Qed.

Lemma filter_sublist_imp {A} (f g : A -> bool) (l : list A) :
  (forall x, f x = true -> g x = true) ->
  sublist (List.filter f l) (List.filter g l).
Proof.
  intros H. induction l as [|x l IH]; simpl; [constructor|].
  destruct (f x) eqn:Hf.
  - rewrite (H x Hf). now constructor.
  - destruct (g x); [now constructor | assumption].
Qed.

(** C7, as the code has it. For an interval that is not inverted,
    widening it never removes a snapshot: with
    [fromTime' <= fromTime <= toTime <= toTime'], the result of
    [getRange fromTime toTime] is a subsequence of the result of
    [getRange fromTime' toTime']. *)
Theorem C7_range_monotonic
  (s : MetricsStore) (fromTime toTime fromTime' toTime' : GoTime.Time) :
  GoTime.le fromTime' fromTime ->
  GoTime.le fromTime toTime ->
  GoTime.le toTime toTime' ->
  sublist (getRange s fromTime toTime) (getRange s fromTime' toTime')
  /\ (forall m, In m (getRange s fromTime toTime) ->
                In m (getRange s fromTime' toTime')).
Proof.
  intros H1 H2 H3.
  assert (Hsub : sublist (getRange s fromTime toTime) (getRange s fromTime' toTime')).
  { rewrite !getRange_within; eauto using le_trans.
    apply filter_sublist_imp. intros m. rewrite !within_spec.
    intros [Ha Hb]. eauto using le_trans. }
  split; [assumption|]. intros m Hm.
  apply list_elem_of_In. eapply elem_of_sublist; [|eassumption].
  now apply list_elem_of_In.
Qed.

Lemma C7_range_monotonic_witness :
  sublist (getRange steppedBackStore (GoTime.Unix 4 0) (GoTime.Unix 5 0))
          (getRange steppedBackStore (GoTime.Unix 3 0) (GoTime.Unix 6 0)).
Proof.
  refine (proj1 (C7_range_monotonic steppedBackStore
                   (GoTime.Unix 4 0) (GoTime.Unix 5 0)
                   (GoTime.Unix 3 0) (GoTime.Unix 6 0) _ _ _));
    unfold GoTime.le; vm_compute; left; reflexivity.
Defined.

(** C7 as stated fails on an inverted interval: [getRange 5 3] returns
    the snapshot of second 5, the wider [getRange 4 4] does not. *)
Lemma C7_inverted_interval_not_monotonic :
  GoTime.le (GoTime.Unix 4 0) (GoTime.Unix 5 0)
  /\ GoTime.le (GoTime.Unix 3 0) (GoTime.Unix 4 0)
  /\ In (snapshotAt 5 50)
        (getRange singletonStore (GoTime.Unix 5 0) (GoTime.Unix 3 0))
  /\ ~ In (snapshotAt 5 50)
          (getRange singletonStore (GoTime.Unix 4 0) (GoTime.Unix 4 0)).
Proof.
  repeat split.
  - unfold GoTime.le. vm_compute. left. reflexivity.
  - unfold GoTime.le. vm_compute. left. reflexivity.
  - left. reflexivity.
  - intros [].
Qed.

(** ** The relative-time parser *)

Lemma string_of_bytes_of (s : string) :
  GoStrings.string_of_bytes (bytes_of s) = s.
Proof.
  induction s as [|c s IH]; simpl; [reflexivity|].
  unfold byte_of. now rewrite N2Z.id, ascii_N_embedding, IH.
Qed.

Lemma bytes_of_app (s t : string) :
  bytes_of (s +:+ t) = bytes_of s ++ bytes_of t.
Proof. induction s as [|c s IH]; simpl; [reflexivity|]. now rewrite IH. Qed.

Lemma splitLast_snoc (number : string) (unit : ascii) :
  splitLast (number +:+ String unit EmptyString) = Some (number, unit).
Proof.
  induction number as [|c s IH]; simpl; [reflexivity|]. now rewrite IH.
Qed.

Lemma splitLast_Some (s number : string) (unit : ascii) :
  splitLast s = Some (number, unit) -> s = (number +:+ String unit EmptyString)%string.
Proof.
  revert number. induction s as [|c s IH]; intros number; simpl; [discriminate|].
  destruct (splitLast s) as [[n u]|] eqn:E.
  - intros [= <- <-]. rewrite (IH n eq_refl) at 1. reflexivity.
  - intros [= <- <-]. destruct s; [reflexivity|].
    simpl in E. destruct (splitLast s) as [[? ?]|]; discriminate.
Qed.

Lemma splitLast_None (s : string) : splitLast s = None <-> s = EmptyString.
Proof.
  split; [|now intros ->]. destruct s as [|c s]; [reflexivity|]. simpl.
  destruct (splitLast s) as [[? ?]|]; discriminate.
Qed.

(** *** [strconv.Atoi] accepts the signed decimals of the [int64] range *)

Lemma isDigit_range (c : Z) : isDigit c = true <-> 48 <= c <= 57.
Proof. unfold isDigit. lia. Qed.

Lemma valueFrom_ge (p : list Z) (n : Z) :
  forallb isDigit p = true -> 0 <= n -> n <= valueFrom p n.
Proof.
  revert n. induction p as [|c p IH]; intros n Hd Hn; [simpl; lia|].
  simpl in Hd. apply andb_true_iff in Hd as [Hc Hp]. apply isDigit_range in Hc.
  specialize (IH (n * 10 + (c - 48)) Hp ltac:(lia)).
  change (valueFrom (c :: p) n) with (valueFrom p (n * 10 + (c - 48))). lia.
Qed.

Lemma ParseUint_loop_digits (p : list Z) (n : Z) :
  forallb isDigit p = true -> 0 <= n -> valueFrom p n <= uint64_max ->
  GoStrconv.ParseUint_loop p n = inr (valueFrom p n).
Proof.
  revert n. induction p as [|c p IH]; intros n Hd Hn Hv; simpl; [reflexivity|].
  simpl in Hd. apply andb_true_iff in Hd as [Hc Hp].
  pose proof Hc as Hc'. unfold isDigit in Hc'. rewrite Hc'.
  apply isDigit_range in Hc.
  pose proof (valueFrom_ge p (n * 10 + (c - 48)) Hp ltac:(lia)) as Hge.
  change (valueFrom (c :: p) n) with (valueFrom p (n * 10 + (c - 48))) in Hv.
  unfold uint64_max in *.
  destruct (Z.leb_spec ((2 ^ 64 - 1) / 10 + 1) n) as [H|H].
  - exfalso. change ((2 ^ 64 - 1) / 10 + 1) with 1844674407370955162 in H. lia.
  - destruct (Z.ltb_spec (2 ^ 64 - 1) (n * 10 + (c - 48))) as [H'|H']; [lia|].
    apply IH; [assumption | lia | assumption].
Qed.

Lemma ParseUint_loop_inr (p : list Z) (n v : Z) :
  0 <= n <= uint64_max ->
  GoStrconv.ParseUint_loop p n = inr v ->
  forallb isDigit p = true /\ v = valueFrom p n /\ 0 <= v <= uint64_max.
Proof.
  revert n. induction p as [|c p IH]; intros n Hn; simpl.
  - intros [= <-]. repeat split; lia.
  - fold (isDigit c). destruct (isDigit c) eqn:Hc; [|discriminate].
    apply isDigit_range in Hc.
    destruct (_ <=? n); [discriminate|].
    destruct (Z.ltb_spec uint64_max (n * 10 + (c - 48))) as [H'|H']; [discriminate|].
    intros E. apply IH in E; [|lia]. simpl. tauto.
Qed.

Lemma ParseUint_inr (p : list Z) (v : Z) :
  GoStrconv.ParseUint p = inr v <->
  p <> [] /\ forallb isDigit p = true /\ v = decimalValue p /\ v <= uint64_max.
Proof.
  unfold GoStrconv.ParseUint, decimalValue. fold (valueFrom p 0). split.
  - destruct p as [|c p]; [discriminate|]. intros E.
    apply ParseUint_loop_inr in E as (Hd & Hv & Hr); [|unfold uint64_max; lia].
    split; [discriminate|]. split; [assumption|]. split; [assumption | lia].
  - intros (Hne & Hd & -> & Hmax). destruct p as [|c p]; [congruence|].
    apply ParseUint_loop_digits; [assumption | lia | assumption].
Qed.

Lemma decimalValue_nonneg (p : list Z) :
  forallb isDigit p = true -> 0 <= decimalValue p.
Proof. intros H. apply (valueFrom_ge p 0 H). lia. Qed.

(** [Atoi] returns [v] exactly on the signed decimals that write a [v] of
    the [int64] range. *)
Lemma Atoi_spec (s : string) (v : Z) :
  GoStrconv.Atoi s = inr v <-> signedDecimal s = Some v /\ in_int64 v.
Proof.
  unfold GoStrconv.Atoi, GoStrconv.ParseInt, signedDecimal, in_int64,
    int64_min, int64_max.
  destruct (bytes_of s) as [|c p']; [split; [discriminate | intros [? _]; discriminate]|].
  set (digits := if (c =? 43) || (c =? 45) then p' else c :: p').
  destruct (GoStrconv.ParseUint digits) as [e|un] eqn:E.
  - assert (Hno : forall u, GoStrconv.ParseUint digits <> inr u) by (intros u; congruence).
    split; [destruct e; discriminate|]. intros [Hs Hr]. exfalso.
    destruct digits as [|d ds] eqn:Ed; [discriminate|].
    destruct (forallb isDigit (d :: ds)) eqn:Hd; [|discriminate].
    pose proof (decimalValue_nonneg _ Hd) as Hnn.
    apply (Hno (decimalValue (d :: ds))). apply ParseUint_inr.
    repeat split; try assumption; try discriminate. unfold uint64_max.
    destruct (c =? 45); injection Hs as <-; lia.
  - apply ParseUint_inr in E as (Hne & Hd & -> & Hmax).
    pose proof (decimalValue_nonneg _ Hd) as Hnn.
    destruct digits as [|d ds] eqn:Ed; [congruence|]. rewrite Hd.
    destruct (c =? 45) eqn:Hneg; simpl.
    + destruct (Z.ltb_spec (2 ^ 63) (decimalValue (d :: ds))).
      * split; [discriminate|]. intros [[= <-] ?]. lia.
      * split; [intros [= <-]; split; [reflexivity | lia]|].
        now intros [[= <-] _].
    + destruct (Z.leb_spec (2 ^ 63) (decimalValue (d :: ds))).
      * split; [discriminate|]. intros [[= <-] ?]. lia.
      * split; [intros [= <-]; split; [reflexivity | lia]|].
        now intros [[= <-] _].
Qed.

Lemma Atoi_fails (s : string) :
  (exists e, GoStrconv.Atoi s = inl e) <->
  ~ exists v, signedDecimal s = Some v /\ in_int64 v.
Proof.
  split.
  - intros [e He] (v & Hv). apply Atoi_spec in Hv. congruence.
  - intros H. destruct (GoStrconv.Atoi s) as [e|v] eqn:E; [eauto|].
    exfalso. apply H. exists v. now apply Atoi_spec.
Qed.

(** *** The unit letter *)

Lemma ToLower1_unit (unit : ascii) :
  let lower := GoStrings.ToLower1 unit in
  match unitNanos unit with
  | Some d =>
      (String.eqb lower "m" = true /\ d = GoTime.Minute)
      \/ (String.eqb lower "m" = false /\ String.eqb lower "h" = true
          /\ d = GoTime.Hour)
      \/ (String.eqb lower "m" = false /\ String.eqb lower "h" = false
          /\ String.eqb lower "d" = true /\ d = 24 * GoTime.Hour)
  | None =>
      String.eqb lower "m" = false /\ String.eqb lower "h" = false
      /\ String.eqb lower "d" = false
  end.
Proof.
  destruct unit as [[] [] [] [] [] [] [] []]; vm_compute; tauto.
Qed.

(** *** Trimming leaves a string alone that starts and ends with an ASCII
    byte that is not a space *)

Lemma TrimSpace_bytes_id (p : list Z) (c d : Z) :
  head p = Some c -> last p = Some d ->
  c < GoUtf8.RuneSelf -> GoStrings.asciiSpace c = false ->
  d < GoUtf8.RuneSelf -> GoStrings.asciiSpace d = false ->
  GoStrings.TrimSpace_bytes p = p.
Proof.
  intros Hc Hd Hc1 Hc2 Hd1 Hd2. unfold GoStrings.TrimSpace_bytes.
  destruct p as [|c' p']; [discriminate|]. injection Hc as ->. simpl GoStrings.asciiStart.
  destruct (Z.leb_spec GoUtf8.RuneSelf c) as [H|_]; [lia|]. rewrite Hc2.
  rewrite drop_0.
  assert (Hrev : exists r, rev (c :: p') = d :: r).
  { destruct (rev (c :: p')) as [|x r] eqn:E.
    - apply (f_equal (@length Z)) in E. rewrite length_rev in E. discriminate.
    - exists r. f_equal.
      assert (Hl : last (rev (x :: r)) = Some x) by (simpl; apply last_snoc).
      rewrite <- E, rev_involutive in Hl. congruence. }
  destruct Hrev as [r ->]. simpl GoStrings.asciiStop.
  destruct (Z.leb_spec GoUtf8.RuneSelf d) as [H|_]; [lia|]. rewrite Hd2.
  apply take_ge. simpl. lia.
Qed.

Lemma isDigit_not_space (c : Z) :
  isDigit c = true -> c < GoUtf8.RuneSelf /\ GoStrings.asciiSpace c = false.
Proof.
  rewrite isDigit_range. unfold GoUtf8.RuneSelf, GoStrings.asciiSpace. lia.
Qed.

Lemma unit_not_space (unit : ascii) (d : Z) :
  unitNanos unit = Some d ->
  byte_of unit < GoUtf8.RuneSelf /\ GoStrings.asciiSpace (byte_of unit) = false
  /\ 0 < d.
Proof.
  destruct unit as [[] [] [] [] [] [] [] []]; vm_compute;
    try discriminate; intros [= <-]; auto.
Qed.

Lemma TrimSpace_number_unit (number : string) (unit : ascii) (d : Z) :
  isDigits number = true -> unitNanos unit = Some d ->
  GoStrings.TrimSpace (number +:+ String unit EmptyString)
  = (number +:+ String unit EmptyString)%string.
Proof.
  intros Hn Hu. unfold GoStrings.TrimSpace.
  rewrite <- (string_of_bytes_of (number +:+ String unit EmptyString)) at 2.
  f_equal. rewrite bytes_of_app. simpl bytes_of at 2 4. unfold isDigits in Hn.
  destruct (bytes_of number) as [|c p] eqn:E; [discriminate|].
  simpl in Hn. apply andb_true_iff in Hn as [Hc _].
  apply isDigit_not_space in Hc as [Hc1 Hc2].
  apply unit_not_space in Hu as (Hu1 & Hu2 & _).
  apply (TrimSpace_bytes_id _ c (byte_of unit)); try assumption; [reflexivity|].
  change ((c :: p) ++ [byte_of unit]) with (c :: (p ++ [byte_of unit])).
  rewrite app_comm_cons. apply last_snoc.
Qed.

Lemma isDigits_signedDecimal (number : string) :
  isDigits number = true ->
  signedDecimal number = Some (decimalValue (bytes_of number))
  /\ 0 <= decimalValue (bytes_of number).
Proof.
  unfold isDigits, signedDecimal. destruct (bytes_of number) as [|c p]; [discriminate|].
  intros H. split; [|now apply decimalValue_nonneg].
  rewrite <- (app_nil_l (c :: p)) in H. simpl app in H.
  pose proof H as H'. simpl in H'. apply andb_true_iff in H' as [Hc _].
  apply isDigit_range in Hc.
  destruct (Z.eqb_spec c 43); [lia|]. destruct (Z.eqb_spec c 45); [lia|].
  simpl orb. cbv iota. now rewrite H.
Qed.

(** What the parser returns on a run of digits followed by a unit
    letter. *)
Lemma parseSimpleTime_digits (number : string) (unit : ascii) (d : Z) :
  isDigits number = true ->
  unitNanos unit = Some d ->
  decimalValue (bytes_of number) * d <= int64_max ->
  parseSimpleTime (number +:+ String unit EmptyString)
  = inr (decimalValue (bytes_of number) * d).
Proof.
  intros Hn Hu Hmax. unfold parseSimpleTime.
  rewrite (TrimSpace_number_unit _ _ _ Hn Hu), splitLast_snoc.
  destruct (isDigits_signedDecimal _ Hn) as [Hs Hnn].
  set (n := decimalValue (bytes_of number)) in *.
  pose proof (unit_not_space _ _ Hu) as (_ & _ & Hd).
  assert (Hin : in_int64 n).
  { unfold in_int64, int64_min, int64_max in *. nia. }
  destruct (GoStrconv.Atoi number) as [e|v] eqn:E.
  - exfalso. assert (Hf : exists e, GoStrconv.Atoi number = inl e) by eauto.
    apply Atoi_fails in Hf. apply Hf. eauto.
  - apply Atoi_spec in E as [E _]. rewrite Hs in E. injection E as <-.
    pose proof (ToLower1_unit unit) as Hl. rewrite Hu in Hl. cbv zeta in Hl.
    unfold int64_max in Hmax.
    destruct Hl as [[-> ->]|[(-> & -> & ->)|(-> & -> & -> & ->)]]; f_equal;
      unfold mul64.
    + apply wrap64_id. unfold in_int64, int64_min, int64_max. lia.
    + apply wrap64_id. unfold in_int64, int64_min, int64_max. lia.
    + assert (Hh : 0 < GoTime.Hour) by reflexivity.
      rewrite (wrap64_id (n * 24)).
      * rewrite wrap64_id; [lia|]. unfold in_int64, int64_min, int64_max. nia.
      * unfold in_int64, int64_min, int64_max. nia.
Qed.

(** C4, as the code has it. The parser fails exactly when the trimmed
    string is empty, or the portion before its final byte is not an
    optionally signed run of one or more decimal digits writing an
    integer of the [int64] range, or the final byte is not one of m, h,
    d in either case; the strings [""], ["30"], ["30x"] and ["h"] all
    fail. *)
Theorem C4_parse_fails_exactly :
  (forall timeStr : string,
     (exists e, parseSimpleTime timeStr = inl e) <->
     GoStrings.TrimSpace timeStr = EmptyString
     \/ exists number unit,
          GoStrings.TrimSpace timeStr = (number +:+ String unit EmptyString)%string
          /\ ((~ exists v, signedDecimal number = Some v /\ in_int64 v)
              \/ unitNanos unit = None))
  /\ parseSimpleTime "" = inl EmptyTimeString
  /\ parseSimpleTime "30" = inl (UnsupportedTimeUnit "0")
  /\ parseSimpleTime "30x" = inl (UnsupportedTimeUnit "x")
  /\ parseSimpleTime "h" = inl (InvalidNumberFormat "").
Proof.
  split; [|repeat split].
  intros timeStr. unfold parseSimpleTime.
  destruct (splitLast (GoStrings.TrimSpace timeStr)) as [[number unit]|] eqn:Es.
  - apply splitLast_Some in Es. rewrite Es.
    assert (Hinj : forall n' u',
      (number +:+ String unit EmptyString)%string
      = (n' +:+ String u' EmptyString)%string -> n' = number /\ u' = unit).
    { intros n' u' E. apply (f_equal splitLast) in E.
      rewrite !splitLast_snoc in E. now injection E as -> ->. }
    destruct (GoStrconv.Atoi number) as [e|v] eqn:Ea.
    + split; [|eauto]. intros _. right. exists number, unit. split; [reflexivity|].
      left. apply Atoi_fails. eauto.
    + pose proof (ToLower1_unit unit) as Hl. cbv zeta in Hl.
      assert (Hok : exists v, signedDecimal number = Some v /\ in_int64 v).
      { exists v. now apply Atoi_spec. }
      destruct (unitNanos unit) as [d|] eqn:Hu.
      * split.
        -- intros [e He]. exfalso.
           destruct Hl as [[E1 _]|[(E1 & E2 & _)|(E1 & E2 & E3 & _)]];
             rewrite ?E1, ?E2, ?E3 in He; discriminate.
        -- intros [E|(n' & u' & E & [Hbad|Hbad])].
           ++ destruct number; discriminate.
           ++ apply Hinj in E as [-> ->]. contradiction.
           ++ apply Hinj in E as [-> ->]. congruence.
      * destruct Hl as (-> & -> & ->). split; [|eauto].
        intros _. right. exists number, unit. auto.
  - apply splitLast_None in Es. rewrite Es. split; [auto | eauto].
Qed.

(** C4 as stated fails: ["-5"] is not a run of digits, yet ["-5m"]
    parses, to minus five minutes. *)
Lemma C4_signed_number_is_accepted :
  splitLast (GoStrings.TrimSpace "-5m") = Some ("-5"%string, "m"%char)
  /\ isDigits "-5" = false
  /\ parseSimpleTime "-5m" = inr (-5 * GoTime.Minute).
Proof. repeat split. Qed.

(** C5, as the code has it. For a run of one or more digits writing [n]
    and a unit letter m, h or d in either case, the parser returns [n]
    minutes, [n] hours or [n] times 24 hours, provided that duration fits
    the signed 64-bit nanosecond count of a [time.Duration]; so ["30m"]
    is 30 minutes, ["2h"] 2 hours and ["7d"] 168 hours. *)
Theorem C5_parse_value :
  (forall (number : string) (unit : ascii) (d : Z),
     isDigits number = true ->
     unitNanos unit = Some d ->
     decimalValue (bytes_of number) * d <= int64_max ->
     parseSimpleTime (number +:+ String unit EmptyString)
     = inr (decimalValue (bytes_of number) * d))
  /\ unitNanos "m" = Some GoTime.Minute /\ unitNanos "M" = Some GoTime.Minute
  /\ unitNanos "h" = Some GoTime.Hour /\ unitNanos "H" = Some GoTime.Hour
  /\ unitNanos "d" = Some (24 * GoTime.Hour)
  /\ unitNanos "D" = Some (24 * GoTime.Hour)
  /\ parseSimpleTime "30m" = inr (30 * GoTime.Minute)
  /\ parseSimpleTime "2h" = inr (2 * GoTime.Hour)
  /\ parseSimpleTime "7d" = inr (168 * GoTime.Hour).
Proof.
  split; [exact parseSimpleTime_digits | repeat split].
Qed.

Lemma C5_parse_value_witness :
  parseSimpleTime ("45" +:+ String "H" EmptyString) = inr (45 * GoTime.Hour).
Proof.
  exact (proj1 C5_parse_value "45"%string "H"%char GoTime.Hour
           eq_refl eq_refl ltac:(vm_compute; discriminate)).
Defined.

(** C5 as stated fails for large [n]: 200000000 minutes do not fit a
    [time.Duration], the product wraps around and the parser returns a
    negative duration without an error. *)
Lemma C5_large_value_wraps :
  isDigits "200000000" = true
  /\ decimalValue (bytes_of "200000000") = 200000000
  /\ parseSimpleTime "200000000m" = inr (-6446744073709551616)
  /\ -6446744073709551616 <> 200000000 * GoTime.Minute.
Proof. repeat split. vm_compute. discriminate. Qed.

(** ** The relative-time endpoint *)

Lemma wrap64_wrap64_add (a b : Z) : wrap64 (wrap64 a + b) = wrap64 (a + b).
Proof.
  unfold wrap64.
  replace (((a + 2 ^ 63) mod 2 ^ 64 - 2 ^ 63 + b + 2 ^ 63))
    with ((a + 2 ^ 63) mod 2 ^ 64 + b) by lia.
  rewrite Zplus_mod_idemp_l. f_equal. f_equal. lia.
Qed.

(** [UnixNano] is exact on an instant whose reading fits an [int64]. *)
Lemma UnixNano_exact (t : GoTime.Time) :
  wfTime t -> in_int64 (unixNanos t) -> GoTime.UnixNano t = unixNanos t.
Proof.
  unfold wfTime, in_int64, unixNanos, GoTime.UnixNano, GoTime.unixSec,
    int64_min, int64_max.
  intros Hwf Hin.
  rewrite (wrap64_id (GoTime.sec t + GoTime.internalToUnix)).
  - rewrite wrap64_wrap64_add. apply wrap64_id.
    unfold in_int64, int64_min, int64_max. lia.
  - unfold in_int64, int64_min, int64_max. lia.
Qed.

(** Adding a duration moves the reading by that duration, and keeps the
    instant well formed. *)
Lemma Add_exact (t : GoTime.Time) (d : Z) :
  wfTime t -> in_int64 (GoTime.sec t) -> in_int64 (unixNanos t + d) ->
  wfTime (GoTime.Add t d) /\ unixNanos (GoTime.Add t d) = unixNanos t + d.
Proof.
  unfold wfTime, in_int64, unixNanos, int64_min, int64_max.
  intros Hwf Hsec Hin. unfold GoTime.Add.
  pose proof (Z.quot_rem' d 1000000000) as Hqr.
  assert (Hr : -1000000000 < Z.rem d 1000000000 < 1000000000).
  { pose proof (Z.rem_bound_abs d 1000000000 ltac:(lia)). lia. }
  set (q := Z.quot d 1000000000) in *. set (r := Z.rem d 1000000000) in *.
  change GoTime.internalToUnix with (-62135596800) in *.
  assert (Hgen : forall q' ns',
            0 <= ns' < 1000000000 ->
            (GoTime.sec t + q' + -62135596800) * 1000000000 + ns'
            = (GoTime.sec t + -62135596800) * 1000000000 + GoTime.nsec t + d ->
            0 <= GoTime.nsec (GoTime.addSec (GoTime.mkTime (GoTime.sec t) ns') q')
              < 1000000000
            /\ (GoTime.sec (GoTime.addSec (GoTime.mkTime (GoTime.sec t) ns') q')
                + -62135596800) * 1000000000
               + GoTime.nsec (GoTime.addSec (GoTime.mkTime (GoTime.sec t) ns') q')
               = (GoTime.sec t + -62135596800) * 1000000000 + GoTime.nsec t + d).
  { intros q' ns' Hns' Heq. unfold GoTime.addSec. simpl GoTime.sec. simpl GoTime.nsec.
    rewrite (wrap64_id (GoTime.sec t + q'))
      by (unfold in_int64, int64_min, int64_max; lia).
    destruct (Z.ltb_spec (GoTime.sec t) (GoTime.sec t + q'));
      destruct (Z.ltb_spec 0 q'); simpl; try lia. }
  destruct (Z.leb_spec 1000000000 (GoTime.nsec t + r)).
  - apply Hgen; lia.
  - destruct (Z.ltb_spec (GoTime.nsec t + r) 0); apply Hgen; lia.
Qed.

Lemma handler_redirect (now : GoTime.Time) (query : gmap string (list string)) (d : Z) :
  parseSimpleTime (Get query "time") = inr d ->
  grafanaSimpleHandler now query
  = HttpRedirect
      (rangeQueryURL (Get query "path")
         (Z.quot (GoTime.UnixNano (GoTime.Add now (neg64 d))) GoTime.Millisecond)
         (Z.quot (GoTime.UnixNano now) GoTime.Millisecond))
      StatusTemporaryRedirect.
Proof. intros H. unfold grafanaSimpleHandler. now rewrite H. Qed.

(** C8, as the code has it. When the [time] expression fails to parse
    the response is the client error 400 and no redirect.  When it parses
    to [d], the response is a temporary redirect to the range-query
    endpoint whose [to] and [from] are the readings of [now] and of
    [now - d] in nanoseconds since the epoch, divided by 1000000 with
    truncation toward zero, provided both readings, the seconds of [now]
    and [-d] fit an [int64].  For [time=1h] and a clock at least one hour
    after the epoch, [to - from] is 3600000 milliseconds. *)
Theorem C8_relative_time_redirect
  (now : GoTime.Time) (query : gmap string (list string)) :
  (forall e, parseSimpleTime (Get query "time") = inl e ->
     grafanaSimpleHandler now query
     = HttpError ("Invalid time format: " +:+ errorString e) StatusBadRequest)
  /\ (forall d, parseSimpleTime (Get query "time") = inr d ->
        wfTime now -> in_int64 (GoTime.sec now) ->
        in_int64 (unixNanos now) -> in_int64 (unixNanos now - d) -> in_int64 (- d) ->
        grafanaSimpleHandler now query
        = HttpRedirect
            (rangeQueryURL (Get query "path")
               (Z.quot (unixNanos now - d) GoTime.Millisecond)
               (Z.quot (unixNanos now) GoTime.Millisecond))
            StatusTemporaryRedirect)
  /\ (Get query "time" = "1h"%string ->
      wfTime now -> in_int64 (GoTime.sec now) -> in_int64 (unixNanos now) ->
      GoTime.Hour <= unixNanos now ->
      exists fromMs toMs,
        grafanaSimpleHandler now query
        = HttpRedirect (rangeQueryURL (Get query "path") fromMs toMs)
            StatusTemporaryRedirect
        /\ toMs = Z.quot (unixNanos now) GoTime.Millisecond
        /\ toMs - fromMs = 3600000).
Proof.
  assert (Hok : forall d, parseSimpleTime (Get query "time") = inr d ->
        wfTime now -> in_int64 (GoTime.sec now) ->
        in_int64 (unixNanos now) -> in_int64 (unixNanos now - d) -> in_int64 (- d) ->
        grafanaSimpleHandler now query
        = HttpRedirect
            (rangeQueryURL (Get query "path")
               (Z.quot (unixNanos now - d) GoTime.Millisecond)
               (Z.quot (unixNanos now) GoTime.Millisecond))
            StatusTemporaryRedirect).
  { intros d Hd Hwf Hsec Hnow Hfrom Hneg. rewrite (handler_redirect _ _ _ Hd).
    unfold neg64. rewrite (wrap64_id (- d)) by assumption.
    destruct (Add_exact now (- d) Hwf Hsec) as [Hwf' Hex].
    { now replace (unixNanos now + - d) with (unixNanos now - d) by lia. }
    rewrite (UnixNano_exact now Hwf Hnow), (UnixNano_exact _ Hwf').
    - rewrite Hex. now replace (unixNanos now + - d) with (unixNanos now - d) by lia.
    - rewrite Hex. now replace (unixNanos now + - d) with (unixNanos now - d) by lia. }
  split; [|split; [exact Hok|]].
  - intros e He. unfold grafanaSimpleHandler. now rewrite He.
  - intros Ht Hwf Hsec Hnow Hhour.
    assert (Hd : parseSimpleTime (Get query "time") = inr GoTime.Hour)
      by (rewrite Ht; reflexivity).
    change GoTime.Hour with 3600000000000 in *.
    unfold in_int64, int64_min, int64_max in *.
    eexists _, _. split; [|split; [reflexivity|]].
    + apply (Hok _ Hd Hwf); unfold in_int64, int64_min, int64_max; lia.
    + change GoTime.Millisecond with 1000000.
      rewrite !Z.quot_div_nonneg by lia.
      replace (unixNanos now - 3600000000000)
        with (unixNanos now + (-3600000) * 1000000) by lia.
      rewrite Z.div_add by lia. lia.
Qed.

Lemma C8_relative_time_redirect_witness :
  exists fromMs toMs,
    grafanaSimpleHandler (GoTime.Unix 1700000000 123456789) lastHourQuery
    = HttpRedirect (rangeQueryURL (Get lastHourQuery "path") fromMs toMs)
        StatusTemporaryRedirect
    /\ toMs = Z.quot (unixNanos (GoTime.Unix 1700000000 123456789)) GoTime.Millisecond
    /\ toMs - fromMs = 3600000.
Proof.
  refine (proj2 (proj2 (C8_relative_time_redirect
                          (GoTime.Unix 1700000000 123456789) lastHourQuery))
            eq_refl _ _ _ _);
    vm_compute; repeat split; (discriminate || reflexivity).
Defined.

(** C8 as stated fails for a clock just after the epoch: one nanosecond
    after it, [time=1h] is redirected with [to = 0] and [from = -3599999],
    which are 3599999 milliseconds apart. *)
Lemma C8_truncation_near_epoch :
  grafanaSimpleHandler (GoTime.Unix 0 1) lastHourQuery
  = HttpRedirect "/grafana?path=&from=-3599999&to=0" StatusTemporaryRedirect
  /\ rangeQueryURL "" (-3599999) 0 = "/grafana?path=&from=-3599999&to=0"%string
  /\ 0 - -3599999 <> 3600000.
Proof. repeat split. discriminate. Qed.

(** ** The live-snapshot endpoint *)

Lemma collectMetrics_ok (h : Host) (st : Monitor) (partitions : list PartitionStat) :
  disk_Partitions h = inr partitions ->
  exists metrics st',
    collectMetrics h st = (inr metrics, st')
    /\ Timestamp metrics = GoTime.unixSec (time_Now h)
    /\ mon_store st' = add (mon_store st) metrics.
Proof.
  intros Hp. unfold collectMetrics. rewrite Hp.
  destruct (fold_left _ _ _) as [[parts du] dup]. eexists _, _.
  split; [reflexivity|]. split; reflexivity.
Qed.

Lemma collectMetrics_err (h : Host) (st : Monitor) (err : string) :
  disk_Partitions h = inl err -> collectMetrics h st = (inl err, st).
Proof. intros Hp. unfold collectMetrics. now rewrite Hp. Qed.

Lemma add_below_capacity (s : MetricsStore) (m : DiskMetrics) :
  Z.of_nat (length (data s)) < maxSize s -> data (add s m) = data s ++ [m].
Proof.
  intros H. unfold add. rewrite length_app. simpl.
  destruct (Z.ltb_spec (maxSize s) (Z.of_nat (length (data s) + 1))); [lia|reflexivity].
Qed.

(** C10. A request to the live-snapshot endpoint succeeds exactly when
    the enumeration of partitions does; a successful request answers
    with a snapshot collected at that moment and has appended that very
    snapshot to the store, which below capacity makes the store one
    snapshot longer; a failed request answers 500 and leaves the state
    alone.  Two requests in a row, with no collection cycle in between,
    make a store with room for two snapshots two snapshots longer. *)
Theorem C10_live_snapshot_appends (h : Host) (st : Monitor) :
  (forall metrics st',
     metricsHandler h st = (HttpJSON metrics, st') ->
     (exists partitions, disk_Partitions h = inr partitions)
     /\ collectMetrics h st = (inr metrics, st')
     /\ Timestamp metrics = GoTime.unixSec (time_Now h)
     /\ mon_store st' = add (mon_store st) metrics
     /\ (Z.of_nat (length (data (mon_store st))) < maxSize (mon_store st) ->
         data (mon_store st') = data (mon_store st) ++ [metrics]
         /\ length (data (mon_store st')) = S (length (data (mon_store st)))
         /\ data (mon_store st') <> data (mon_store st)))
  /\ (forall partitions, disk_Partitions h = inr partitions ->
        exists metrics st', metricsHandler h st = (HttpJSON metrics, st'))
  /\ (forall err, disk_Partitions h = inl err ->
        metricsHandler h st = (HttpError err StatusInternalServerError, st))
  /\ (forall h2 partitions partitions2,
        disk_Partitions h = inr partitions ->
        disk_Partitions h2 = inr partitions2 ->
        Z.of_nat (length (data (mon_store st))) + 2 <= maxSize (mon_store st) ->
        length (data (mon_store (snd (metricsHandler h2 (snd (metricsHandler h st))))))
        = S (S (length (data (mon_store st))))).
Proof.
  assert (Hsucc : forall h st partitions, disk_Partitions h = inr partitions ->
            exists metrics st',
              metricsHandler h st = (HttpJSON metrics, st')
              /\ mon_store st' = add (mon_store st) metrics).
  { clear. intros h st partitions Hp.
    destruct (collectMetrics_ok h st _ Hp) as (metrics & st' & E & _ & Hs).
    exists metrics, st'. unfold metricsHandler. now rewrite E. }
  split; [|split; [|split]].
  - intros metrics st' Hh. unfold metricsHandler in Hh.
    destruct (disk_Partitions h) as [err|partitions] eqn:Hp.
    + rewrite (collectMetrics_err _ _ _ Hp) in Hh. discriminate.
    + destruct (collectMetrics_ok h st _ Hp) as (m & s' & E & Ht & Hs).
      rewrite E in Hh. injection Hh as <- <-.
      split; [eauto|]. split; [assumption|]. split; [assumption|].
      split; [assumption|]. intros Hroom.
      rewrite Hs, (add_below_capacity _ _ Hroom), length_app. simpl.
      split; [reflexivity|]. split; [lia|].
      intros Heq. apply (f_equal (@length _)) in Heq.
      rewrite length_app in Heq. simpl in Heq. lia.
  - intros partitions Hp. destruct (Hsucc h st _ Hp) as (m & s' & E & _). eauto.
  - intros err Hp. unfold metricsHandler. now rewrite (collectMetrics_err _ _ _ Hp).
  - intros h2 partitions partitions2 Hp Hp2 Hroom.
    destruct (Hsucc h st _ Hp) as (m & s' & E & Hs). rewrite E. simpl.
    destruct (Hsucc h2 s' _ Hp2) as (m2 & s2 & E2 & Hs2). rewrite E2. simpl.
    rewrite Hs2, add_below_capacity.
    + rewrite Hs, add_below_capacity by lia. rewrite !length_app. simpl. lia.
    + rewrite Hs, add_maxSize, add_below_capacity by lia.
      rewrite length_app. simpl. lia.
Qed.

Lemma C10_live_snapshot_appends_witness :
  length (data (mon_store (snd (metricsHandler (hostAt 8)
                                  (snd (metricsHandler (hostAt 7) initialMonitor))))))
  = 2%nat.
Proof.
  exact (proj2 (proj2 (proj2 (C10_live_snapshot_appends (hostAt 7) initialMonitor)))
           (hostAt 8) _ _ eq_refl eq_refl ltac:(vm_compute; discriminate)).
Defined.

(** ** Projection *)

Lemma append_inj_r (p s t : string) : (p +:+ s = p +:+ t)%string -> s = t.
Proof.
  induction p as [|c p IH]; intros H; [exact H|].
  apply IH. now injection H.
Qed.

Lemma keys_distinct (path : string) :
  usedKey path <> freeKey path /\ usedKey path <> percentKey path
  /\ freeKey path <> percentKey path.
Proof.
  unfold usedKey, freeKey, percentKey.
  repeat split; intros H; apply append_inj_r in H; discriminate.
Qed.

Lemma seriesFor_lookup (path : string) (r : float64 * PartitionMetrics)
  (rs : list (float64 * PartitionMetrics)) :
  seriesFor path (r :: rs) !! usedKey path = Some (map usedPoint (r :: rs))
  /\ seriesFor path (r :: rs) !! freeKey path = Some (map freePoint (r :: rs))
  /\ seriesFor path (r :: rs) !! percentKey path = Some (map percentPoint (r :: rs)).
Proof.
  destruct (keys_distinct path) as (H1 & H2 & H3). unfold seriesFor.
  repeat split; now simplify_map_eq.
Qed.

Lemma seriesFor_keys (path key : string) (rs : list (float64 * PartitionMetrics)) :
  is_Some (seriesFor path rs !! key) ->
  rs <> [] /\ (key = usedKey path \/ key = freeKey path \/ key = percentKey path).
Proof.
  destruct rs as [|r rs]; simpl.
  - rewrite lookup_empty. intros [? ?]. discriminate.
  - intros H. split; [discriminate|].
    destruct (decide (key = percentKey path)); [tauto|].
    destruct (decide (key = freeKey path)); [tauto|].
    destruct (decide (key = usedKey path)); [tauto|].
    rewrite !lookup_insert_ne, lookup_empty in H by congruence.
    destruct H. discriminate.
Qed.

(** One turn of the inner loop, under a filter: a partition of another
    path is skipped, one of the filtered path adds a point to each of the
    three series. *)
Lemma projectPartition_filtered (pathFilter : string) (timestamp : float64)
  (rs : list (float64 * PartitionMetrics)) (partition : PartitionMetrics) :
  pathFilter <> EmptyString ->
  projectPartition pathFilter timestamp (seriesFor pathFilter rs) partition
  = seriesFor pathFilter
      (rs ++ if String.eqb (Path partition) pathFilter
             then [(timestamp, partition)] else []).
Proof.
  intros Hne. unfold projectPartition.
  destruct (String.eqb_spec pathFilter EmptyString) as [?|_]; [contradiction|].
  destruct (String.eqb_spec (Path partition) pathFilter) as [->|Hp]; simpl.
  2: now rewrite app_nil_r.
  fold (usedKey pathFilter) (freeKey pathFilter) (percentKey pathFilter).
  destruct (keys_distinct pathFilter) as (H1 & H2 & H3).
  apply map_eq. intros k.
  destruct rs as [|r rs].
  - simpl. rewrite lookup_empty.
    destruct (decide (k = percentKey pathFilter)) as [->|];
      [|destruct (decide (k = freeKey pathFilter)) as [->|];
        [|destruct (decide (k = usedKey pathFilter)) as [->|]]];
      now simplify_map_eq.
  - destruct (seriesFor_lookup pathFilter r rs) as (Eu & Ef & Ep).
    destruct (seriesFor_lookup pathFilter r (rs ++ [(timestamp, partition)]))
      as (Eu' & Ef' & Ep').
    change ((r :: rs) ++ [(timestamp, partition)])
      with (r :: rs ++ [(timestamp, partition)]).
    cbv zeta. unfold datapoint in *. rewrite Eu.
    destruct (decide (k = percentKey pathFilter)) as [->|];
      [|destruct (decide (k = freeKey pathFilter)) as [->|];
        [|destruct (decide (k = usedKey pathFilter)) as [->|]]];
      repeat first [ rewrite lookup_insert_eq
                   | rewrite lookup_insert_ne by congruence
                   | rewrite Eu | rewrite Ef | rewrite Ep
                   | rewrite Eu' | rewrite Ef' | rewrite Ep' ].
    + simpl. now rewrite map_app.
    + simpl. now rewrite map_app.
    + simpl. now rewrite map_app.
    + unfold seriesFor. now rewrite !lookup_insert_ne by congruence.
Qed.

Lemma projectSnapshot_filtered (pathFilter : string)
  (rs : list (float64 * PartitionMetrics)) (m : DiskMetrics) :
  pathFilter <> EmptyString ->
  projectSnapshot pathFilter (seriesFor pathFilter rs) m
  = seriesFor pathFilter (rs ++ readingsOf pathFilter [m]).
Proof.
  intros Hne. unfold projectSnapshot, readingsOf. simpl. rewrite app_nil_r.
  fold (timestampOf m). generalize (timestampOf m) as ts. intros ts.
  revert rs. induction (Partitions m) as [|p ps IH]; intros rs; simpl.
  - now rewrite app_nil_r.
  - rewrite (projectPartition_filtered _ _ _ _ Hne), IH, <- app_assoc.
    now destruct (String.eqb (Path p) pathFilter).
Qed.

Lemma readingsOf_app (path : string) (ms1 ms2 : list DiskMetrics) :
  readingsOf path (ms1 ++ ms2) = readingsOf path ms1 ++ readingsOf path ms2.
Proof. unfold readingsOf. apply flat_map_app. Qed.

(** Under a filter the map built by the two loops holds the three series
    of the filtered path, and only when that path has a reading. *)
Lemma project_filtered (metrics : list DiskMetrics) (pathFilter : string) :
  pathFilter <> EmptyString ->
  project metrics pathFilter = seriesFor pathFilter (readingsOf pathFilter metrics).
Proof.
  intros Hne. unfold project. change ∅ with (seriesFor pathFilter []).
  change (readingsOf pathFilter metrics) with ([] ++ readingsOf pathFilter metrics).
  generalize (@nil (float64 * PartitionMetrics)) as rs.
  induction metrics as [|m ms IH]; intros rs; simpl.
  - now rewrite app_nil_r.
  - rewrite (projectSnapshot_filtered _ _ _ Hne), IH, <- app_assoc.
    now rewrite <- (readingsOf_app pathFilter [m] ms).
Qed.

Lemma readingsOf_path (path : string) (metrics : list DiskMetrics)
  (r : float64 * PartitionMetrics) :
  In r (readingsOf path metrics) <->
  exists m, In m metrics /\ In (snd r) (Partitions m)
            /\ Path (snd r) = path /\ fst r = timestampOf m.
Proof.
  unfold readingsOf. rewrite in_flat_map. split.
  - intros (m & Hm & Hr). apply in_map_iff in Hr as (p & <- & Hp).
    apply List.filter_In in Hp as [Hp Hpath]. apply String.eqb_eq in Hpath.
    exists m. simpl. auto.
  - intros (m & Hm & Hp & Hpath & Hts). exists m. split; [assumption|].
    apply in_map_iff. exists (snd r). split.
    + rewrite <- Hts. now destruct r.
    + apply List.filter_In. split; [assumption|]. now apply String.eqb_eq.
Qed.

(** C6. With a non-empty path filter the mapping built by the handler
    is exactly the three series (Used, Free, Usage %) of the readings of
    the partitions whose path equals the filter, in ingestion order, and
    holds no other key; it is empty, and so is the response, when no
    partition of the range has that path, and it is empty for an empty
    range. *)
Theorem C6_projection_path_filter_exact
  (metrics : list DiskMetrics) (pathFilter : string) :
  pathFilter <> EmptyString ->
  project metrics pathFilter = seriesFor pathFilter (readingsOf pathFilter metrics)
  /\ (forall key, is_Some (project metrics pathFilter !! key) ->
        key = usedKey pathFilter \/ key = freeKey pathFilter
        \/ key = percentKey pathFilter)
  /\ (forall r, In r (readingsOf pathFilter metrics) ->
        Path (snd r) = pathFilter
        /\ exists m, In m metrics /\ In (snd r) (Partitions m)
                     /\ fst r = timestampOf m)
  /\ ((forall m p, In m metrics -> In p (Partitions m) -> Path p <> pathFilter) ->
      project metrics pathFilter = ∅
      /\ response_of (project metrics pathFilter) = [])
  /\ project [] pathFilter = ∅
  /\ response_of (project [] pathFilter) = [].
Proof.
  intros Hne. pose proof (project_filtered metrics pathFilter Hne) as E.
  split; [assumption|]. split; [|split; [|split; [|split]]].
  - intros key Hk. rewrite E in Hk. now apply seriesFor_keys in Hk.
  - intros r Hr. apply readingsOf_path in Hr as (m & Hm & Hp & Hpath & Hts). eauto.
  - intros Hnone.
    assert (Hrs : readingsOf pathFilter metrics = []).
    { destruct (readingsOf pathFilter metrics) as [|r rs] eqn:Er; [reflexivity|].
      exfalso. assert (Hr : In r (readingsOf pathFilter metrics))
        by (rewrite Er; now left).
      apply readingsOf_path in Hr as (m & Hm & Hp & Hpath & _).
      exact (Hnone m (snd r) Hm Hp Hpath). }
    rewrite E, Hrs. split; reflexivity.
  - reflexivity.
  - reflexivity.
Qed.

Lemma C6_projection_path_filter_exact_witness :
  project [twoPartitions 1; twoPartitions 2] "/"
  = seriesFor "/" (readingsOf "/" [twoPartitions 1; twoPartitions 2]).
Proof.
  exact (proj1 (C6_projection_path_filter_exact
                  [twoPartitions 1; twoPartitions 2] "/" ltac:(discriminate))).
Defined.

(** ** [sort.Slice] sorts *)

Section SwapFacts.
Context {A : Type}.
Implicit Types l : list A.

Lemma Swap_length l i j : length (GoSort.Swap l i j) = length l.
Proof.
  unfold GoSort.Swap. destruct (l !! i), (l !! j); try reflexivity.
  now rewrite !length_insert.
Qed.

Lemma Swap_lookup l i j k :
  (i < length l)%nat -> (j < length l)%nat ->
  GoSort.Swap l i j !! k
  = if decide (k = j) then l !! i else if decide (k = i) then l !! j else l !! k.
Proof.
  intros Hi Hj. unfold GoSort.Swap.
  destruct (lookup_lt_is_Some_2 l i Hi) as [x Hx].
  destruct (lookup_lt_is_Some_2 l j Hj) as [y Hy]. rewrite Hx, Hy.
  destruct (decide (k = j)) as [->|Hkj].
  - now rewrite list_lookup_insert_eq by now rewrite length_insert.
  - rewrite list_lookup_insert_ne by congruence.
    destruct (decide (k = i)) as [->|Hki].
    + now rewrite list_lookup_insert_eq.
    + now rewrite list_lookup_insert_ne by congruence.
Qed.

Lemma Swap_outside l i j : (length l <= i)%nat \/ (length l <= j)%nat ->
  GoSort.Swap l i j = l.
Proof.
  intros [H|H]; unfold GoSort.Swap.
  - now rewrite (lookup_ge_None_2 l i H).
  - rewrite (lookup_ge_None_2 l j H). now destruct (l !! i).
Qed.

Lemma Swap_same l i : GoSort.Swap l i i = l.
Proof.
  unfold GoSort.Swap. destruct (l !! i) as [x|] eqn:E; [|reflexivity].
  rewrite list_insert_insert_eq. now apply list_insert_id.
Qed.

Lemma Swap_Permutation l i j : GoSort.Swap l i j ≡ₚ l.
Proof.
  destruct (le_lt_dec (length l) i) as [Hi|Hi];
    [rewrite Swap_outside by auto; reflexivity|].
  destruct (le_lt_dec (length l) j) as [Hj|Hj];
    [rewrite Swap_outside by auto; reflexivity|].
  apply Permutation_inj. split; [apply Swap_length|].
  exists (fun k => if decide (k = j) then i else if decide (k = i) then j else k).
  split.
  - intros x y. repeat case_decide; subst; congruence.
  - intros k. rewrite Swap_lookup by assumption.
    repeat case_decide; subst; reflexivity.
Qed.

Lemma reach_trans a b l1 l2 l3 :
  reach a b l1 l2 -> reach a b l2 l3 -> reach a b l1 l3.
Proof.
  induction 1 as [|l l' i j Hi Hj Hb H IH]; [auto|]. intros H3.
  exact (reach_swap a b l l3 i j Hi Hj Hb (IH H3)).
Qed.

Lemma reach_length a b l l' : reach a b l l' -> length l' = length l.
Proof.
  induction 1 as [|l l' i j Hi Hj Hb H IH]; [reflexivity|].
  now rewrite IH, Swap_length.
Qed.

Lemma reach_step a b l i j :
  (a <= i < b)%nat -> (a <= j < b)%nat -> (b <= length l)%nat ->
  reach a b l (GoSort.Swap l i j).
Proof. intros Hi Hj Hb. exact (reach_swap a b l _ i j Hi Hj Hb (reach_refl _ _ _)). Qed.

Lemma reach_mono a b a' b' l l' :
  (a' <= a)%nat -> (b <= b')%nat -> (b' <= length l)%nat ->
  reach a b l l' -> reach a' b' l l'.
Proof.
  intros Ha Hb Hlen H. induction H as [|l l' i j Hi Hj Hbl H IH]; [apply reach_refl|].
  apply (reach_swap a' b' l l' i j); [lia | lia | lia |].
  apply IH. now rewrite Swap_length.
Qed.

Lemma reach_outside a b l l' k :
  reach a b l l' -> (k < a \/ b <= k)%nat -> l' !! k = l !! k.
Proof.
  induction 1 as [|l l' i j Hi Hj Hb H IH]; [reflexivity|]. intros Hk.
  rewrite IH by assumption. rewrite Swap_lookup by lia.
  repeat case_decide; subst; try lia. reflexivity.
Qed.

Lemma reach_Permutation a b l l' : reach a b l l' -> l' ≡ₚ l.
Proof.
  induction 1 as [|l l' i j Hi Hj Hb H IH]; [reflexivity|].
  rewrite IH. apply Swap_Permutation.
Qed.

Lemma reach_rangeAll (Q : A -> Prop) a b a' b' l l' :
  (a' <= a)%nat -> (b <= b')%nat ->
  reach a b l l' -> rangeAll Q a' b' l -> rangeAll Q a' b' l'.
Proof.
  intros Ha Hb H. induction H as [|l l' i j Hi Hj Hbl H IH]; [auto|].
  intros HQ. apply IH. intros k x Hk. rewrite Swap_lookup by lia.
  repeat case_decide; subst; intros Hx; (eapply HQ; [|eassumption]; lia).
Qed.

Lemma reach_Forall (Q : A -> Prop) a b l l' :
  reach a b l l' -> Forall Q l -> Forall Q l'.
Proof. intros H. now rewrite (reach_Permutation _ _ _ _ H). Qed.

End SwapFacts.

(** [by_range H]: close an order goal with the range fact [H], trying
    every pair of lookups in the context. *)
Ltac by_range H :=
  match goal with
  | Hx : ?l !! ?p = Some ?x, Hy : ?l !! ?q = Some ?y |- _ ?y ?x = false =>
      solve [apply (H p q x y); [lia.. | exact Hx | exact Hy]]
  end.

(** [by_lookups H]: close an order goal with [H], whose last two
    premises are the lookups of the two elements compared. *)
Ltac by_lookups H :=
  match goal with
  | Hx : _ !! _ = Some ?x, Hy : _ !! _ = Some ?y |- _ ?x ?y = false =>
      solve [eapply H; [.. | exact Hx | exact Hy]; lia]
  end.

(** [by_lookup H]: the same when the last premise of [H] is the lookup
    of the second element. *)
Ltac by_lookup H :=
  match goal with
  | Hy : _ !! _ = Some ?y |- _ _ ?y = false =>
      solve [eapply H; [.. | exact Hy]; lia]
  end.

(** Case analysis on the indices of a lookup in a swapped list. *)
Ltac swapped :=
  rewrite ?Swap_lookup by lia;
  repeat (case_decide; subst; try lia).

Section Sorting.
Context {A : Type} (less : A -> A -> bool) (P : A -> Prop).

(** [less] is a strict weak order on the elements that satisfy [P]. *)
Hypothesis less_asym :
  forall x y, P x -> P y -> less x y = true -> less y x = false.
Hypothesis less_negtrans :
  forall x y z, P x -> P y -> P z ->
    less y x = false -> less z y = false -> less z x = false.

Implicit Types l : list A.

Local Abbreviation Less := (GoSort.Less less).
Local Abbreviation Swap := GoSort.Swap.

Lemma less_irrefl x : P x -> less x x = false.
Proof.
  intros Hx. destruct (less x x) eqn:E; [|reflexivity].
  rewrite (less_asym x x Hx Hx E) in E. discriminate.
Qed.

Lemma less_trans_lt_le x y z :
  P x -> P y -> P z -> less x y = true -> less z y = false -> less x z = true.
Proof.
  intros Hx Hy Hz Hxy Hyz. destruct (less x z) eqn:E; [reflexivity|].
  rewrite (less_negtrans y z x Hy Hz Hx Hyz E) in Hxy. discriminate.
Qed.

Lemma less_trans_le_lt x y z :
  P x -> P y -> P z -> less y x = false -> less y z = true -> less x z = true.
Proof.
  intros Hx Hy Hz Hxy Hyz. destruct (less x z) eqn:E; [reflexivity|].
  rewrite (less_negtrans z x y Hz Hx Hy E Hxy) in Hyz. discriminate.
Qed.

Lemma P_lookup l k x : Forall P l -> l !! k = Some x -> P x.
Proof. intros H Hk. exact (Forall_lookup_1 P l k x H Hk). Qed.

Lemma Less_at l i j x y :
  l !! i = Some x -> l !! j = Some y -> Less l i j = less x y.
Proof. intros Hi Hj. unfold GoSort.Less. now rewrite Hi, Hj. Qed.

Lemma Less_true l i j :
  Less l i j = true ->
  exists x y, l !! i = Some x /\ l !! j = Some y /\ less x y = true.
Proof.
  unfold GoSort.Less. destruct (l !! i) as [x|], (l !! j) as [y|];
    try discriminate. eauto.
Qed.

Lemma Swap_Forall l i j : Forall P l -> Forall P (Swap l i j).
Proof. intros H. now rewrite Swap_Permutation. Qed.

(** *** Insertion sort *)

Lemma insertionSort_inner_spec (a i : nat) :
  forall j l,
    (a <= j <= i)%nat -> (i < length l)%nat -> Forall P l ->
    sortedRange less a j l ->
    sortedRange less j (S i) l ->
    (forall k1 k2 x y, (a <= k1 < j)%nat -> (j < k2 <= i)%nat ->
       l !! k1 = Some x -> l !! k2 = Some y -> less y x = false) ->
    reach a (S i) l (GoSort.insertionSort_inner less l a j)
    /\ reachStable less l (GoSort.insertionSort_inner less l a j)
    /\ sortedRange less a (S i) (GoSort.insertionSort_inner less l a j).
Proof.
  induction j as [|j IH]; intros l Hj Hi HP H1 H2 H3; simpl.
  - split; [apply reach_refl|]. split; [apply reachStable_refl|].
    replace a with O by lia. exact H2.
  - destruct (Nat.ltb_spec a (S j)) as [Ha|Ha]; simpl.
    + destruct (Less l (S j) j) eqn:HL.
      * apply Less_true in HL as (x0 & y0 & Hx0 & Hy0 & Hlt).
        pose proof (P_lookup _ _ _ HP Hx0) as Px0.
        pose proof (P_lookup _ _ _ HP Hy0) as Py0.
        destruct (IH (Swap l (S j) j)) as (R & S' & Srt).
        -- lia.
        -- now rewrite Swap_length.
        -- now apply Swap_Forall.
        -- intros k1 k2 x y Hk1 Hk12 Hk2. swapped. intros Hx Hy. by_range H1.
        -- intros k1 k2 x y Hk1 Hk12 Hk2. swapped; intros Hx Hy; simplify_eq;
             first [ solve [apply less_asym; assumption]
                   | by_range H3 | by_range H2 | by_range H1 ].
        -- intros k1 k2 x y Hk1 Hk2. swapped; intros Hx Hy; simplify_eq;
             first [ by_range H3 | by_range H1 ].
        -- split; [|split; [|exact Srt]].
           ++ apply (reach_swap a (S i) l _ (S j) j); [lia | lia | lia | exact R].
           ++ apply (reachStable_swap less l _ j); [|exact S'].
              now rewrite (Less_at _ _ _ _ _ Hx0 Hy0).
      * split; [apply reach_refl|]. split; [apply reachStable_refl|].
        destruct (lookup_lt_is_Some_2 l (S j) ltac:(lia)) as [x0 Hx0].
        destruct (lookup_lt_is_Some_2 l j ltac:(lia)) as [y0 Hy0].
        rewrite (Less_at _ _ _ _ _ Hx0 Hy0) in HL.
        pose proof (P_lookup _ _ _ HP Hx0) as Px0.
        pose proof (P_lookup _ _ _ HP Hy0) as Py0.
        intros k1 k2 x y Hk1 Hk12 Hk2 Hx Hy.
        destruct (le_lt_dec (S j) k1) as [Hc|Hc]; [eapply (H2 k1 k2); eauto; lia|].
        destruct (lt_eq_lt_dec k2 (S j)) as [[Hd|Hd]|Hd].
        -- eapply (H1 k1 k2); eauto; lia.
        -- subst k2. assert (y = x0) by congruence. subst y.
           destruct (decide (k1 = j)) as [->|Hne].
           ++ assert (x = y0) by congruence. now subst.
           ++ pose proof (P_lookup _ _ _ HP Hx) as Px.
              apply (less_negtrans x y0 x0); auto.
              eapply (H1 k1 j); eauto; lia.
        -- eapply (H3 k1 k2); eauto; lia.
    + split; [apply reach_refl|]. split; [apply reachStable_refl|].
      replace a with (S j) by lia. exact H2.
Qed.

Lemma insertionSort_loop_spec (a b : nat) :
  forall n l i,
    (a < i)%nat -> (i + n = b)%nat -> (b <= length l)%nat -> Forall P l ->
    sortedRange less a i l ->
    reach a b l (GoSort.insertionSort_loop less l a i n)
    /\ reachStable less l (GoSort.insertionSort_loop less l a i n)
    /\ sortedRange less a b (GoSort.insertionSort_loop less l a i n).
Proof.
  induction n as [|n IH]; intros l i Hai Hn Hb HP Hs; simpl.
  - split; [apply reach_refl|]. split; [apply reachStable_refl|].
    now replace b with i by lia.
  - assert (Hin : reach a (S i) l (GoSort.insertionSort_inner less l a i)
                  /\ reachStable less l (GoSort.insertionSort_inner less l a i)
                  /\ sortedRange less a (S i) (GoSort.insertionSort_inner less l a i)).
    { apply insertionSort_inner_spec; try assumption; try lia.
      unfold sortedRange. intros. lia. }
    destruct Hin as (R & S' & Srt).
    assert (Hrec : reach a b (GoSort.insertionSort_inner less l a i)
                     (GoSort.insertionSort_loop less
                        (GoSort.insertionSort_inner less l a i) a (S i) n)
                   /\ reachStable less (GoSort.insertionSort_inner less l a i)
                        (GoSort.insertionSort_loop less
                           (GoSort.insertionSort_inner less l a i) a (S i) n)
                   /\ sortedRange less a b
                        (GoSort.insertionSort_loop less
                           (GoSort.insertionSort_inner less l a i) a (S i) n)).
    { apply IH; try lia; try assumption.
      - rewrite (reach_length _ _ _ _ R). lia.
      - exact (reach_Forall _ _ _ _ _ R HP). }
    destruct Hrec as (R2 & S2 & Srt2).
    split; [|split; [|exact Srt2]].
    + eapply reach_trans; [|exact R2].
      apply (reach_mono a (S i)); [lia | lia | lia | exact R].
    + clear -S' S2. induction S' as [|l0 l1 j HL H IH']; [exact S2|].
      apply (reachStable_swap less l0 _ j HL). now apply IH'.
Qed.

Lemma reachStable_trans l1 l2 l3 :
  reachStable less l1 l2 -> reachStable less l2 l3 -> reachStable less l1 l3.
Proof.
  induction 1 as [|l0 l1 j HL H IH]; [auto|]. intros H3.
  exact (reachStable_swap less l0 _ j HL (IH H3)).
Qed.

Lemma insertionSort_func_spec (a b : nat) l :
  (b <= length l)%nat -> Forall P l ->
  reach a b l (GoSort.insertionSort_func less l a b)
  /\ reachStable less l (GoSort.insertionSort_func less l a b)
  /\ sortedRange less a b (GoSort.insertionSort_func less l a b).
Proof.
  intros Hb HP. unfold GoSort.insertionSort_func.
  destruct (le_lt_dec b (S a)) as [Hab|Hab].
  - replace (b - S a)%nat with O by lia. simpl.
    split; [apply reach_refl|]. split; [apply reachStable_refl|].
    unfold sortedRange. intros. lia.
  - apply insertionSort_loop_spec; try assumption; try lia.
    unfold sortedRange. intros. lia.
Qed.

(** *** Heap sort *)

Lemma siftDown_loop_S n l root hi first :
  GoSort.siftDown_loop less (S n) l root hi first
  = let child := (2 * root + 1)%nat in
    if (hi <=? child)%nat then l else
    let child :=
      if (child + 1 <? hi)%nat && Less l (first + child) (first + child + 1)
      then (child + 1)%nat else child in
    if negb (Less l (first + root) (first + child)) then l else
    GoSort.siftDown_loop less n (Swap l (first + root) (first + child)) child hi first.
Proof. reflexivity. Qed.

Lemma siftDown_loop_spec (first hi lo : nat) :
  forall n l r,
    (hi - r <= n)%nat -> (lo <= r)%nat -> (first + hi <= length l)%nat ->
    Forall P l ->
    (forall p, (lo <= p)%nat -> p <> r -> heapAt less first hi l p) ->
    (forall p c x y, (lo <= p)%nat -> (r = 2 * p + 1 \/ r = 2 * p + 2)%nat ->
       (c = 2 * r + 1 \/ c = 2 * r + 2)%nat -> (c < hi)%nat ->
       l !! (first + p)%nat = Some x -> l !! (first + c)%nat = Some y ->
       less x y = false) ->
    reach (first + lo) (first + hi) l (GoSort.siftDown_loop less n l r hi first)
    /\ heapFrom less lo first hi (GoSort.siftDown_loop less n l r hi first).
Proof.
  induction n as [|n IH]; intros l r Hn Hlo Hlen HP Hheap Hgrand.
  - simpl. split; [apply reach_refl|]. intros p Hp.
    destruct (decide (p = r)) as [->|Hne]; [|now apply Hheap].
    intros c x y Hc Hchi. lia.
  - rewrite siftDown_loop_S. cbv zeta.
    destruct (Nat.leb_spec hi (2 * r + 1)) as [Hleaf|Hchild].
    { split; [apply reach_refl|]. intros p Hp.
      destruct (decide (p = r)) as [->|Hne]; [|now apply Hheap].
      intros c x y Hc Hchi. lia. }
    destruct (lookup_lt_is_Some_2 l (first + r) ltac:(lia)) as [xr Hxr].
    pose proof (P_lookup _ _ _ HP Hxr) as Pxr.
    assert (Hkey : exists cs ys,
               (if (2 * r + 1 + 1 <? hi)%nat
                   && Less l (first + (2 * r + 1)) (first + (2 * r + 1) + 1)
                then (2 * r + 1 + 1)%nat else (2 * r + 1)%nat) = cs
               /\ (cs = 2 * r + 1 \/ cs = 2 * r + 2)%nat /\ (cs < hi)%nat
               /\ l !! (first + cs)%nat = Some ys
               /\ forall c y, (c = 2 * r + 1 \/ c = 2 * r + 2)%nat -> (c < hi)%nat ->
                    l !! (first + c)%nat = Some y -> less ys y = false).
    { destruct (lookup_lt_is_Some_2 l (first + (2 * r + 1)) ltac:(lia)) as [y1 Hy1].
      pose proof (P_lookup _ _ _ HP Hy1) as Py1.
      destruct (Nat.ltb_spec (2 * r + 1 + 1) hi) as [H2|H2]; cbn [andb].
      - destruct (lookup_lt_is_Some_2 l (first + (2 * r + 1) + 1) ltac:(lia))
          as [y2 Hy2].
        pose proof (P_lookup _ _ _ HP Hy2) as Py2.
        rewrite (Less_at _ _ _ _ _ Hy1 Hy2).
        destruct (less y1 y2) eqn:HL.
        + exists (2 * r + 1 + 1)%nat, y2. split; [reflexivity|].
          split; [lia|]. split; [lia|].
          split; [now replace (first + (2 * r + 1 + 1))%nat
                    with (first + (2 * r + 1) + 1)%nat by lia|].
          intros c y Hc Hchi Hy. destruct (decide (c = 2 * r + 1)%nat) as [->|Hne].
          * assert (y = y1) by congruence. subst. now apply less_asym.
          * replace (first + c)%nat with (first + (2 * r + 1) + 1)%nat in Hy by lia.
            assert (y = y2) by congruence. subst. now apply less_irrefl.
        + exists (2 * r + 1)%nat, y1. split; [reflexivity|].
          split; [lia|]. split; [lia|]. split; [assumption|].
          intros c y Hc Hchi Hy. destruct (decide (c = 2 * r + 1)%nat) as [->|Hne].
          * assert (y = y1) by congruence. subst. now apply less_irrefl.
          * replace (first + c)%nat with (first + (2 * r + 1) + 1)%nat in Hy by lia.
            assert (y = y2) by congruence. now subst.
      - exists (2 * r + 1)%nat, y1. split; [reflexivity|].
        split; [lia|]. split; [lia|]. split; [assumption|].
        intros c y Hc Hchi Hy. assert (c = 2 * r + 1)%nat by lia. subst c.
        assert (y = y1) by congruence. subst. now apply less_irrefl. }
    destruct Hkey as (cs & ys & -> & Hcs & Hcshi & Hys & HM).
    pose proof (P_lookup _ _ _ HP Hys) as Pys.
    rewrite (Less_at _ _ _ _ _ Hxr Hys).
    destruct (less xr ys) eqn:Hlt; simpl.
    + (* the root is less than its greater child: exchange and descend *)
      destruct (IH (Swap l (first + r) (first + cs)) cs) as [R Hh].
      * lia.
      * lia.
      * now rewrite Swap_length.
      * now apply Swap_Forall.
      * unfold heapAt in Hheap.
        intros p Hp Hpc c x y Hc Hchi. swapped; intros Hx Hy; simplify_eq;
          first [ solve [apply less_asym; assumption]
                | by_lookup HM | by_lookups Hgrand | by_lookups Hheap ].
      * unfold heapAt in Hheap.
        intros p c x y Hp Hpc Hc Hchi. swapped; intros Hx Hy; simplify_eq;
          by_lookups Hheap.
      * split; [|exact Hh].
        apply (reach_swap _ _ l _ (first + r) (first + cs)); [lia | lia | lia | exact R].
    + split; [apply reach_refl|]. intros p Hp.
      destruct (decide (p = r)) as [->|Hne]; [|now apply Hheap].
      intros c x y Hc Hchi Hx Hy. assert (x = xr) by congruence. subst x.
      pose proof (P_lookup _ _ _ HP Hy) as Py.
      apply (less_negtrans y ys xr); auto. eapply HM; eauto.
Qed.

Lemma siftDown_func_spec (first hi lo : nat) l :
  (first + hi <= length l)%nat -> Forall P l ->
  heapFrom less (S lo) first hi l ->
  reach (first + lo) (first + hi) l (GoSort.siftDown_func less l lo hi first)
  /\ heapFrom less lo first hi (GoSort.siftDown_func less l lo hi first).
Proof.
  intros Hlen HP Hheap. unfold GoSort.siftDown_func.
  apply siftDown_loop_spec; try assumption; try lia.
  intros p Hp Hne. apply Hheap. lia.
Qed.

(** The root of a heap is not less than any of its elements. *)
Lemma heap_root_max (first hi : nat) l x :
  (first + hi <= length l)%nat -> Forall P l ->
  heapFrom less 0 first hi l -> l !! first = Some x ->
  forall k y, (k < hi)%nat -> l !! (first + k)%nat = Some y -> less x y = false.
Proof.
  intros Hlen HP Hheap Hx k. induction k as [k IH] using lt_wf_ind.
  intros y Hk Hy. pose proof (P_lookup _ _ _ HP Hx) as Px.
  pose proof (P_lookup _ _ _ HP Hy) as Py.
  destruct k as [|k].
  - rewrite Nat.add_0_r in Hy. assert (y = x) by congruence. subst.
    now apply less_irrefl.
  - destruct (lookup_lt_is_Some_2 l (first + k / 2) ltac:(lia)) as [z Hz].
    pose proof (P_lookup _ _ _ HP Hz) as Pz.
    apply (less_negtrans y z x); auto.
    + apply (Hheap (k / 2)%nat ltac:(lia) (S k) z y); try assumption; lia.
    + apply (IH (k / 2)%nat); try assumption; lia.
Qed.

Lemma heapSort_build_spec (first hi : nat) :
  forall i l,
    (first + hi <= length l)%nat -> Forall P l ->
    heapFrom less (S i) first hi l ->
    reach first (first + hi) l (GoSort.heapSort_build less l i hi first)
    /\ heapFrom less 0 first hi (GoSort.heapSort_build less l i hi first).
Proof.
  induction i as [|i IH]; intros l Hlen HP Hheap; simpl.
  - destruct (siftDown_func_spec first hi 0 l Hlen HP Hheap) as [R Hh].
    rewrite Nat.add_0_r in R. now split.
  - destruct (siftDown_func_spec first hi (S i) l Hlen HP Hheap) as [R Hh].
    destruct (IH (GoSort.siftDown_func less l (S i) hi first)) as [R2 Hh2].
    + rewrite (reach_length _ _ _ _ R). lia.
    + exact (reach_Forall _ _ _ _ _ R HP).
    + exact Hh.
    + split; [|exact Hh2]. eapply reach_trans; [|exact R2].
      apply (reach_mono (first + S i) (first + hi)); [lia | lia | lia | exact R].
Qed.

Lemma heapSort_pop_spec (first hi : nat) :
  forall i l,
    (i < hi)%nat -> (first + hi <= length l)%nat -> Forall P l ->
    heapFrom less 0 first (S i) l ->
    sortedRange less (first + S i) (first + hi) l ->
    (forall k1 k2 x y, (first <= k1 <= first + i)%nat ->
       (first + i < k2 < first + hi)%nat ->
       l !! k1 = Some x -> l !! k2 = Some y -> less y x = false) ->
    reach first (first + hi) l (GoSort.heapSort_pop less l i first)
    /\ sortedRange less first (first + hi) (GoSort.heapSort_pop less l i first).
Proof.
  induction i as [|i IH]; intros l Hi Hlen HP Hheap Hsorted Hbelow.
  - simpl. rewrite Nat.add_0_r, Swap_same. unfold GoSort.siftDown_func. simpl.
    split; [apply reach_refl|].
    intros k1 k2 x y Hk1 Hk12 Hk2 Hx Hy.
    destruct (decide (k1 = first)) as [->|Hne].
    + by_range Hbelow.
    + by_range Hsorted.
  - cbn [GoSort.heapSort_pop].
    destruct (lookup_lt_is_Some_2 l first ltac:(lia)) as [m Hm].
    destruct (lookup_lt_is_Some_2 l (first + S i) ltac:(lia)) as [z Hz].
    pose proof (P_lookup _ _ _ HP Hm) as Pm.
    pose proof (heap_root_max first (S (S i)) l m ltac:(lia) HP Hheap Hm) as Hmax.
    set (l0 := Swap l first (first + S i)).
    assert (Hlen0 : length l0 = length l) by apply Swap_length.
    assert (HP0 : Forall P l0) by now apply Swap_Forall.
    assert (Hheap0 : heapFrom less 1 first (S i) l0).
    { intros p Hp c x y Hc Hchi. unfold l0. swapped; intros Hx Hy.
      apply (Hheap p ltac:(lia) c x y); try assumption; lia. }
    destruct (siftDown_func_spec first (S i) 0 l0 ltac:(lia) HP0 Hheap0) as [R Hh].
    rewrite Nat.add_0_r in R.
    set (l1 := GoSort.siftDown_func less l0 0 (S i) first) in *.
    assert (Hlen1 : length l1 = length l) by (rewrite (reach_length _ _ _ _ R); lia).
    assert (Hout : forall k, (first + S i <= k)%nat -> l1 !! k = l0 !! k).
    { intros k Hk. apply (reach_outside _ _ _ _ _ R). lia. }
    assert (Hin : rangeAll
              (fun x => less m x = false
                        /\ forall k2 y, (first + S i < k2 < first + hi)%nat ->
                             l !! k2 = Some y -> less y x = false)
              first (first + S i) l1).
    { apply (reach_rangeAll _ first (first + S i) first (first + S i) l0 l1);
        [lia | lia | exact R |].
      intros k x Hk. unfold l0. swapped; intros Hx.
      - split.
        + apply (Hmax (S i) x); [lia | exact Hx].
        + intros k2 y Hk2 Hy. by_range Hbelow.
      - split.
        + apply (Hmax (k - first)%nat x); [lia|].
          now replace (first + (k - first))%nat with k by lia.
        + intros k2 y Hk2 Hy. by_range Hbelow. }
    destruct (IH l1) as [R2 Hs2].
    + lia.
    + lia.
    + exact (reach_Forall _ _ _ _ _ R HP0).
    + exact Hh.
    + intros k1 k2 x y Hk1 Hk12 Hk2. rewrite !Hout by lia. unfold l0.
      swapped; intros Hx Hy; simplify_eq.
      * by_range Hbelow.
      * by_range Hsorted.
    + intros k1 k2 x y Hk1 Hk2 Hx. rewrite Hout by lia. unfold l0.
      destruct (Hin k1 x ltac:(lia) Hx) as [Hxm Hxk].
      swapped; intros Hy; simplify_eq.
      * exact Hxm.
      * apply (Hxk k2 y); [lia | exact Hy].
    + split; [|exact Hs2].
      apply (reach_swap _ _ l _ first (first + S i)); [lia | lia | lia |].
      fold l0. eapply reach_trans; [|exact R2].
      apply (reach_mono first (first + S i)); [lia | lia | lia | exact R].
Qed.

Lemma heapSort_func_spec (a b : nat) l :
  (a < b)%nat -> (b <= length l)%nat -> Forall P l ->
  reach a b l (GoSort.heapSort_func less l a b)
  /\ sortedRange less a b (GoSort.heapSort_func less l a b).
Proof.
  intros Hab Hb HP. unfold GoSort.heapSort_func. cbv zeta.
  destruct (heapSort_build_spec a (b - a) ((b - a - 1) / 2) l) as [R Hh];
    [lia | assumption | |].
  { intros p Hp c x y Hc Hchi. lia. }
  destruct (heapSort_pop_spec a (b - a) (b - a - 1)
              (GoSort.heapSort_build less l ((b - a - 1) / 2) (b - a) a))
    as [R2 Hs2].
  - lia.
  - rewrite (reach_length _ _ _ _ R). lia.
  - exact (reach_Forall _ _ _ _ _ R HP).
  - now replace (S (b - a - 1)) with (b - a)%nat by lia.
  - unfold sortedRange. intros. lia.
  - intros. lia.
  - replace (a + (b - a))%nat with b in * by lia. split; [|exact Hs2].
    eapply reach_trans; eassumption.
Qed.

(** *** The two partitions *)

Lemma scan_up_spec (p : nat -> bool) :
  forall n i,
    (i <= GoSort.scan_up p i n <= i + n)%nat
    /\ (forall k, (i <= k < GoSort.scan_up p i n)%nat -> p k = true)
    /\ ((GoSort.scan_up p i n < i + n)%nat -> p (GoSort.scan_up p i n) = false).
Proof.
  induction n as [|n IH]; intros i; simpl.
  - repeat split; intros; lia.
  - destruct (p i) eqn:E.
    + destruct (IH (S i)) as (H1 & H2 & H3). repeat split; try lia.
      * intros k Hk. destruct (decide (k = i)) as [->|Hne]; [assumption|].
        apply H2. lia.
      * intros Hlt. apply H3. lia.
    + repeat split; intros; try lia; try assumption.
Qed.

Lemma scan_down_spec (p : nat -> bool) :
  forall n j, (n <= j)%nat ->
    (j - n <= GoSort.scan_down p j n <= j)%nat
    /\ (forall k, (GoSort.scan_down p j n < k <= j)%nat -> p k = true)
    /\ ((j - n < GoSort.scan_down p j n)%nat -> p (GoSort.scan_down p j n) = false).
Proof.
  induction n as [|n IH]; intros j Hn; simpl.
  - repeat split; intros; lia.
  - destruct (p j) eqn:E.
    + destruct (IH (j - 1)%nat ltac:(lia)) as (H1 & H2 & H3). repeat split; try lia.
      * intros k Hk. destruct (decide (k = j)) as [->|Hne]; [assumption|].
        apply H2. lia.
      * intros Hlt. apply H3. lia.
    + repeat split; intros; try lia; try assumption.
Qed.

Section Cross.
Variables (L : A -> bool) (up down : list A -> nat -> bool) (a b : nat) (p : A).
Hypothesis up_L : forall l k x,
  l !! a = Some p -> l !! k = Some x -> up l k = L x.
Hypothesis down_L : forall l k x,
  l !! a = Some p -> l !! k = Some x -> down l k = negb (L x).

Lemma crossLoop_spec :
  forall n l i j,
    (S j - i <= n)%nat -> (b <= length l)%nat ->
    crossInv L a b p l i j ->
    exists l' i' j',
      crossLoop up down n l i j = (l', i', j')
      /\ reach (S a) b l l' /\ crossInv L a b p l' i' j' /\ (j' < i')%nat.
Proof.
  induction n as [|n IH]; intros l i j Hn Hb (Hai & Hij & Hjb & Hp & Hlo & Hhi).
  - exists l, i, j. simpl. split; [reflexivity|]. split; [apply reach_refl|].
    split; [|lia]. repeat split; assumption || lia.
  - cbn [crossLoop].
    destruct (scan_up_spec (up l) (S j - i) i) as (U1 & U2 & U3).
    set (i1 := GoSort.scan_up (up l) i (S j - i)) in *.
    destruct (scan_down_spec (down l) (S j - i1) j ltac:(lia)) as (D1 & D2 & D3).
    set (j1 := GoSort.scan_down (down l) j (S j - i1)) in *.
    assert (Hlo1 : rangeAll (fun x => L x = true) (S a) i1 l).
    { intros k x Hk Hx. destruct (le_lt_dec i k) as [Hik|Hik].
      - rewrite <- (up_L l k x Hp Hx). apply U2. lia.
      - apply (Hlo k x); [lia | assumption]. }
    assert (Hhi1 : rangeAll (fun x => L x = false) (S j1) b l).
    { intros k x Hk Hx. destruct (le_lt_dec k j) as [Hkj|Hkj].
      - apply negb_true_iff. rewrite <- (down_L l k x Hp Hx). apply D2. lia.
      - apply (Hhi k x); [lia | assumption]. }
    destruct (Nat.ltb_spec j1 i1) as [Hc|Hc].
    + exists l, i1, j1. split; [reflexivity|]. split; [apply reach_refl|].
      split; [|assumption]. repeat split; assumption || lia.
    + destruct (lookup_lt_is_Some_2 l i1 ltac:(lia)) as [xi Hxi].
      destruct (lookup_lt_is_Some_2 l j1 ltac:(lia)) as [xj Hxj].
      assert (Hi1 : L xi = false).
      { rewrite <- (up_L l i1 xi Hp Hxi). apply U3. lia. }
      assert (Hj1 : L xj = true).
      { apply negb_false_iff. rewrite <- (down_L l j1 xj Hp Hxj). apply D3. lia. }
      assert (Hne : i1 <> j1) by (intros E; rewrite E in Hxi; congruence).
      destruct (IH (Swap l i1 j1) (S i1) (j1 - 1)%nat) as (l' & i' & j' & E & R & I & C).
      * lia.
      * now rewrite Swap_length.
      * repeat split; try lia.
        -- swapped. assumption.
        -- intros k x Hk. swapped; intros Hx; simplify_eq; try assumption.
           apply (Hlo1 k x); [lia | assumption].
        -- intros k x Hk. swapped; intros Hx; simplify_eq; try assumption.
           apply (Hhi1 k x); [lia | assumption].
      * exists l', i', j'. split; [exact E|]. split; [|split; assumption].
        apply (reach_swap _ _ l _ i1 j1); [lia | lia | lia | exact R].
Qed.

End Cross.

Lemma partition_loop_cross (a : nat) :
  forall n l i j,
    GoSort.partition_loop less n l a i j
    = crossLoop (fun l i => Less l i a) (fun l j => negb (Less l j a)) n l i j.
Proof.
  induction n as [|n IH]; intros l i j; [reflexivity|].
  cbn [GoSort.partition_loop crossLoop]. destruct (_ <? _)%nat; [reflexivity|].
  apply IH.
Qed.

Lemma partitionEqual_loop_cross (a : nat) :
  forall n l i j,
    GoSort.partitionEqual_loop less n l a i j
    = let '(l', i', _) :=
        crossLoop (fun l i => negb (Less l a i)) (fun l j => Less l a j) n l i j in
      (l', i').
Proof.
  induction n as [|n IH]; intros l i j; [reflexivity|].
  cbn [GoSort.partitionEqual_loop crossLoop]. destruct (_ <? _)%nat; [reflexivity|].
  apply IH.
Qed.

(** [partition_func] moves the pivot to [mid], the elements less than it
    before [mid] and the others after. *)
Lemma partition_func_spec (a b pivot : nat) (p : A) l :
  (a <= pivot < b)%nat -> (b <= length l)%nat -> l !! pivot = Some p ->
  exists l' mid flag,
    GoSort.partition_func less l a b pivot = (l', mid, flag)
    /\ reach a b l l' /\ (a <= mid < b)%nat /\ l' !! mid = Some p
    /\ rangeAll (fun x => less x p = true) a mid l'
    /\ rangeAll (fun x => less x p = false) (S mid) b l'.
Proof.
  intros Hpiv Hb Hp.
  set (l0 := Swap l a pivot).
  assert (Hl0 : length l0 = length l) by apply Swap_length.
  assert (Hp0 : l0 !! a = Some p).
  { unfold l0. swapped; assumption. }
  destruct (crossLoop_spec (fun x => less x p)
              (fun l i => Less l i a) (fun l j => negb (Less l j a)) a b p)
    with (n := S (b - a)) (l := l0) (i := S a) (j := (b - 1)%nat)
    as (l2 & i2 & j2 & E & R & (I1 & I2 & I3 & I4 & I5 & I6) & C).
  - intros l1 k x H1 H2. apply (Less_at _ _ _ _ _ H2 H1).
  - intros l1 k x H1 H2. now rewrite (Less_at _ _ _ _ _ H2 H1).
  - lia.
  - lia.
  - repeat split; try lia; try assumption.
    + intros k x Hk. lia.
    + intros k x Hk. lia.
  - assert (Hl2 : length l2 = length l) by (rewrite (reach_length _ _ _ _ R); lia).
    assert (Hfun : exists flag,
              GoSort.partition_func less l a b pivot = (Swap l2 j2 a, j2, flag)).
    { unfold GoSort.partition_func. fold l0. cbv zeta.
      cbn [crossLoop] in E. destruct (_ <? _)%nat.
      - injection E as <- <- <-. eauto.
      - rewrite partition_loop_cross, E. eauto. }
    destruct Hfun as [flag Hfun].
    exists (Swap l2 j2 a), j2, flag. split; [exact Hfun|].
    split; [|split; [lia|split; [|split]]].
    + apply (reach_swap _ _ l _ a pivot); [lia | lia | lia |]. fold l0.
      eapply reach_trans.
      * apply (reach_mono (S a) b); [lia | lia | lia | exact R].
      * apply reach_step; lia.
    + swapped; assumption.
    + intros k x Hk. swapped; intros Hx.
      * apply (I5 j2 x); [lia | assumption].
      * apply (I5 k x); [lia | assumption].
    + intros k x Hk. swapped; intros Hx.
      apply (I6 k x); [lia | assumption].
Qed.

(** [partitionEqual_func], on a slice none of whose elements is less
    than the pivot: the elements the pivot is not less than come before
    [mid], those it is less than from [mid] on. *)
Lemma partitionEqual_func_spec (a b pivot : nat) (p : A) l :
  (a <= pivot < b)%nat -> (b <= length l)%nat -> Forall P l ->
  l !! pivot = Some p ->
  exists l' mid,
    GoSort.partitionEqual_func less l a b pivot = (l', mid)
    /\ reach a b l l' /\ (a < mid <= b)%nat
    /\ rangeAll (fun x => less p x = false) a mid l'
    /\ rangeAll (fun x => less p x = true) mid b l'.
Proof.
  intros Hpiv Hb HP Hp.
  set (l0 := Swap l a pivot).
  assert (Hl0 : length l0 = length l) by apply Swap_length.
  assert (Hp0 : l0 !! a = Some p).
  { unfold l0. swapped; assumption. }
  destruct (crossLoop_spec (fun x => negb (less p x))
              (fun l i => negb (Less l a i)) (fun l j => Less l a j) a b p)
    with (n := (b - a)%nat) (l := l0) (i := S a) (j := (b - 1)%nat)
    as (l2 & i2 & j2 & E & R & (I1 & I2 & I3 & I4 & I5 & I6) & C).
  - intros l1 k x H1 H2. now rewrite (Less_at _ _ _ _ _ H1 H2).
  - intros l1 k x H1 H2. rewrite (Less_at _ _ _ _ _ H1 H2).
    now rewrite negb_involutive.
  - lia.
  - lia.
  - repeat split; try lia; try assumption.
    + intros k x Hk. lia.
    + intros k x Hk. lia.
  - exists l2, i2. split.
    { unfold GoSort.partitionEqual_func. fold l0.
      now rewrite partitionEqual_loop_cross, E. }
    split; [|split; [lia|split]].
    + apply (reach_swap _ _ l _ a pivot); [lia | lia | lia |]. fold l0.
      apply (reach_mono (S a) b); [lia | lia | lia | exact R].
    + intros k x Hk Hx. destruct (decide (k = a)) as [->|Hne].
      * assert (x = p) by congruence. subst.
        apply less_irrefl. exact (P_lookup _ _ _ HP Hp).
      * apply negb_true_iff. apply (I5 k x); [lia | assumption].
    + intros k x Hk Hx. apply negb_false_iff. apply (I6 k x); [lia | assumption].
Qed.

(** *** The helpers of the main loop *)

Lemma reverseRange_loop_reach (a b : nat) :
  forall n l i j,
    (a <= i)%nat -> (j < b)%nat -> (b <= length l)%nat ->
    reach a b l (GoSort.reverseRange_loop n l i j).
Proof.
  induction n as [|n IH]; intros l i j Hi Hj Hb; simpl; [apply reach_refl|].
  destruct (Nat.ltb_spec i j) as [Hij|Hij]; [|apply reach_refl].
  apply (reach_swap _ _ l _ i j); [lia | lia | lia |].
  apply IH; [lia | lia | now rewrite Swap_length].
Qed.

Lemma reverseRange_func_reach (a b : nat) l :
  (a < b)%nat -> (b <= length l)%nat ->
  reach a b l (GoSort.reverseRange_func l a b).
Proof. intros Hab Hb. apply reverseRange_loop_reach; lia. Qed.

Lemma nextPowerOfTwo_le (n : nat) :
  (0 < n)%nat -> 0 < GoSort.nextPowerOfTwo n <= 2 * Z.of_nat n.
Proof.
  intros Hn. unfold GoSort.nextPowerOfTwo, GoBits.Len.
  destruct n as [|n]; [lia|].
  rewrite Nat2Z.inj_succ, Z.pow_succ_r by lia.
  pose proof (Nat.log2_spec (S n) ltac:(lia)) as [Hlo _].
  assert (H2 : 2 ^ Z.of_nat (Nat.log2 (S n)) = Z.of_nat (2 ^ Nat.log2 (S n))).
  { rewrite Nat2Z.inj_pow. reflexivity. }
  pose proof (Z.pow_pos_nonneg 2 (Z.of_nat (Nat.log2 (S n))) ltac:(lia) ltac:(lia)).
  lia.
Qed.

Lemma breakPatterns_other (len : nat) (random : Z) :
  (0 < len)%nat ->
  let other := Z.to_nat (Z.land random (GoSort.nextPowerOfTwo len - 1)) in
  ((if (len <=? other)%nat then (other - len)%nat else other) < len)%nat.
Proof.
  intros Hlen other.
  assert (Hother : (Z.of_nat other < 2 * Z.of_nat len)).
  { unfold other, GoSort.nextPowerOfTwo.
    pose proof (nextPowerOfTwo_le len Hlen) as [_ Hle].
    unfold GoSort.nextPowerOfTwo in Hle.
    replace (2 ^ Z.of_nat (GoBits.Len len) - 1)
      with (Z.ones (Z.of_nat (GoBits.Len len))) by (rewrite Z.ones_equiv; lia).
    rewrite Z.land_ones by lia.
    pose proof (Z.mod_pos_bound random (2 ^ Z.of_nat (GoBits.Len len))
                  ltac:(apply Z.pow_pos_nonneg; lia)).
    lia. }
  destruct (Nat.leb_spec len other); lia.
Qed.

Lemma breakPatterns_loop_reach (a b len idx : nat) (modulus : Z) :
  (0 < len)%nat -> (a + len = b)%nat -> modulus = GoSort.nextPowerOfTwo len ->
  (a + 1 <= idx)%nat -> (idx + 2 <= b)%nat ->
  forall n l random i,
    (i + n <= 3)%nat -> (b <= length l)%nat ->
    reach a b l (GoSort.breakPatterns_loop n l a len idx random modulus i).
Proof.
  intros Hlen Hab -> Hidx1 Hidx2.
  induction n as [|n IH]; intros l random i Hi Hb; simpl; [apply reach_refl|].
  pose proof (breakPatterns_other len (GoSort.xorshift_Next random) Hlen) as Ho.
  cbv zeta in Ho.
  set (other := if (len <=? _)%nat then _ else _) in *.
  apply (reach_swap _ _ l _ (idx - 1 + i) (a + other)); [lia | lia | lia |].
  apply IH; [lia | now rewrite Swap_length].
Qed.

Lemma breakPatterns_func_reach (a b : nat) l :
  (b <= length l)%nat -> reach a b l (GoSort.breakPatterns_func l a b).
Proof.
  intros Hb. unfold GoSort.breakPatterns_func.
  destruct (Nat.leb_spec 8 (b - a)) as [H8|H8]; [|apply reach_refl].
  apply breakPatterns_loop_reach; try lia; reflexivity.
Qed.

Lemma order2_func_in l (x y s : nat) :
  let '(x', y', _) := GoSort.order2_func less l x y s in
  (x' = x /\ y' = y) \/ (x' = y /\ y' = x).
Proof. unfold GoSort.order2_func. destruct (Less l y x); auto. Qed.

Lemma median_func_in l (x y z s : nat) :
  let m := fst (GoSort.median_func less l x y z s) in m = x \/ m = y \/ m = z.
Proof.
  unfold GoSort.median_func.
  pose proof (order2_func_in l x y s) as H1.
  destruct (GoSort.order2_func less l x y s) as [[x1 y1] s1].
  pose proof (order2_func_in l y1 z s1) as H2.
  destruct (GoSort.order2_func less l y1 z s1) as [[y2 z2] s2].
  pose proof (order2_func_in l x1 y2 s2) as H3.
  destruct (GoSort.order2_func less l x1 y2 s2) as [[x3 y3] s3].
  simpl. lia.
Qed.

Lemma choosePivot_func_range l (a b : nat) :
  (8 <= b - a)%nat ->
  (a <= fst (GoSort.choosePivot_func less l a b) < b)%nat.
Proof.
  intros H8. unfold GoSort.choosePivot_func. cbv zeta.
  destruct (Nat.leb_spec 8 (b - a)) as [_|?]; [|lia].
  set (i := (a + (b - a) / 4 * 1)%nat).
  set (j := (a + (b - a) / 4 * 2)%nat).
  set (k := (a + (b - a) / 4 * 3)%nat).
  assert (Hr : (a < i /\ i < j /\ j < k /\ k < b)%nat) by (unfold i, j, k; lia).
  assert (Hfin : forall i' j' k' s,
            (a <= i' < b)%nat -> (a <= j' < b)%nat -> (a <= k' < b)%nat ->
            let '(m, swaps) := GoSort.median_func less l i' j' k' s in
            (a <= fst (if (swaps =? 0)%nat then (m, GoSort.increasingHint)
                       else if (swaps =? GoSort.maxSwaps)%nat
                            then (m, GoSort.decreasingHint)
                            else (m, GoSort.unknownHint)) < b)%nat).
  { intros i' j' k' s Hi' Hj' Hk'.
    pose proof (median_func_in l i' j' k' s) as Hm.
    destruct (GoSort.median_func less l i' j' k' s) as [m swaps]. simpl in Hm.
    destruct (swaps =? 0)%nat; [simpl; lia|].
    destruct (swaps =? GoSort.maxSwaps)%nat; simpl; lia. }
  destruct (Nat.leb_spec GoSort.shortestNinther (b - a)) as [H50|H50].
  - unfold GoSort.shortestNinther in H50. unfold GoSort.medianAdjacent_func.
    pose proof (median_func_in l (i - 1) i (i + 1) 0) as Hi.
    destruct (GoSort.median_func less l (i - 1) i (i + 1) 0) as [i' s1].
    pose proof (median_func_in l (j - 1) j (j + 1) s1) as Hj.
    destruct (GoSort.median_func less l (j - 1) j (j + 1) s1) as [j' s2].
    pose proof (median_func_in l (k - 1) k (k + 1) s2) as Hk.
    destruct (GoSort.median_func less l (k - 1) k (k + 1) s2) as [k' s3].
    simpl in Hi, Hj, Hk.
    specialize (Hfin i' j' k' s3 ltac:(lia) ltac:(lia) ltac:(lia)).
    destruct (GoSort.median_func less l i' j' k' s3) as [m swaps]. exact Hfin.
  - specialize (Hfin i j k O ltac:(lia) ltac:(lia) ltac:(lia)).
    destruct (GoSort.median_func less l i j k 0) as [m swaps]. exact Hfin.
Qed.

Lemma lowerBound_reach (a b : nat) l l' :
  reach a b l l' -> lowerBound less a b l -> lowerBound less a b l'.
Proof.
  intros R Hlow q Ha Hq. rewrite (reach_outside _ _ _ _ _ R) in Hq by lia.
  apply (reach_rangeAll _ a b a b l l'); [lia | lia | exact R | now apply Hlow].
Qed.

Lemma rangeAll_outside (Q : A -> Prop) (a b a' b' : nat) l l' :
  reach a b l l' -> (b' <= a \/ b <= a')%nat ->
  rangeAll Q a' b' l -> rangeAll Q a' b' l'.
Proof.
  intros R Hd HQ k x Hk. rewrite (reach_outside _ _ _ _ _ R) by lia.
  now apply HQ.
Qed.

Lemma sortedRange_outside (a b a' b' : nat) l l' :
  reach a b l l' -> (b' <= a \/ b <= a')%nat ->
  sortedRange less a' b' l -> sortedRange less a' b' l'.
Proof.
  intros R Hd Hs i j x y Hi Hij Hj.
  rewrite !(reach_outside _ _ _ _ _ R) by lia. now apply Hs.
Qed.

(** Under the lower bound the left shift of [partialInsertionSort_func],
    which runs down to index 1, stops where the insertion loop stops. *)
Lemma shiftLeft_inner (a b : nat) :
  forall j l,
    (a <= j < b)%nat -> (b <= length l)%nat -> lowerBound less a b l ->
    GoSort.shiftLeft less l j = GoSort.insertionSort_inner less l a j.
Proof.
  induction j as [|j IH]; intros l Hj Hb Hlow; [reflexivity|].
  cbn [GoSort.shiftLeft GoSort.insertionSort_inner].
  destruct (Nat.ltb_spec a (S j)) as [Ha|Ha]; cbn [andb].
  - destruct (Less l (S j) j); cbn [negb]; [|reflexivity].
    apply IH; [lia | now rewrite Swap_length |].
    apply (lowerBound_reach a b l); [apply reach_step; lia | assumption].
  - assert (a = S j) by lia. subst a.
    destruct (lookup_lt_is_Some_2 l (S j) ltac:(lia)) as [x Hx].
    destruct (lookup_lt_is_Some_2 l j ltac:(lia)) as [q Hq].
    rewrite (Less_at _ _ _ _ _ Hx Hq).
    rewrite (Hlow q ltac:(lia)
               ltac:(now replace (S j - 1)%nat with j by lia) (S j) x ltac:(lia) Hx).
    reflexivity.
Qed.

Lemma shiftRight_reach (b : nat) :
  forall n l j,
    (0 < j)%nat -> (j + n <= b)%nat -> (b <= length l)%nat ->
    reach (j - 1) b l (GoSort.shiftRight less l j n).
Proof.
  induction n as [|n IH]; intros l j Hj Hn Hb; simpl; [apply reach_refl|].
  destruct (Less l j (j - 1)); simpl; [|apply reach_refl].
  apply (reach_swap _ _ l _ j (j - 1)); [lia | lia | lia |].
  apply (reach_mono (S j - 1) b); [lia | lia | now rewrite Swap_length |].
  apply IH; [lia | lia | now rewrite Swap_length].
Qed.

(** A sorted prefix grows over the indices at which the element is not
    less than the one before it. *)
Lemma sortedRange_extend (a i i1 : nat) l :
  (a < i <= i1)%nat -> (i1 <= length l)%nat -> Forall P l ->
  sortedRange less a i l ->
  (forall k, (i <= k < i1)%nat -> Less l k (k - 1) = false) ->
  sortedRange less a i1 l.
Proof.
  intros Hi Hlen HP Hs Hadj. induction i1 as [|i1 IH]; [lia|].
  destruct (decide (i = S i1)) as [->|Hne]; [assumption|].
  assert (Hs1 : sortedRange less a i1 l).
  { apply IH; [lia | lia |]. intros k Hk. apply Hadj. lia. }
  intros k1 k2 x y Hk1 Hk12 Hk2 Hx Hy.
  destruct (decide (k2 = i1)) as [->|Hk2'].
  - destruct (lookup_lt_is_Some_2 l (i1 - 1) ltac:(lia)) as [z Hz].
    pose proof (Hadj i1 ltac:(lia)) as Hl. rewrite (Less_at _ _ _ _ _ Hy Hz) in Hl.
    destruct (decide (k1 = i1 - 1)%nat) as [->|Hk1'].
    + assert (x = z) by congruence. now subst.
    + apply (less_negtrans x z y); eauto using P_lookup.
      apply (Hs1 k1 (i1 - 1)%nat x z); try assumption; lia.
  - apply (Hs1 k1 k2 x y); try assumption; lia.
Qed.

Lemma partialInsertionSort_loop_spec (a b : nat) :
  forall steps l i,
    (a < i <= b)%nat -> (b <= length l)%nat -> Forall P l ->
    lowerBound less a b l -> sortedRange less a i l ->
    reach a b l (fst (GoSort.partialInsertionSort_loop less steps l a b i))
    /\ (snd (GoSort.partialInsertionSort_loop less steps l a b i) = true ->
        sortedRange less a b
          (fst (GoSort.partialInsertionSort_loop less steps l a b i))).
Proof.
  induction steps as [|steps IH]; intros l i Hi Hb HP Hlow Hs.
  - simpl. split; [apply reach_refl | discriminate].
  - cbn [GoSort.partialInsertionSort_loop].
    destruct (scan_up_spec (fun i => negb (Less l i (i - 1))) (b - i) i)
      as (U1 & U2 & U3).
    set (i1 := GoSort.scan_up _ i (b - i)) in *.
    assert (Hs1 : sortedRange less a i1 l).
    { apply (sortedRange_extend a i i1); try assumption; try lia.
      intros k Hk. apply negb_true_iff. apply U2. lia. }
    destruct (Nat.eqb_spec i1 b) as [->|Hne].
    { simpl. split; [apply reach_refl | intros _; assumption]. }
    destruct (Nat.ltb_spec (b - a) GoSort.shortestShifting) as [Hshort|Hlong].
    { simpl. split; [apply reach_refl | discriminate]. }
    set (l1 := Swap l i1 (i1 - 1)).
    assert (R1 : reach a b l l1) by (apply reach_step; lia).
    assert (Hlen1 : length l1 = length l) by apply Swap_length.
    set (l2 := if (2 <=? i1 - a)%nat then GoSort.shiftLeft less l1 (i1 - 1) else l1).
    assert (H2 : reach a i1 l1 l2 /\ sortedRange less a i1 l2).
    { assert (Hpre : sortedRange less a (i1 - 1) l1).
      { intros k1 k2 x y Hk1 Hk12 Hk2. unfold l1. swapped. intros Hx Hy.
        apply (Hs1 k1 k2 x y); try assumption; lia. }
      unfold l2. destruct (Nat.leb_spec 2 (i1 - a)) as [H2|H2].
      - rewrite (shiftLeft_inner a b); [|lia|lia|].
        2: exact (lowerBound_reach a b l l1 R1 Hlow).
        destruct (insertionSort_inner_spec a (i1 - 1) (i1 - 1) l1) as (R & _ & S');
          try assumption; try lia.
        + exact (reach_Forall _ _ _ _ _ R1 HP).
        + unfold sortedRange. intros. lia.
        + replace (S (i1 - 1)) with i1 in * by lia. now split.
      - split; [apply reach_refl|]. unfold sortedRange. intros. lia. }
    destruct H2 as [R2 Hs2].
    assert (Hlen2 : length l2 = length l)
      by (rewrite (reach_length _ _ _ _ R2); lia).
    set (l3 := if (2 <=? b - i1)%nat
               then GoSort.shiftRight less l2 (i1 + 1) (b - (i1 + 1)) else l2).
    assert (R3 : reach i1 b l2 l3).
    { unfold l3. destruct (Nat.leb_spec 2 (b - i1)); [|apply reach_refl].
      replace i1 with (i1 + 1 - 1)%nat at 1 by lia.
      apply shiftRight_reach; lia. }
    assert (R13 : reach a b l l3).
    { eapply reach_trans; [exact R1|]. eapply reach_trans.
      - apply (reach_mono a i1); [lia | lia | lia | exact R2].
      - apply (reach_mono i1 b); [lia | lia | lia | exact R3]. }
    destruct (IH l3 i1) as [R Hdone].
    + lia.
    + rewrite (reach_length _ _ _ _ R13). lia.
    + exact (reach_Forall _ _ _ _ _ R13 HP).
    + exact (lowerBound_reach a b l l3 R13 Hlow).
    + apply (sortedRange_outside i1 b a i1 l2 l3 R3); [lia | assumption].
    + split; [|exact Hdone]. eapply reach_trans; eassumption.
Qed.

Lemma partialInsertionSort_func_spec (a b : nat) l :
  (a < b)%nat -> (b <= length l)%nat -> Forall P l -> lowerBound less a b l ->
  reach a b l (fst (GoSort.partialInsertionSort_func less l a b))
  /\ (snd (GoSort.partialInsertionSort_func less l a b) = true ->
      sortedRange less a b (fst (GoSort.partialInsertionSort_func less l a b))).
Proof.
  intros Hab Hb HP Hlow. unfold GoSort.partialInsertionSort_func.
  apply partialInsertionSort_loop_spec; try assumption; try lia.
  unfold sortedRange. intros. lia.
Qed.

(** *** The main loop *)

(** A slice sorted on both sides of a pivot that separates them is
    sorted. *)
Lemma sortedRange_join (a mid b : nat) (p : A) l :
  Forall P l -> l !! mid = Some p ->
  sortedRange less a mid l -> sortedRange less (S mid) b l ->
  rangeAll (fun x => less p x = false) a mid l ->
  rangeAll (fun x => less x p = false) (S mid) b l ->
  sortedRange less a b l.
Proof.
  intros HP Hp Hl Hr Hlo Hhi k1 k2 x y Hk1 Hk12 Hk2 Hx Hy.
  pose proof (P_lookup _ _ _ HP Hp) as Pp.
  pose proof (P_lookup _ _ _ HP Hx) as Px.
  pose proof (P_lookup _ _ _ HP Hy) as Py.
  destruct (lt_eq_lt_dec k2 mid) as [[H2|H2]|H2].
  - apply (Hl k1 k2 x y); try assumption; lia.
  - subst k2. assert (y = p) by congruence. subst y.
    apply (Hlo k1 x); [lia | assumption].
  - assert (Hyp : less y p = false) by (apply (Hhi k2 y); [lia | assumption]).
    destruct (lt_eq_lt_dec k1 mid) as [[H1|H1]|H1].
    + apply (less_negtrans x p y); auto. apply (Hlo k1 x); [lia | assumption].
    + subst k1. assert (x = p) by congruence. now subst x.
    + apply (Hr k1 k2 x y); try assumption; lia.
Qed.

Lemma pdqsort_func_S fuel l a b limit wasBalanced wasPartitioned :
  GoSort.pdqsort_func less (S fuel) l a b limit wasBalanced wasPartitioned
  = let length := (b - a)%nat in
    if (length <=? GoSort.maxInsertion)%nat
    then Some (GoSort.insertionSort_func less l a b) else
    if (limit =? 0)%nat then Some (GoSort.heapSort_func less l a b) else
    let '(l, limit) :=
      if negb wasBalanced then (GoSort.breakPatterns_func l a b, (limit - 1)%nat)
      else (l, limit) in
    let '(pivot, hint) := GoSort.choosePivot_func less l a b in
    let '(l, pivot, hint) :=
      if GoSort.hint_eqb hint GoSort.decreasingHint
      then (GoSort.reverseRange_func l a b, ((b - 1) - (pivot - a))%nat,
            GoSort.increasingHint)
      else (l, pivot, hint) in
    let '(l, done) :=
      if wasBalanced && wasPartitioned && GoSort.hint_eqb hint GoSort.increasingHint
      then GoSort.partialInsertionSort_func less l a b
      else (l, false) in
    if done then Some l else
    if (0 <? a)%nat && negb (Less l (a - 1) pivot) then
      let '(l, mid) := GoSort.partitionEqual_func less l a b pivot in
      GoSort.pdqsort_func less fuel l mid b limit wasBalanced wasPartitioned
    else
      let '(l, mid, alreadyPartitioned) := GoSort.partition_func less l a b pivot in
      let wasPartitioned := alreadyPartitioned in
      let leftLen := (mid - a)%nat in
      let rightLen := (b - mid)%nat in
      let balanceThreshold := (length / 8)%nat in
      if (leftLen <? rightLen)%nat then
        let wasBalanced := (balanceThreshold <=? leftLen)%nat in
        match GoSort.pdqsort_func less fuel l a mid limit true true with
        | None => None
        | Some l =>
            GoSort.pdqsort_func less fuel l (S mid) b limit wasBalanced wasPartitioned
        end
      else
        let wasBalanced := (balanceThreshold <=? rightLen)%nat in
        match GoSort.pdqsort_func less fuel l (S mid) b limit true true with
        | None => None
        | Some l =>
            GoSort.pdqsort_func less fuel l a mid limit wasBalanced wasPartitioned
        end.
Proof. reflexivity. Qed.

(** With more fuel than the slice is long, [pdqsort_func] returns, and
    returns the slice sorted by exchanges inside [[a, b)]. *)
Lemma pdqsort_func_spec :
  forall fuel l a b limit wasBalanced wasPartitioned,
    (b - a < fuel)%nat -> (a <= b <= length l)%nat -> Forall P l ->
    lowerBound less a b l ->
    exists l',
      GoSort.pdqsort_func less fuel l a b limit wasBalanced wasPartitioned = Some l'
      /\ reach a b l l' /\ sortedRange less a b l'.
Proof.
  induction fuel as [|fuel IH];
    intros l a b limit wb wp Hfuel Hab HP Hlow; [lia|].
  rewrite pdqsort_func_S. cbv zeta.
  destruct (Nat.leb_spec (b - a) GoSort.maxInsertion) as [Hsmall|Hbig].
  { destruct (insertionSort_func_spec a b l ltac:(lia) HP) as (R & _ & S').
    eauto. }
  unfold GoSort.maxInsertion in Hbig.
  destruct (limit =? 0)%nat.
  { destruct (heapSort_func_spec a b l ltac:(lia) ltac:(lia) HP) as (R & S').
    eauto. }
  (* breakPatterns *)
  set (lb := if negb wb then (GoSort.breakPatterns_func l a b, (limit - 1)%nat)
             else (l, limit)).
  assert (Rb : reach a b l (fst lb)).
  { unfold lb. destruct wb; simpl; [apply reach_refl|].
    apply breakPatterns_func_reach. lia. }
  destruct lb as [l1 limit1]. simpl in Rb.
  assert (Hlen1 : length l1 = length l) by apply (reach_length _ _ _ _ Rb).
  (* choosePivot and reverseRange *)
  pose proof (choosePivot_func_range l1 a b ltac:(lia)) as Hpiv0.
  destruct (GoSort.choosePivot_func less l1 a b) as [pivot0 hint0]. simpl in Hpiv0.
  set (lr := if GoSort.hint_eqb hint0 GoSort.decreasingHint
             then (GoSort.reverseRange_func l1 a b, ((b - 1) - (pivot0 - a))%nat,
                   GoSort.increasingHint)
             else (l1, pivot0, hint0)).
  assert (Rr : reach a b l1 (fst (fst lr)) /\ (a <= snd (fst lr) < b)%nat).
  { unfold lr. destruct (GoSort.hint_eqb hint0 GoSort.decreasingHint); simpl.
    - split; [apply reverseRange_func_reach; lia | lia].
    - split; [apply reach_refl | lia]. }
  destruct lr as [[l2 pivot] hint]. simpl in Rr. destruct Rr as [Rr Hpiv].
  assert (R2 : reach a b l l2) by (eapply reach_trans; eassumption).
  assert (Hlen2 : length l2 = length l) by apply (reach_length _ _ _ _ R2).
  assert (HP2 : Forall P l2) by exact (reach_Forall _ _ _ _ _ R2 HP).
  assert (Hlow2 : lowerBound less a b l2) by exact (lowerBound_reach a b l l2 R2 Hlow).
  (* partialInsertionSort *)
  set (lp := if wb && wp && GoSort.hint_eqb hint GoSort.increasingHint
             then GoSort.partialInsertionSort_func less l2 a b else (l2, false)).
  assert (Rp : reach a b l2 (fst lp)
               /\ (snd lp = true -> sortedRange less a b (fst lp))).
  { unfold lp. destruct (wb && wp && GoSort.hint_eqb hint GoSort.increasingHint).
    - apply partialInsertionSort_func_spec; try assumption; lia.
    - simpl. split; [apply reach_refl | discriminate]. }
  destruct lp as [l3 done]. simpl in Rp. destruct Rp as [Rp Hdone].
  assert (R3 : reach a b l l3) by (eapply reach_trans; eassumption).
  destruct done.
  { exists l3. split; [reflexivity|]. split; [assumption | now apply Hdone]. }
  assert (Hlen3 : length l3 = length l) by apply (reach_length _ _ _ _ R3).
  assert (HP3 : Forall P l3) by exact (reach_Forall _ _ _ _ _ R3 HP).
  assert (Hlow3 : lowerBound less a b l3) by exact (lowerBound_reach a b l l3 R3 Hlow).
  destruct (lookup_lt_is_Some_2 l3 pivot ltac:(lia)) as [p Hp].
  pose proof (P_lookup _ _ _ HP3 Hp) as Pp.
  destruct ((0 <? a)%nat && negb (Less l3 (a - 1) pivot)) eqn:Heq.
  - (* the pivot equals the element before the slice *)
    apply andb_true_iff in Heq as [Ha Hq]. apply Nat.ltb_lt in Ha.
    destruct (lookup_lt_is_Some_2 l3 (a - 1) ltac:(lia)) as [q Hq'].
    rewrite (Less_at _ _ _ _ _ Hq' Hp) in Hq. apply negb_true_iff in Hq.
    pose proof (P_lookup _ _ _ HP3 Hq') as Pq.
    assert (Hall : rangeAll (fun x => less x p = false) a b l3).
    { intros k x Hk Hx. pose proof (P_lookup _ _ _ HP3 Hx) as Px.
      apply (less_negtrans p q x); auto. apply (Hlow3 q Ha Hq' k x Hk Hx). }
    destruct (partitionEqual_func_spec a b pivot p l3 Hpiv ltac:(lia) HP3 Hp)
      as (l4 & mid & E & R4 & Hmid & Hle & Hgt).
    rewrite E.
    assert (Hlen4 : length l4 = length l)
      by (rewrite (reach_length _ _ _ _ R4); lia).
    assert (HP4 : Forall P l4) by exact (reach_Forall _ _ _ _ _ R4 HP3).
    assert (Hall4 : rangeAll (fun x => less x p = false) a b l4).
    { apply (reach_rangeAll _ a b a b l3 l4); [lia | lia | exact R4 | exact Hall]. }
    destruct (IH l4 mid b limit1 wb wp) as (l5 & E5 & R5 & S5).
    + lia.
    + lia.
    + assumption.
    + intros q' Hm Hq'' k x Hk Hx.
      pose proof (P_lookup _ _ _ HP4 Hx) as Px.
      pose proof (P_lookup _ _ _ HP4 Hq'') as Pq'.
      apply (less_negtrans q' p x); auto.
      * apply (Hle (mid - 1)%nat q'); [lia | assumption].
      * apply less_asym; auto. apply (Hgt k x); [lia | assumption].
    + exists l5. split; [exact E5|]. split.
      * eapply reach_trans; [exact R3|]. eapply reach_trans; [exact R4|].
        apply (reach_mono mid b); [lia | lia | lia | exact R5].
      * assert (HP5 : Forall P l5) by exact (reach_Forall _ _ _ _ _ R5 HP4).
        assert (Hle5 : rangeAll (fun x => less p x = false) a mid l5).
        { apply (rangeAll_outside _ mid b a mid l4 l5 R5); [lia | exact Hle]. }
        assert (Hall5 : rangeAll (fun x => less x p = false) a b l5).
        { apply (reach_rangeAll _ mid b a b l4 l5); [lia | lia | exact R5 | exact Hall4]. }
        intros k1 k2 x y Hk1 Hk12 Hk2 Hx Hy.
        pose proof (P_lookup _ _ _ HP5 Hx) as Px.
        pose proof (P_lookup _ _ _ HP5 Hy) as Py.
        destruct (le_lt_dec mid k1) as [H1|H1].
        -- apply (S5 k1 k2 x y); try assumption; lia.
        -- apply (less_negtrans x p y); auto.
           ++ apply (Hle5 k1 x); [lia | assumption].
           ++ apply (Hall5 k2 y); [lia | assumption].
  - (* the ordinary partition *)
    clear Heq.
    destruct (partition_func_spec a b pivot p l3 Hpiv ltac:(lia) Hp)
      as (l4 & mid & flag & E & R4 & Hmid & Hpm & Hlt & Hge).
    rewrite E.
    assert (Hlen4 : length l4 = length l)
      by (rewrite (reach_length _ _ _ _ R4); lia).
    assert (HP4 : Forall P l4) by exact (reach_Forall _ _ _ _ _ R4 HP3).
    assert (Hlow4 : lowerBound less a b l4)
      by exact (lowerBound_reach a b l3 l4 R4 Hlow3).
    assert (R04 : reach a b l l4) by (eapply reach_trans; eassumption).
    assert (Hle : rangeAll (fun x => less p x = false) a mid l4).
    { intros k x Hk Hx. apply less_asym; eauto using P_lookup. }
    assert (HlowL : forall l', l' !! (a - 1)%nat = l4 !! (a - 1)%nat ->
              rangeAll (fun x => exists k, (a <= k < b)%nat /\ l4 !! k = Some x)
                a mid l' ->
              lowerBound less a mid l').
    { intros l' Hsame Hsub q Ha Hq k x Hk Hx.
      destruct (Hsub k x Hk Hx) as (k' & Hk' & Hx').
      rewrite Hsame in Hq. exact (Hlow4 q Ha Hq k' x Hk' Hx'). }
    assert (Hsub4 : rangeAll (fun x => exists k, (a <= k < b)%nat /\ l4 !! k = Some x)
                      a mid l4).
    { intros k x Hk Hx. exists k. split; [lia | assumption]. }
    assert (Hfinish : forall l6,
              reach a b l4 l6 -> l6 !! mid = Some p ->
              sortedRange less a mid l6 -> sortedRange less (S mid) b l6 ->
              rangeAll (fun x => less p x = false) a mid l6 ->
              rangeAll (fun x => less x p = false) (S mid) b l6 ->
              reach a b l l6 /\ sortedRange less a b l6).
    { intros l6 R6 Hp6 Hs1 Hs2 Hlo6 Hhi6. split.
      - eapply reach_trans; eassumption.
      - apply (sortedRange_join a mid b p); try assumption.
        exact (reach_Forall _ _ _ _ _ R6 HP4). }
    destruct (Nat.ltb_spec (mid - a) (b - mid)) as [Hside|Hside].
    + (* the left side first *)
      destruct (IH l4 a mid limit1 true true) as (l5 & E5 & R5 & S5);
        [lia | lia | assumption | |].
      { apply HlowL; [reflexivity | exact Hsub4]. }
      rewrite E5.
      assert (Hlen5 : length l5 = length l)
        by (rewrite (reach_length _ _ _ _ R5); lia).
      assert (HP5 : Forall P l5) by exact (reach_Forall _ _ _ _ _ R5 HP4).
      assert (Hp5 : l5 !! mid = Some p)
        by (rewrite (reach_outside _ _ _ _ _ R5); [assumption | lia]).
      assert (Hge5 : rangeAll (fun x => less x p = false) (S mid) b l5).
      { apply (rangeAll_outside _ a mid (S mid) b l4 l5 R5); [lia | exact Hge]. }
      assert (Hgoal : exists l',
                GoSort.pdqsort_func less fuel l5 (S mid) b limit1
                  ((b - a) / 8 <=? mid - a)%nat flag = Some l'
                /\ reach (S mid) b l5 l' /\ sortedRange less (S mid) b l').
      { apply IH; [lia | lia | assumption |].
        intros q _ Hq. replace (S mid - 1)%nat with mid in Hq by lia.
        assert (q = p) by congruence. subst q. exact Hge5. }
      destruct Hgoal as (l6 & E6 & R6 & S6).
      exists l6. split; [exact E6|]. apply Hfinish.
      * eapply reach_trans.
        -- apply (reach_mono a mid); [lia | lia | lia | exact R5].
        -- apply (reach_mono (S mid) b); [lia | lia | lia | exact R6].
      * rewrite (reach_outside _ _ _ _ _ R6); [assumption | lia].
      * apply (sortedRange_outside (S mid) b a mid l5 l6 R6); [lia | exact S5].
      * exact S6.
      * apply (rangeAll_outside _ (S mid) b a mid l5 l6 R6); [lia|].
        apply (reach_rangeAll _ a mid a mid l4 l5); [lia | lia | exact R5 | exact Hle].
      * apply (reach_rangeAll _ (S mid) b (S mid) b l5 l6);
          [lia | lia | exact R6 | exact Hge5].
    + (* the right side first *)
      destruct (IH l4 (S mid) b limit1 true true) as (l5 & E5 & R5 & S5);
        [lia | lia | assumption | |].
      { intros q _ Hq. replace (S mid - 1)%nat with mid in Hq by lia.
        assert (q = p) by congruence. subst q. exact Hge. }
      rewrite E5.
      assert (Hlen5 : length l5 = length l)
        by (rewrite (reach_length _ _ _ _ R5); lia).
      assert (HP5 : Forall P l5) by exact (reach_Forall _ _ _ _ _ R5 HP4).
      assert (Hp5 : l5 !! mid = Some p)
        by (rewrite (reach_outside _ _ _ _ _ R5); [assumption | lia]).
      assert (Hle5 : rangeAll (fun x => less p x = false) a mid l5).
      { apply (rangeAll_outside _ (S mid) b a mid l4 l5 R5); [lia | exact Hle]. }
      assert (Hgoal : exists l',
                GoSort.pdqsort_func less fuel l5 a mid limit1
                  ((b - a) / 8 <=? b - mid)%nat flag = Some l'
                /\ reach a mid l5 l' /\ sortedRange less a mid l').
      { apply IH; [lia | lia | assumption |].
        apply HlowL.
        - apply (reach_outside _ _ _ _ _ R5).
          destruct (decide (a = 0)%nat); lia.
        - apply (rangeAll_outside _ (S mid) b a mid l4 l5 R5); [lia | exact Hsub4]. }
      destruct Hgoal as (l6 & E6 & R6 & S6).
      exists l6. split; [exact E6|]. apply Hfinish.
      * eapply reach_trans.
        -- apply (reach_mono (S mid) b); [lia | lia | lia | exact R5].
        -- apply (reach_mono a mid); [lia | lia | lia | exact R6].
      * rewrite (reach_outside _ _ _ _ _ R6); [assumption | lia].
      * exact S6.
      * apply (sortedRange_outside a mid (S mid) b l5 l6 R6); [lia | exact S5].
      * apply (reach_rangeAll _ a mid a mid l5 l6); [lia | lia | exact R6 | exact Hle5].
      * apply (rangeAll_outside _ a mid (S mid) b l5 l6 R6); [lia|].
        apply (reach_rangeAll _ (S mid) b (S mid) b l4 l5);
          [lia | lia | exact R5 | exact Hge].
Qed.

(** *** [sort.Slice] *)

Local Abbreviation notLess := (notLess less).

Lemma sortedRange_StronglySorted l :
  sortedRange less 0 (length l) l -> StronglySorted notLess l.
Proof.
  induction l as [|x l IH]; intros Hs; constructor.
  - apply IH. intros i j y z Hi Hij Hj Hy Hz.
    apply (Hs (S i) (S j) y z); simpl; try assumption; lia.
  - apply List.Forall_forall. intros y Hy.
    apply list_elem_of_In, list_elem_of_lookup in Hy as [j Hj].
    pose proof (lookup_lt_Some _ _ _ Hj).
    apply (Hs 0%nat (S j) x y); simpl; try assumption; try reflexivity; lia.
Qed.

Lemma StronglySorted_sortedRange l :
  StronglySorted notLess l -> sortedRange less 0 (length l) l.
Proof.
  induction 1 as [|x l Hl IH Hx]; intros i j y z Hi Hij Hj Hy Hz.
  - simpl in Hj. lia.
  - destruct j as [|j]; [lia|]. simpl in Hz, Hj.
    destruct i as [|i].
    + simpl in Hy. injection Hy as <-.
      rewrite List.Forall_forall in Hx. apply Hx.
      apply list_elem_of_In, list_elem_of_lookup. eauto.
    + simpl in Hy. apply (IH i j y z); try assumption; lia.
Qed.

(** [sort.Slice] returns, and returns its argument rearranged in
    order. *)
Theorem Slice_sorts (x : list A) :
  Forall P x ->
  exists sorted,
    GoSort.Slice less x = Some sorted
    /\ sorted ≡ₚ x /\ StronglySorted notLess sorted.
Proof.
  intros HP. unfold GoSort.Slice. cbv zeta.
  destruct (pdqsort_func_spec (S (length x)) x 0 (length x)
              (GoBits.Len (length x)) true true) as (l' & E & R & S').
  - lia.
  - lia.
  - assumption.
  - intros q Hq. lia.
  - exists l'. split; [exact E|]. split; [exact (reach_Permutation _ _ _ _ R)|].
    apply sortedRange_StronglySorted. now rewrite (reach_length _ _ _ _ R).
Qed.

(** *** Ties *)

Lemma Swap_adjacent l (j : nat) (x y : A) :
  l !! j = Some y -> l !! S j = Some x ->
  l = take j l ++ [y; x] ++ drop (S (S j)) l
  /\ Swap l (S j) j = take j l ++ [x; y] ++ drop (S (S j)) l.
Proof.
  intros Hy Hx.
  assert (E : l = take j l ++ [y; x] ++ drop (S (S j)) l).
  { rewrite <- (take_drop_middle l j y Hy) at 1. f_equal. simpl. f_equal.
    now apply drop_S. }
  split; [exact E|].
  unfold GoSort.Swap. rewrite Hx, Hy.
  pose proof (lookup_lt_Some _ _ _ Hx) as Hlen.
  assert (Hj : length (take j l) = j) by (rewrite length_take; lia).
  rewrite E at 1.
  rewrite (insert_app_r_alt (take j l) _ (S j)) by lia.
  rewrite (insert_app_r_alt (take j l) _ j) by lia.
  rewrite Hj. replace (S j - j)%nat with 1%nat by lia.
  replace (j - j)%nat with 0%nat by lia. reflexivity.
Qed.

Lemma reachStable_tiesKept l l' (z : A) :
  reachStable less l l' -> Forall P l -> P z -> tiesKept less z l l'.
Proof.
  intros H HP Pz. unfold tiesKept.
  induction H as [|l l' j HL H IH]; [reflexivity|].
  rewrite IH by now apply Swap_Forall. clear IH H.
  apply Less_true in HL as (x & y & Hx & Hy & Hlt).
  pose proof (P_lookup _ _ _ HP Hx) as Px.
  pose proof (P_lookup _ _ _ HP Hy) as Py.
  destruct (Swap_adjacent l j x y Hy Hx) as [E1 E2].
  rewrite E2.
  transitivity (List.filter (tied less z) (take j l ++ [y; x] ++ drop (S (S j)) l));
    [|now rewrite <- E1].
  rewrite !List.filter_app. f_equal. f_equal.
  simpl. unfold tied.
  destruct (less x z) eqn:Hxz.
  - rewrite andb_false_r. reflexivity.
  - destruct (less z y) eqn:Hzy; [reflexivity|].
    rewrite (less_trans_lt_le x y z Px Py Pz Hlt Hzy) in Hxz. discriminate.
Qed.

(** On at most twelve elements [sort.Slice] is the insertion sort, which
    keeps tied elements in their order. *)
Theorem Slice_small_stable (x : list A) :
  Forall P x -> (length x <= 12)%nat ->
  exists sorted,
    GoSort.Slice less x = Some sorted
    /\ forall z, P z -> tiesKept less z x sorted.
Proof.
  intros HP Hlen. unfold GoSort.Slice. cbv zeta. rewrite pdqsort_func_S. cbv zeta.
  rewrite Nat.sub_0_r.
  destruct (Nat.leb_spec (length x) GoSort.maxInsertion) as [_|H];
    [|unfold GoSort.maxInsertion in H; lia].
  eexists. split; [reflexivity|]. intros z Pz.
  destruct (insertionSort_func_spec 0 (length x) x ltac:(lia) HP) as (_ & S' & _).
  now apply reachStable_tiesKept.
Qed.

(** *** A slice already in order is left as it is *)

Lemma scan_up_all (p : nat -> bool) :
  forall n i, (forall k, (i <= k < i + n)%nat -> p k = true) ->
    GoSort.scan_up p i n = (i + n)%nat.
Proof.
  induction n as [|n IH]; intros i Hp; simpl; [lia|].
  rewrite (Hp i) by lia. rewrite IH; [lia|]. intros k Hk. apply Hp. lia.
Qed.

Lemma Less_sorted (b : nat) l (i j : nat) :
  (b <= length l)%nat -> sortedRange less 0 b l ->
  (i < j < b)%nat -> Less l j i = false.
Proof.
  intros Hb Hs Hij.
  destruct (lookup_lt_is_Some_2 l i ltac:(lia)) as [x Hx].
  destruct (lookup_lt_is_Some_2 l j ltac:(lia)) as [y Hy].
  rewrite (Less_at _ _ _ _ _ Hy Hx).
  apply (Hs i j x y); try assumption; lia.
Qed.

Lemma insertionSort_sorted_id (b : nat) l :
  (b <= length l)%nat -> sortedRange less 0 b l ->
  GoSort.insertionSort_func less l 0 b = l.
Proof.
  intros Hb Hs. unfold GoSort.insertionSort_func.
  enough (H : forall n i, (0 < i)%nat -> (i + n <= b)%nat ->
                GoSort.insertionSort_loop less l 0 i n = l).
  { destruct b as [|b]; [reflexivity|]. apply H; lia. }
  induction n as [|n IH]; intros i Hi Hn; simpl; [reflexivity|].
  assert (E : GoSort.insertionSort_inner less l 0 i = l).
  { destruct i as [|i]; [reflexivity|]. simpl.
    now rewrite (Less_sorted b l i (S i)) by (assumption || lia). }
  rewrite E. apply IH; lia.
Qed.

Lemma median_func_sorted (b : nat) l (i j k s : nat) :
  (b <= length l)%nat -> sortedRange less 0 b l ->
  (i < j)%nat -> (j < k)%nat -> (k < b)%nat ->
  GoSort.median_func less l i j k s = (j, s).
Proof.
  intros Hb Hs Hij Hjk Hk. unfold GoSort.median_func, GoSort.order2_func.
  rewrite (Less_sorted b l i j) by (assumption || lia).
  rewrite (Less_sorted b l j k) by (assumption || lia).
  now rewrite (Less_sorted b l i j) by (assumption || lia).
Qed.

Lemma choosePivot_sorted (b : nat) l :
  (b <= length l)%nat -> sortedRange less 0 b l -> (8 <= b)%nat ->
  snd (GoSort.choosePivot_func less l 0 b) = GoSort.increasingHint.
Proof.
  intros Hb Hs H8. unfold GoSort.choosePivot_func. cbv zeta.
  rewrite Nat.sub_0_r.
  destruct (Nat.leb_spec 8 b) as [_|?]; [|lia].
  destruct (Nat.leb_spec GoSort.shortestNinther b) as [H50|H50].
  - unfold GoSort.shortestNinther in H50. unfold GoSort.medianAdjacent_func.
    rewrite !(median_func_sorted b) by (assumption || lia). reflexivity.
  - rewrite (median_func_sorted b) by (assumption || lia). reflexivity.
Qed.

Lemma partialInsertionSort_loop_S steps l a b i :
  GoSort.partialInsertionSort_loop less (S steps) l a b i
  = let i := GoSort.scan_up (fun i => negb (Less l i (i - 1))) i (b - i) in
    if (i =? b)%nat then (l, true) else
    if (b - a <? GoSort.shortestShifting)%nat then (l, false) else
    let l := Swap l i (i - 1) in
    let l := if (2 <=? i - a)%nat then GoSort.shiftLeft less l (i - 1) else l in
    let l := if (2 <=? b - i)%nat
             then GoSort.shiftRight less l (i + 1) (b - (i + 1)) else l in
    GoSort.partialInsertionSort_loop less steps l a b i.
Proof. reflexivity. Qed.

Lemma partialInsertionSort_sorted (b : nat) l :
  (1 <= b <= length l)%nat -> sortedRange less 0 b l ->
  GoSort.partialInsertionSort_func less l 0 b = (l, true).
Proof.
  intros Hb Hs. unfold GoSort.partialInsertionSort_func, GoSort.maxSteps.
  rewrite partialInsertionSort_loop_S. cbv zeta.
  rewrite scan_up_all.
  - replace (1 + (b - 1))%nat with b by lia. now rewrite Nat.eqb_refl.
  - intros k Hk. apply negb_true_iff. apply (Less_sorted b); (assumption || lia).
Qed.

Theorem Slice_sorted_id (x : list A) :
  StronglySorted notLess x -> GoSort.Slice less x = Some x.
Proof.
  intros Hs. apply StronglySorted_sortedRange in Hs.
  unfold GoSort.Slice. cbv zeta. rewrite pdqsort_func_S. cbv zeta.
  rewrite Nat.sub_0_r.
  destruct (Nat.leb_spec (length x) GoSort.maxInsertion) as [Hsmall|Hbig].
  { now rewrite (insertionSort_sorted_id (length x) x) by (assumption || lia). }
  unfold GoSort.maxInsertion in Hbig.
  assert (Hlim : (GoBits.Len (length x) =? 0)%nat = false).
  { unfold GoBits.Len. destruct (length x); [lia | reflexivity]. }
  rewrite Hlim. cbn [negb].
  pose proof (choosePivot_sorted (length x) x ltac:(lia) Hs ltac:(lia)) as Hh.
  destruct (GoSort.choosePivot_func less x 0 (length x)) as [pivot hint].
  simpl in Hh. subst hint. cbn [GoSort.hint_eqb andb].
  now rewrite (partialInsertionSort_sorted (length x) x) by (assumption || lia).
Qed.

End Sorting.

(** ** Timestamps are ordered *)

Ltac compare_cases :=
  repeat match goal with
    | H : context [Pos.compare_cont Eq ?a ?b] |- _ =>
        change (Pos.compare_cont Eq a b) with (Pos.compare a b) in H
    | |- context [Pos.compare_cont Eq ?a ?b] =>
        change (Pos.compare_cont Eq a b) with (Pos.compare a b)
    end;
  repeat match goal with
    | H : context [Z.compare ?a ?b] |- _ => destruct (Z.compare_spec a b)
    | |- context [Z.compare ?a ?b] => destruct (Z.compare_spec a b)
    | H : context [Pos.compare ?a ?b] |- _ => destruct (Pos.compare_spec a b)
    | |- context [Pos.compare ?a ?b] => destruct (Pos.compare_spec a b)
    end;
  simpl in *; try discriminate; try reflexivity; try lia.

Lemma float64_lt_asym (x y : float64) :
  isNaN x = false -> isNaN y = false ->
  float64_lt x y = true -> float64_lt y x = false.
Proof.
  unfold float64_lt, SFltb, SFcompare.
  destruct x as [sx|sx| |sx mx ex], y as [sy|sy| |sy my ey];
    simpl; try discriminate; intros _ _;
    try destruct sx; try destruct sy; try discriminate; try reflexivity;
    compare_cases.
Qed.

Lemma float64_lt_negtrans (x y z : float64) :
  isNaN x = false -> isNaN y = false -> isNaN z = false ->
  float64_lt y x = false -> float64_lt z y = false -> float64_lt z x = false.
Proof.
  unfold float64_lt, SFltb, SFcompare.
  destruct x as [sx|sx| |sx mx ex], y as [sy|sy| |sy my ey],
    z as [sz|sz| |sz mz ez];
    simpl; try discriminate; intros _ _ _;
    try destruct sx; try destruct sy; try destruct sz;
    try discriminate; try reflexivity; compare_cases.
Qed.

Lemma float64_le_not_lt (x y : float64) :
  isNaN x = false -> isNaN y = false ->
  float64_le x y = negb (float64_lt y x).
Proof.
  unfold float64_le, float64_lt, SFleb, SFltb, SFcompare.
  destruct x as [sx|sx| |sx mx ex], y as [sy|sy| |sy my ey];
    simpl; try discriminate; intros _ _;
    try destruct sx; try destruct sy; try discriminate; try reflexivity;
    compare_cases.
Qed.

(** The conversion of an integer is a number. *)
Lemma shr_1_nonneg (mrs : shr_record) : 0 <= shr_m mrs -> 0 <= shr_m (shr_1 mrs).
Proof.
  destruct mrs as [m r s']. simpl.
  destruct m as [|[p|p|]|[p|p|]]; simpl; lia.
Qed.

Lemma iter_shr_1_nonneg (p : positive) (mrs : shr_record) :
  0 <= shr_m mrs -> 0 <= shr_m (SpecFloat.iter_pos shr_1 p mrs).
Proof.
  revert mrs. induction p as [p IH|p IH|]; intros mrs H; simpl.
  - apply IH, IH. now apply shr_1_nonneg.
  - now apply IH, IH.
  - now apply shr_1_nonneg.
Qed.

Lemma shr_fexp_nonneg (prec emax m e : Z) (l : location) :
  0 <= m -> 0 <= shr_m (fst (shr_fexp prec emax m e l)).
Proof.
  intros Hm. unfold shr_fexp, shr.
  assert (H0 : 0 <= shr_m (shr_record_of_loc m l)).
  { destruct l as [|[ | | ]]; simpl; assumption. }
  destruct (fexp prec emax (Zdigits2 m + e) - e) as [|p|p]; simpl;
    [assumption | | assumption].
  now apply iter_shr_1_nonneg.
Qed.

Lemma binary_round_aux_not_nan (prec emax : Z) (sx : bool) (mx ex : Z) (lx : location) :
  0 <= mx -> isNaN (binary_round_aux prec emax sx mx ex lx) = false.
Proof.
  intros Hm. unfold binary_round_aux.
  pose proof (shr_fexp_nonneg prec emax mx ex lx Hm) as H1.
  destruct (shr_fexp prec emax mx ex lx) as [mrs' e']. simpl in H1.
  assert (H2 : 0 <= round_nearest_even (shr_m mrs') (loc_of_shr_record mrs')).
  { unfold round_nearest_even.
    destruct (loc_of_shr_record mrs') as [|[ | | ]]; try lia.
    destruct (Z.even (shr_m mrs')); lia. }
  pose proof (shr_fexp_nonneg prec emax _ e' loc_Exact H2) as H3.
  destruct (shr_fexp prec emax _ e' loc_Exact) as [mrs'' e'']. simpl in H3.
  destruct (shr_m mrs'') as [|p|p]; [reflexivity | | lia].
  now destruct (_ <=? _).
Qed.

Lemma float64_of_Z_not_nan (z : Z) : isNaN (float64_of_Z z) = false.
Proof.
  unfold float64_of_Z, binary_normalize.
  destruct z as [|p|p]; [reflexivity | |]; unfold binary_round;
    destruct (shl_align _ _ _) as [mz ez]; apply binary_round_aux_not_nan; lia.
Qed.

(** The closure given to [sort.Slice] is a strict weak order on the
    points whose timestamp is a number. *)
Lemma lessTimestamp_asym (x y : datapoint) :
  timed x -> timed y -> lessTimestamp x y = true -> lessTimestamp y x = false.
Proof. unfold timed, lessTimestamp. apply float64_lt_asym. Qed.

Lemma lessTimestamp_negtrans (x y z : datapoint) :
  timed x -> timed y -> timed z ->
  lessTimestamp y x = false -> lessTimestamp z y = false ->
  lessTimestamp z x = false.
Proof. unfold timed, lessTimestamp. apply float64_lt_negtrans. Qed.

(** ** The series of a response are sorted *)

Lemma StronglySorted_impl {B} (R R' : B -> B -> Prop) (Q : B -> Prop) (l : list B) :
  (forall x y, Q x -> Q y -> R x y -> R' x y) ->
  Forall Q l -> StronglySorted R l -> StronglySorted R' l.
Proof.
  intros HR HQ Hs. induction Hs as [|x l Hl IH Hx]; constructor.
  - apply IH. now inversion HQ.
  - inversion HQ as [|? ? Qx Ql]; subst.
    rewrite List.Forall_forall in *. intros y Hy.
    apply HR; [assumption | now apply Ql | now apply Hx].
Qed.

Lemma byTimestamp_notLess (x y : datapoint) :
  byTimestamp x y -> timed x /\ timed y /\ notLess lessTimestamp x y.
Proof.
  unfold byTimestamp, timed, notLess, lessTimestamp, float64_le, float64_lt.
  destruct x as [vx tx], y as [vy ty]. simpl. intros H.
  assert (Hx : isNaN tx = false) by (destruct tx, ty; try reflexivity; discriminate).
  assert (Hy : isNaN ty = false) by (destruct tx, ty; try reflexivity; discriminate).
  split; [assumption|]. split; [assumption|].
  pose proof (float64_le_not_lt tx ty Hx Hy) as E.
  unfold float64_le, float64_lt in E. rewrite H in E.
  now apply negb_true_iff.
Qed.

Lemma notLess_byTimestamp (x y : datapoint) :
  timed x -> timed y -> notLess lessTimestamp x y -> byTimestamp x y.
Proof.
  unfold byTimestamp, timed, notLess, lessTimestamp. intros Hx Hy H.
  rewrite (float64_le_not_lt _ _ Hx Hy). now rewrite H.
Qed.

(** What [sortDatapoints] returns on points whose timestamps are
    numbers. *)
Lemma sortDatapoints_spec (points : list datapoint) :
  Forall timed points ->
  GoSort.Slice lessTimestamp points = Some (sortDatapoints points)
  /\ sortDatapoints points ≡ₚ points
  /\ StronglySorted byTimestamp (sortDatapoints points)
  /\ ((length points <= 12)%nat ->
      forall pt, timed pt ->
        tiesKept lessTimestamp pt points (sortDatapoints points)).
Proof.
  intros HT. unfold sortDatapoints.
  destruct (Slice_sorts lessTimestamp timed lessTimestamp_asym
              lessTimestamp_negtrans points HT) as (sorted & E & Hperm & Hs).
  rewrite E. split; [reflexivity|]. split; [assumption|]. split.
  - apply (StronglySorted_impl (notLess lessTimestamp) byTimestamp timed);
      [apply notLess_byTimestamp | now rewrite Hperm | assumption].
  - intros Hlen pt Hpt.
    destruct (Slice_small_stable lessTimestamp timed lessTimestamp_asym
                lessTimestamp_negtrans points HT Hlen) as (sorted' & E' & Hk).
    rewrite E in E'. injection E' as <-. now apply Hk.
Qed.

Lemma sortDatapoints_sorted_id (points : list datapoint) :
  StronglySorted byTimestamp points -> sortDatapoints points = points.
Proof.
  intros Hs. unfold sortDatapoints.
  rewrite (Slice_sorted_id lessTimestamp points); [reflexivity|].
  apply (StronglySorted_impl byTimestamp (notLess lessTimestamp) (fun _ => True));
    [| now apply Forall_true | assumption].
  intros x y _ _ H. now apply byTimestamp_notLess in H.
Qed.

(** Every point the handler builds carries the conversion of an integer
    as its timestamp. *)
Lemma projectPartition_timed (pathFilter : string) (z : Z)
  (pathMetrics : gmap string (list datapoint)) (partition : PartitionMetrics) :
  map_Forall (fun _ points => Forall timed points) pathMetrics ->
  map_Forall (fun _ points => Forall timed points)
    (projectPartition pathFilter (float64_of_Z z) pathMetrics partition).
Proof.
  intros H. unfold projectPartition.
  destruct (negb (String.eqb pathFilter "")
            && negb (String.eqb (Path partition) pathFilter)); [assumption|].
  assert (Hdef : forall (m : gmap string (list datapoint)) k v,
            map_Forall (fun _ points => Forall timed points) m ->
            map_Forall (fun _ points => Forall timed points)
              (<[k := default [] (m !! k) ++ [(v, float64_of_Z z)]]> m)).
  { intros m k v Hm. apply map_Forall_insert_2; [|assumption].
    apply Forall_app. split.
    - destruct (m !! k) as [points|] eqn:E; simpl; [|constructor].
      exact (map_Forall_lookup_1 _ m k points Hm E).
    - repeat constructor. apply float64_of_Z_not_nan. }
  cbv zeta. apply Hdef, Hdef, Hdef.
  destruct (pathMetrics !! _); [assumption|].
  repeat (apply map_Forall_insert_2; [constructor|]). assumption.
Qed.

Lemma project_timed (metrics : list DiskMetrics) (pathFilter : string) :
  map_Forall (fun _ points => Forall timed points) (project metrics pathFilter).
Proof.
  unfold project.
  assert (H0 : map_Forall (fun (_ : string) points => Forall timed points)
                 (∅ : gmap string (list datapoint))) by apply map_Forall_empty.
  revert H0. generalize (∅ : gmap string (list datapoint)) as pm.
  induction metrics as [|m ms IH]; intros pm Hpm; simpl; [assumption|].
  apply IH. unfold projectSnapshot.
  revert pm Hpm. induction (Partitions m) as [|p ps IHp]; intros pm Hpm; simpl;
    [assumption|].
  apply IHp. now apply projectPartition_timed.
Qed.

Lemma response_of_In (pathMetrics : gmap string (list datapoint))
  (r : TimeserieResponse) :
  In r (response_of pathMetrics) <->
  exists points,
    pathMetrics !! Target r = Some points /\ Datapoints r = sortDatapoints points.
Proof.
  unfold response_of. rewrite <- list_elem_of_In, list_elem_of_fmap. split.
  - intros ([k points] & -> & Hk). apply elem_of_map_to_list in Hk.
    exists points. simpl. auto.
  - intros (points & Hk & Hd). exists (Target r, points). split.
    + destruct r as [t d]. simpl in *. now subst.
    + now apply elem_of_map_to_list.
Qed.

(** C3, as the code has it. Each series of the response is the sequence
    of the points ingested for its name, rearranged by [sort.Slice] into
    ascending order of timestamp; points sharing a timestamp keep their
    ingestion order when the series has at most twelve points, and the
    series is left exactly as ingested when it was ingested in ascending
    order of timestamp. *)
Theorem C3_series_sorted
  (metrics : list DiskMetrics) (pathFilter : string) (r : TimeserieResponse) :
  In r (response_of (project metrics pathFilter)) ->
  exists points,
    project metrics pathFilter !! Target r = Some points
    /\ Datapoints r = sortDatapoints points
    /\ GoSort.Slice lessTimestamp points = Some (Datapoints r)
    /\ Datapoints r ≡ₚ points
    /\ StronglySorted byTimestamp (Datapoints r)
    /\ ((length points <= 12)%nat ->
        forall pt, In pt points ->
          tiesKept lessTimestamp pt points (Datapoints r))
    /\ (StronglySorted byTimestamp points -> Datapoints r = points).
Proof.
  intros Hr. apply response_of_In in Hr as (points & Hk & Hd).
  exists points. rewrite Hd.
  pose proof (map_Forall_lookup_1 _ _ _ _ (project_timed metrics pathFilter) Hk) as HT.
  destruct (sortDatapoints_spec points HT) as (E & Hperm & Hs & Hties).
  repeat split; try assumption.
  - intros Hlen pt Hpt. apply Hties; [assumption|].
    rewrite Forall_forall in HT. apply HT. now apply list_elem_of_In.
  - apply sortDatapoints_sorted_id.
Qed.

Lemma C3_series_sorted_witness :
  Datapoints scenarioUsed ≡ₚ
    default [] (project (data scenarioStore) "/" !! Target scenarioUsed)
  /\ StronglySorted byTimestamp (Datapoints scenarioUsed).
Proof.
  destruct (C3_series_sorted (data scenarioStore) "/" scenarioUsed)
    as (points & Hk & _ & _ & Hperm & Hs & _).
  - vm_compute. left. reflexivity.
  - rewrite Hk. split; assumption.
Defined.

(** C3 as stated fails: [sort.Slice] is not a stable sort.  Of thirteen
    points ingested with the timestamps 5000 (six times), 1000, 5000
    (six times), those sharing the timestamp 5000 leave the handler in
    the order 3, 2, 0, 4, 5, 1, 7, ... of their ingestion. *)
Lemma C3_ties_reordered :
  map fst steppedBackPoints
  = map float64_of_Z [0; 1; 2; 3; 4; 5; 6; 7; 8; 9; 10; 11; 12]
  /\ map snd steppedBackPoints
     = map float64_of_Z [5000; 5000; 5000; 5000; 5000; 5000; 1000;
                         5000; 5000; 5000; 5000; 5000; 5000]
  /\ In (mkTimeserie "/ - Used" (sortDatapoints steppedBackPoints))
        (response_of (project steppedBackSnapshots "/"))
  /\ map fst (sortDatapoints steppedBackPoints)
     = map float64_of_Z [6; 3; 2; 0; 4; 5; 1; 7; 8; 9; 10; 11; 12]
  /\ ~ tiesKept lessTimestamp (float64_of_Z 0, float64_of_Z 5000)
        steppedBackPoints (sortDatapoints steppedBackPoints).
Proof.
  split; [vm_compute; reflexivity|]. split; [vm_compute; reflexivity|].
  split; [vm_compute; left; reflexivity|]. split; [vm_compute; reflexivity|].
  unfold tiesKept. vm_compute. intros H. discriminate H.
Qed.
(** ** The series store: beyond an empty start *)

(** Appending to any store: what it holds afterwards is a window at the
    end of what it held followed by what was appended. *)
Lemma adds_window (ms : list DiskMetrics) (s : MetricsStore) :
  data (fold_left add ms s)
  = drop (length (data s ++ ms)
          - Nat.max (length (data s)) (Z.to_nat (maxSize s)))
      (data s ++ ms).
Proof.
  revert s. induction ms as [|m ms IH]; intros s.
  - simpl. rewrite app_nil_r.
    replace (length (data s) - _)%nat with 0%nat by lia. reflexivity.
  - simpl fold_left. rewrite IH, add_maxSize.
    assert (Hsnoc : length (data s ++ [m]) = S (length (data s)))
      by (rewrite length_app; simpl; lia).
    unfold add. rewrite Hsnoc.
    destruct (maxSize s <? Z.of_nat (S (length (data s)))) eqn:Hfull; cbn [data].
    + apply Z.ltb_lt in Hfull.
      destruct (data s ++ [m]) as [|x rest] eqn:E; [discriminate|].
      replace (data s ++ m :: ms) with (x :: rest ++ ms)
        by (change (x :: rest ++ ms) with ((x :: rest) ++ ms);
            rewrite <- E, <- app_assoc; reflexivity).
      simpl in Hsnoc. injection Hsnoc as Hrest. simpl tail.
      cbn [length]. rewrite !length_app, Hrest.
      replace (length (data s) + length ms
               - Nat.max (length (data s)) (Z.to_nat (maxSize s)))%nat
        with (length ms) by lia.
      replace (S (length (data s) + length ms)
               - Nat.max (length (data s)) (Z.to_nat (maxSize s)))%nat
        with (S (length ms)) by lia.
      reflexivity.
    + apply Z.ltb_ge in Hfull.
      rewrite <- app_assoc. simpl. rewrite !length_app. simpl.
      f_equal. lia.
Qed.

(** X1.  Whatever a store holds, appending a sequence of snapshots leaves
    it with a window at the end of its old contents followed by the
    appended snapshots: the window is as long as the capacity, or as
    long as the old contents when these were already longer.  A store
    over capacity is never brought back under it; each append then
    drops exactly the oldest snapshot. *)
Theorem store_sliding_window (s : MetricsStore) (ms : list DiskMetrics) :
  let window := Nat.max (length (data s)) (Z.to_nat (maxSize s)) in
  data (fold_left add ms s)
  = drop (length (data s ++ ms) - window) (data s ++ ms)
  /\ maxSize (fold_left add ms s) = maxSize s
  /\ ((window <= length (data s ++ ms))%nat ->
      length (data (fold_left add ms s)) = window).
Proof.
  intros window. split; [apply adds_window|]. split; [apply adds_maxSize|].
  intros Hw. rewrite adds_window, length_drop. fold window. lia.
Qed.

(** The snapshot just added is the last of the store, unless the store
    was empty and has no room at all. *)
Lemma add_last (s : MetricsStore) (m : DiskMetrics) :
  data s <> [] \/ 1 <= maxSize s -> last (data (add s m)) = Some m.
Proof.
  intros H. unfold add.
  destruct (maxSize s <? Z.of_nat (length (data s ++ [m]))) eqn:Hfull; cbn [data].
  - destruct (data s) as [|x l] eqn:E.
    + simpl in Hfull. apply Z.ltb_lt in Hfull.
      destruct H as [H|H]; [congruence | lia].
    + simpl. apply last_snoc.
  - apply last_snoc.
Qed.

Lemma filter_snoc {A} (f : A -> bool) (l : list A) (x : A) :
  List.filter f (l ++ [x]) = List.filter f l ++ (if f x then [x] else []).
Proof.
  induction l as [|y l IH]; simpl.
  - destruct (f x); reflexivity.
  - rewrite IH. destruct (f y); reflexivity.
Qed.

Lemma last_filter {A} (f : A -> bool) (l : list A) (x : A) :
  last l = Some x -> f x = true -> last (List.filter f l) = Some x.
Proof.
  intros Hl Hx. destruct l as [|y l] using rev_ind; [discriminate|].
  rewrite last_snoc in Hl. injection Hl as ->.
  rewrite filter_snoc, Hx. apply last_snoc.
Qed.

(** X2.  Append, then query: a snapshot that has just been added is the
    last one a range query returns, for every interval that contains
    its instant; the one exception is a store that was empty and has a
    capacity below one, which drops the snapshot at once. *)
Theorem added_snapshot_is_returned
  (s : MetricsStore) (m : DiskMetrics) (fromTime toTime : GoTime.Time) :
  GoTime.le fromTime (capturedAt m) ->
  GoTime.le (capturedAt m) toTime ->
  (data s <> [] \/ 1 <= maxSize s ->
   last (data (add s m)) = Some m
   /\ last (getRange (add s m) fromTime toTime) = Some m)
  /\ (data s = [] -> maxSize s < 1 ->
      data (add s m) = [] /\ getRange (add s m) fromTime toTime = []).
Proof.
  intros Hf Ht. split.
  - intros H. pose proof (add_last s m H) as Hl. split; [exact Hl|].
    rewrite getRange_filter. apply last_filter; [exact Hl|].
    apply inRange_spec; [eapply le_trans; eassumption | split; assumption].
  - intros E Hcap. assert (Hd : data (add s m) = []).
    { unfold add. rewrite E. simpl length.
      destruct (maxSize s <? Z.of_nat 1) eqn:Hlt; [reflexivity|].
      apply Z.ltb_ge in Hlt. lia. }
    split; [exact Hd|]. rewrite getRange_filter, Hd. reflexivity.
Qed.

Lemma added_snapshot_is_returned_witness :
  last (getRange (add steppedBackStore (snapshotAt 7 70))
          (GoTime.Unix 6 0) (GoTime.Unix 8 0))
  = Some (snapshotAt 7 70).
Proof.
  refine (proj2 (proj1 (added_snapshot_is_returned steppedBackStore (snapshotAt 7 70)
                          (GoTime.Unix 6 0) (GoTime.Unix 8 0) _ _) _)).
  - unfold GoTime.le. vm_compute. left. reflexivity.
  - unfold GoTime.le. vm_compute. left. reflexivity.
  - left. discriminate.
Defined.

(** The two endpoints of an interval, as a test on snapshots. *)
Lemma inRange_inverted (fromTime toTime : GoTime.Time) (m : DiskMetrics) :
  ~ GoTime.le fromTime toTime ->
  inRange fromTime toTime m = atEndpoint fromTime toTime m.
Proof.
  intros Hinv. unfold inRange, atEndpoint. fold (capturedAt m).
  destruct (GoTime.After (capturedAt m) fromTime && GoTime.Before (capturedAt m) toTime)
    eqn:Hin; [|reflexivity].
  exfalso. apply andb_true_iff in Hin as [Ha Hb].
  apply After_spec in Ha. apply Before_spec in Hb. apply Hinv.
  destruct (le_total fromTime (capturedAt m)) as [H1|H1];
    destruct (le_total (capturedAt m) toTime) as [H2|H2];
    try contradiction.
  eapply le_trans; eassumption.
Qed.

(** X3.  An inverted interval is not an error and is not empty either:
    when [toTime] is before [fromTime], the range query returns exactly
    the snapshots taken at one of the two instants, in store order. *)
Theorem range_of_inverted_interval
  (s : MetricsStore) (fromTime toTime : GoTime.Time) :
  ~ GoTime.le fromTime toTime ->
  getRange s fromTime toTime = List.filter (atEndpoint fromTime toTime) (data s)
  /\ (forall m, In m (getRange s fromTime toTime) <->
        In m (data s) /\ (capturedAt m = fromTime \/ capturedAt m = toTime)).
Proof.
  intros Hinv.
  assert (E : getRange s fromTime toTime
              = List.filter (atEndpoint fromTime toTime) (data s)).
  { rewrite getRange_filter. apply filter_ext_in_bool.
    intros m _. now apply inRange_inverted. }
  split; [exact E|]. intros m. rewrite E, List.filter_In. unfold atEndpoint.
  rewrite orb_true_iff, !Equal_spec. tauto.
Qed.

Lemma range_of_inverted_interval_witness :
  getRange steppedBackStore (GoTime.Unix 5 0) (GoTime.Unix 3 0)
  = List.filter (atEndpoint (GoTime.Unix 5 0) (GoTime.Unix 3 0)) (data steppedBackStore).
Proof.
  refine (proj1 (range_of_inverted_interval steppedBackStore
                   (GoTime.Unix 5 0) (GoTime.Unix 3 0) _)).
  unfold GoTime.le. vm_compute. intros [H|[H _]]; discriminate.
Defined.
(** ** The range-query handler: parameters and whole seconds *)

Lemma ParseInt_spec (s : string) (v : Z) :
  GoStrconv.ParseInt s = inr v <-> signedDecimal s = Some v /\ in_int64 v.
Proof. exact (Atoi_spec s v). Qed.

Lemma ParseInt_fails (s : string) :
  (exists e, GoStrconv.ParseInt s = inl e) <-> ~ writesInt64 s.
Proof. exact (Atoi_fails s). Qed.

Lemma ParseInt_cases (s : string) :
  (writesInt64 s /\ exists v, GoStrconv.ParseInt s = inr v)
  \/ (~ writesInt64 s /\ exists e, GoStrconv.ParseInt s = inl e).
Proof.
  destruct (GoStrconv.ParseInt s) as [e|v] eqn:E.
  - right. split; [|now exists e]. apply ParseInt_fails. now exists e.
  - left. split; [|now exists v]. exists v. now apply ParseInt_spec.
Qed.

(** X4.  The range-query handler answers 400 exactly when a bound does
    not write an [int64]: the message names [from] when [from] is bad,
    whatever [to] is, and names [to] when only [to] is bad.  A missing
    parameter is a bad one.  The handler has no other error and never
    redirects. *)
Theorem grafanaHandler_rejects_bad_bounds
  (s : MetricsStore) (query : gmap string (list string)) :
  (grafanaHandler s query = HttpError "Invalid 'from' parameter" StatusBadRequest
   <-> ~ writesInt64 (Get query "from"))
  /\ (grafanaHandler s query = HttpError "Invalid 'to' parameter" StatusBadRequest
      <-> writesInt64 (Get query "from") /\ ~ writesInt64 (Get query "to"))
  /\ ((exists body, grafanaHandler s query = HttpJSON body)
      <-> writesInt64 (Get query "from") /\ writesInt64 (Get query "to"))
  /\ (query !! "from"%string = None ->
      grafanaHandler s query = HttpError "Invalid 'from' parameter" StatusBadRequest)
  /\ (forall msg code, grafanaHandler s query = HttpError msg code ->
        code = StatusBadRequest)
  /\ (forall url code, grafanaHandler s query <> HttpRedirect url code).
Proof.
  assert (Hmissing : query !! "from"%string = None -> ~ writesInt64 (Get query "from")).
  { intros Hnone [v [Hv _]]. unfold Get in Hv. rewrite Hnone in Hv. discriminate. }
  unfold grafanaHandler.
  destruct (ParseInt_cases (Get query "from")) as [[Hf [vf Ef]]|[Hf [ef Ef]]];
    rewrite Ef;
    [destruct (ParseInt_cases (Get query "to")) as [[Ht [vt Et]]|[Ht [et Et]]];
     rewrite Et|];
    repeat match goal with
           | |- _ <-> _ => split
           | |- _ /\ _ => split
           | |- forall _, _ => intro
           | |- ~ _ => intro
           | H : exists _, _ |- _ => destruct H
           | H : _ /\ _ |- _ => destruct H
           end;
    try discriminate; try congruence; try tauto; eauto.
Qed.

Lemma grafanaHandler_rejects_bad_bounds_witness :
  grafanaHandler steppedBackStore {[ "to"%string := ["5000"%string] ]}
  = HttpError "Invalid 'from' parameter" StatusBadRequest.
Proof.
  refine (proj1 (proj2 (proj2 (proj2
            (grafanaHandler_rejects_bad_bounds steppedBackStore
               {[ "to"%string := ["5000"%string] ]})))) _).
  reflexivity.
Defined.

Lemma Unix_whole (t : Z) :
  representable t -> GoTime.Unix t 0 = GoTime.mkTime (t + GoTime.unixToInternal) 0.
Proof.
  intros H. unfold GoTime.Unix. simpl. f_equal. now apply wrap64_id.
Qed.

Lemma inRange_seconds (a b : Z) (m : DiskMetrics) :
  representable a -> representable b -> representable (Timestamp m) -> a <= b ->
  inRange (GoTime.Unix a 0) (GoTime.Unix b 0) m = betweenSeconds a b m.
Proof.
  intros Ha Hb Hm Hab. unfold inRange, betweenSeconds.
  rewrite !Unix_whole by assumption.
  unfold GoTime.After, GoTime.Before, GoTime.Equal. simpl.
  apply Bool.eq_iff_eq_true.
  rewrite !orb_true_iff, !andb_true_iff, !orb_true_iff, !andb_true_iff,
    !Z.ltb_lt, !Z.eqb_eq, !Z.leb_le.
  lia.
Qed.

Lemma quot_1000_representable (v : Z) : in_int64 v -> representable (Z.quot v 1000).
Proof.
  unfold representable, in_int64, int64_min, int64_max, GoTime.unixToInternal.
  intros H. pose proof (Z.quot_rem' v 1000) as E.
  pose proof (Z.rem_bound_abs v 1000 ltac:(lia)) as B.
  change ((1969 * 365 + 1969 / 4 - 1969 / 100 + 1969 / 400) * 86400)
    with 62135596800.
  lia.
Qed.

(** X5.  The range-query handler reads its bounds in milliseconds and
    compares in whole seconds, dropping the fraction towards zero: it
    answers with the projection of exactly the stored snapshots whose
    timestamp [t] has [from/1000 <= t <= to/1000].  A snapshot taken up
    to 999 ms before a positive [from] is therefore part of the
    answer. *)
Theorem grafanaHandler_whole_seconds
  (s : MetricsStore) (query : gmap string (list string)) (fromMs toMs : Z) :
  GoStrconv.ParseInt (Get query "from") = inr fromMs ->
  GoStrconv.ParseInt (Get query "to") = inr toMs ->
  Forall (fun m => representable (Timestamp m)) (data s) ->
  Z.quot fromMs 1000 <= Z.quot toMs 1000 ->
  grafanaHandler s query
  = HttpJSON
      (response_of
         (project
            (List.filter (betweenSeconds (Z.quot fromMs 1000) (Z.quot toMs 1000))
               (data s))
            (Get query "path"))).
Proof.
  intros Ef Et Hs Hle. unfold grafanaHandler. rewrite Ef, Et.
  do 3 f_equal. rewrite getRange_filter.
  apply ParseInt_spec in Ef as [_ Hf]. apply ParseInt_spec in Et as [_ Ht].
  apply filter_ext_in_bool. intros m Hm.
  apply inRange_seconds; try (apply quot_1000_representable; assumption);
    [|assumption].
  rewrite List.Forall_forall in Hs. now apply Hs.
Qed.

Lemma grafanaHandler_whole_seconds_witness :
  grafanaHandler steppedBackStore
    {[ "from"%string := ["3999"%string]; "to"%string := ["5000"%string] ]}
  = HttpJSON
      (response_of (project [snapshotAt 5 50; snapshotAt 3 30] "")).
Proof.
  refine (grafanaHandler_whole_seconds steppedBackStore
            {[ "from"%string := ["3999"%string]; "to"%string := ["5000"%string] ]}
            3999 5000 _ _ _ _).
  - reflexivity.
  - reflexivity.
  - apply List.Forall_cons; [|apply List.Forall_cons; [|apply List.Forall_nil]];
      unfold representable, in_int64; vm_compute; split; discriminate.
  - vm_compute. discriminate.
Defined.
(** ** The projection under any filter *)

Lemma append_inj_l (p q s : string) : (p +:+ s = q +:+ s)%string -> p = q.
Proof.
  intros H. apply (f_equal bytes_of) in H. rewrite !bytes_of_app in H.
  apply app_inv_tail in H. apply (f_equal GoStrings.string_of_bytes) in H.
  now rewrite !string_of_bytes_of in H.
Qed.

Lemma last_byte_append (p s : string) (c : Z) :
  last (bytes_of s) = Some c -> last (bytes_of (p +:+ s)) = Some c.
Proof. intros H. now rewrite bytes_of_app, last_app, H. Qed.

(** The names of the series of two paths meet only when the paths and
    the kinds of series are the same. *)
Lemma keys_apart (p q : string) :
  (usedKey p = usedKey q -> p = q)
  /\ (freeKey p = freeKey q -> p = q)
  /\ (percentKey p = percentKey q -> p = q)
  /\ usedKey p <> freeKey q /\ usedKey p <> percentKey q
  /\ freeKey p <> usedKey q /\ freeKey p <> percentKey q
  /\ percentKey p <> usedKey q /\ percentKey p <> freeKey q.
Proof.
  unfold usedKey, freeKey, percentKey.
  repeat split; try apply append_inj_l;
    intros H; apply (f_equal (fun s => last (bytes_of s))) in H;
    erewrite !last_byte_append in H by (vm_compute; reflexivity);
    discriminate.
Qed.

Lemma readingsAt_snoc (p : string) (rs : list (float64 * PartitionMetrics))
  (r : float64 * PartitionMetrics) :
  readingsAt p (rs ++ [r])
  = readingsAt p rs ++ (if String.eqb (Path (snd r)) p then [r] else []).
Proof.
  unfold readingsAt.
  exact (filter_snoc (fun r => String.eqb (Path (snd r)) p) rs r).
Qed.

Lemma seriesOf_snoc (point : float64 * PartitionMetrics -> datapoint)
  (rs : list (float64 * PartitionMetrics)) (r : float64 * PartitionMetrics) :
  seriesOf point (rs ++ [r])
  = Some (default [] (seriesOf point rs) ++ [point r]).
Proof.
  destruct rs as [|r0 rs]; [reflexivity|].
  simpl. now rewrite map_app.
Qed.

Lemma seriesOf_None (point : float64 * PartitionMetrics -> datapoint)
  (rs : list (float64 * PartitionMetrics)) :
  seriesOf point rs = None <-> rs = [].
Proof. destruct rs; simpl; split; congruence. Qed.

(** One turn of the inner loop of the handler keeps the map in step with
    the readings let through so far. *)
Lemma projectPartition_tracks (pathFilter : string) (timestamp : float64)
  (pathMetrics : gmap string (list datapoint))
  (rs : list (float64 * PartitionMetrics)) (partition : PartitionMetrics) :
  tracks pathMetrics rs ->
  tracks (projectPartition pathFilter timestamp pathMetrics partition)
    (rs ++ if selected pathFilter (Path partition)
           then [(timestamp, partition)] else []).
Proof.
  intros [Hser Hkeys]. unfold projectPartition, selected.
  destruct (String.eqb pathFilter "" || String.eqb (Path partition) pathFilter)
    eqn:Hsel.
  2: { apply orb_false_iff in Hsel as [-> ->]. simpl. rewrite app_nil_r.
       now split. }
  replace (negb (String.eqb pathFilter "")
           && negb (String.eqb (Path partition) pathFilter)) with false
    by (rewrite <- negb_orb, Hsel; reflexivity).
  set (q := Path partition).
  fold (usedKey q) (freeKey q) (percentKey q).
  destruct (Hser q) as (Hu & Hf & Hp).
  destruct (keys_distinct q) as (D1 & D2 & D3).
  set (M1 := match pathMetrics !! usedKey q with
             | None => <[percentKey q := []]>
                         (<[freeKey q := []]> (<[usedKey q := []]> pathMetrics))
             | Some _ => pathMetrics
             end).
  assert (HM1 : M1 !! usedKey q = Some (default [] (pathMetrics !! usedKey q))
                /\ M1 !! freeKey q = Some (default [] (pathMetrics !! freeKey q))
                /\ M1 !! percentKey q
                   = Some (default [] (pathMetrics !! percentKey q))
                /\ forall key, key <> usedKey q -> key <> freeKey q ->
                     key <> percentKey q -> M1 !! key = pathMetrics !! key).
  { subst M1. unfold datapoint in *.
    destruct (pathMetrics !! usedKey q) as [u|] eqn:Eu.
    - symmetry in Hu. destruct (readingsAt q rs) as [|r0 rest] eqn:Er;
        [discriminate|].
      rewrite Hf, Hp. simpl. repeat split; try reflexivity; congruence.
    - symmetry in Hu. apply seriesOf_None in Hu. rewrite Hu in Hf, Hp.
      simpl in Hf, Hp. rewrite Hf, Hp. simpl.
      repeat split.
      + rewrite lookup_insert_ne, lookup_insert_ne, lookup_insert_eq by congruence.
        reflexivity.
      + rewrite lookup_insert_ne, lookup_insert_eq by congruence. reflexivity.
      + now rewrite lookup_insert_eq.
      + intros key K1 K2 K3. now rewrite !lookup_insert_ne by congruence. }
  clearbody M1. destruct HM1 as (M1u & M1f & M1p & M1o).
  cbv zeta. unfold datapoint in *.
  rewrite M1u. rewrite (lookup_insert_ne _ (usedKey q) (freeKey q)) by congruence.
  rewrite M1f.
  rewrite (lookup_insert_ne _ (freeKey q) (percentKey q)) by congruence.
  rewrite (lookup_insert_ne _ (usedKey q) (percentKey q)) by congruence.
  rewrite M1p. rewrite Hu, Hf, Hp.
  split.
  - intros p. rewrite readingsAt_snoc. simpl snd. fold q.
    destruct (keys_apart p q) as (I1 & I2 & I3 & A1 & A2 & A3 & A4 & A5 & A6).
    destruct (String.eqb_spec q p) as [<-|Hne].
    + rewrite !seriesOf_snoc.
      rewrite (lookup_insert_ne _ (percentKey q) (usedKey q)) by congruence.
      rewrite (lookup_insert_ne _ (freeKey q) (usedKey q)) by congruence.
      rewrite (lookup_insert_ne _ (percentKey q) (freeKey q)) by congruence.
      rewrite !lookup_insert_eq. repeat split.
    + rewrite app_nil_r.
      assert (N1 : usedKey p <> usedKey q) by (intros E; apply Hne; symmetry; auto).
      assert (N2 : freeKey p <> freeKey q) by (intros E; apply Hne; symmetry; auto).
      assert (N3 : percentKey p <> percentKey q)
        by (intros E; apply Hne; symmetry; auto).
      rewrite !lookup_insert_ne by congruence.
      rewrite !M1o by congruence. apply Hser.
  - intros key Hkey.
    destruct (decide (key = usedKey q)) as [->|K1];
      [|destruct (decide (key = freeKey q)) as [->|K2];
        [|destruct (decide (key = percentKey q)) as [->|K3]]].
    1-3: exists q; split; [|tauto]; rewrite readingsAt_snoc; simpl snd; fold q;
         rewrite String.eqb_refl; intros E; apply app_eq_nil in E as [_ E];
         discriminate.
    rewrite !lookup_insert_ne in Hkey by congruence.
    rewrite M1o in Hkey by assumption.
    destruct (Hkeys key Hkey) as (p & Hp' & Hk). exists p. split; [|exact Hk].
    rewrite readingsAt_snoc. intros E. apply app_eq_nil in E as [E _]. contradiction.
Qed.

Lemma ingested_app (pathFilter : string) (ms1 ms2 : list DiskMetrics) :
  ingested pathFilter (ms1 ++ ms2)
  = ingested pathFilter ms1 ++ ingested pathFilter ms2.
Proof. unfold ingested. apply flat_map_app. Qed.

Lemma projectSnapshot_tracks (pathFilter : string)
  (pathMetrics : gmap string (list datapoint))
  (rs : list (float64 * PartitionMetrics)) (m : DiskMetrics) :
  tracks pathMetrics rs ->
  tracks (projectSnapshot pathFilter pathMetrics m) (rs ++ ingested pathFilter [m]).
Proof.
  unfold projectSnapshot, ingested. simpl. rewrite app_nil_r.
  fold (timestampOf m). generalize (timestampOf m) as ts. intros ts.
  revert pathMetrics rs.
  induction (Partitions m) as [|x parts IH]; intros M rs H; simpl.
  - now rewrite app_nil_r.
  - apply (projectPartition_tracks pathFilter ts) with (partition := x) in H.
    apply IH in H. destruct (selected pathFilter (Path x)); simpl.
    + now rewrite <- app_assoc in H.
    + now rewrite app_nil_r in H.
Qed.

Lemma project_tracks_from (pathFilter : string) (metrics : list DiskMetrics) :
  forall (pathMetrics : gmap string (list datapoint))
         (rs : list (float64 * PartitionMetrics)),
    tracks pathMetrics rs ->
    tracks (fold_left (projectSnapshot pathFilter) metrics pathMetrics)
      (rs ++ ingested pathFilter metrics).
Proof.
  induction metrics as [|m metrics IH]; intros M rs H; simpl fold_left.
  - unfold ingested. simpl. now rewrite app_nil_r.
  - replace (rs ++ ingested pathFilter (m :: metrics))
      with ((rs ++ ingested pathFilter [m]) ++ ingested pathFilter metrics)
      by (rewrite <- app_assoc, <- ingested_app; reflexivity).
    apply IH. now apply projectSnapshot_tracks.
Qed.

Lemma project_tracks (metrics : list DiskMetrics) (pathFilter : string) :
  tracks (project metrics pathFilter) (ingested pathFilter metrics).
Proof.
  unfold project.
  change (ingested pathFilter metrics) with ([] ++ ingested pathFilter metrics).
  apply project_tracks_from.
  split; [intros p; rewrite !lookup_empty; repeat split|].
  intros key [x Hx]. rewrite lookup_empty in Hx. discriminate.
Qed.

Lemma filter_filter_path (pathFilter path : string) (parts : list PartitionMetrics) :
  List.filter (fun p => String.eqb (Path p) path)
    (List.filter (fun p => selected pathFilter (Path p)) parts)
  = if selected pathFilter path
    then List.filter (fun p => String.eqb (Path p) path) parts else [].
Proof.
  induction parts as [|x parts IH]; simpl.
  - now destruct (selected pathFilter path).
  - destruct (String.eqb_spec (Path x) path) as [E|E].
    + rewrite E. destruct (selected pathFilter path) eqn:Hs; simpl.
      * rewrite E, String.eqb_refl, IH. reflexivity.
      * exact IH.
    + destruct (selected pathFilter (Path x)); simpl.
      * destruct (String.eqb_spec (Path x) path); [contradiction|]. exact IH.
      * exact IH.
Qed.

Lemma filter_map_pair (ts : float64) (path : string) (parts : list PartitionMetrics) :
  List.filter (fun r : float64 * PartitionMetrics => String.eqb (Path (snd r)) path)
    (map (fun p => (ts, p)) parts)
  = map (fun p => (ts, p)) (List.filter (fun p => String.eqb (Path p) path) parts).
Proof.
  induction parts as [|x parts IH]; simpl; [reflexivity|].
  destruct (String.eqb (Path x) path); simpl; now rewrite IH.
Qed.

(** The readings of one path among those the filter lets through. *)
Lemma readingsAt_ingested (pathFilter path : string) (metrics : list DiskMetrics) :
  readingsAt path (ingested pathFilter metrics)
  = if selected pathFilter path then readingsOf path metrics else [].
Proof.
  unfold readingsAt, ingested, readingsOf.
  induction metrics as [|m metrics IH]; simpl.
  - now destruct (selected pathFilter path).
  - rewrite List.filter_app, IH, filter_map_pair, filter_filter_path.
    now destruct (selected pathFilter path).
Qed.

(** X6.  What the handler builds for any filter, the empty one
    included: for every partition path the filter lets through (every
    path when the filter is empty) and that has a reading in the range,
    the map holds the series of its used bytes, of its free bytes and
    of its usage percentage, each with one point per reading in
    ingestion order; it holds no series for any other path and no entry
    under any other name. *)
Theorem projection_of_every_path
  (metrics : list DiskMetrics) (pathFilter path : string) :
  let readings := if selected pathFilter path then readingsOf path metrics else [] in
  project metrics pathFilter !! usedKey path = seriesOf usedPoint readings
  /\ project metrics pathFilter !! freeKey path = seriesOf freePoint readings
  /\ project metrics pathFilter !! percentKey path = seriesOf percentPoint readings
  /\ (forall key, is_Some (project metrics pathFilter !! key) ->
        exists p, selected pathFilter p = true /\ readingsOf p metrics <> []
                  /\ (key = usedKey p \/ key = freeKey p \/ key = percentKey p)).
Proof.
  intros readings. destruct (project_tracks metrics pathFilter) as [Hser Hkeys].
  destruct (Hser path) as (Hu & Hf & Hp).
  rewrite readingsAt_ingested in Hu, Hf, Hp. fold readings in Hu, Hf, Hp.
  repeat split; try assumption.
  intros key Hkey. destruct (Hkeys key Hkey) as (p & Hne & Hk).
  rewrite readingsAt_ingested in Hne. exists p.
  destruct (selected pathFilter p); [|contradiction]. repeat split; assumption.
Qed.

(** X7.  The three series of a partition path go together: either the
    map holds none of them, or it holds all three, not empty, of the
    same length and with the same timestamps point by point. *)
Theorem series_of_a_path_are_aligned
  (metrics : list DiskMetrics) (pathFilter path : string) :
  (project metrics pathFilter !! usedKey path = None
   /\ project metrics pathFilter !! freeKey path = None
   /\ project metrics pathFilter !! percentKey path = None)
  \/ (exists used free percent,
        project metrics pathFilter !! usedKey path = Some used
        /\ project metrics pathFilter !! freeKey path = Some free
        /\ project metrics pathFilter !! percentKey path = Some percent
        /\ used <> []
        /\ length used = length free /\ length free = length percent
        /\ map snd used = map snd free /\ map snd free = map snd percent).
Proof.
  destruct (project_tracks metrics pathFilter) as [Hser _].
  destruct (Hser path) as (Hu & Hf & Hp).
  destruct (readingsAt path (ingested pathFilter metrics)) as [|r rs].
  - left. repeat split; assumption.
  - right.
    exists (map usedPoint (r :: rs)), (map freePoint (r :: rs)),
      (map percentPoint (r :: rs)).
    split; [exact Hu|]. split; [exact Hf|]. split; [exact Hp|].
    split; [discriminate|]. rewrite !length_map, !map_map. repeat split.
Qed.
(** ** Sorting a series twice *)

(** X15.  Sorting is idempotent on the series the handler builds: for
    points whose timestamps are numbers, sorting the sorted series
    again gives it back unchanged, and sorting neither adds nor drops a
    point. *)
Theorem sortDatapoints_idempotent (points : list datapoint) :
  Forall timed points ->
  sortDatapoints (sortDatapoints points) = sortDatapoints points
  /\ length (sortDatapoints points) = length points
  /\ (forall pt, In pt (sortDatapoints points) <-> In pt points).
Proof.
  intros Ht. destruct (sortDatapoints_spec points Ht) as (_ & Hperm & Hsorted & _).
  split; [now apply sortDatapoints_sorted_id|].
  split; [now apply Permutation_length|].
  intros pt. split; apply Permutation_in; [exact Hperm | now symmetry].
Qed.

Lemma sortDatapoints_idempotent_witness :
  sortDatapoints (sortDatapoints (rev (Datapoints scenarioUsed)))
  = sortDatapoints (rev (Datapoints scenarioUsed)).
Proof.
  refine (proj1 (sortDatapoints_idempotent (rev (Datapoints scenarioUsed)) _)).
  repeat (apply List.Forall_cons; [reflexivity|]). apply List.Forall_nil.
Defined.
(** ** The relative-time parser: white space, values and errors *)

Lemma asciiSpace_ascii (c : Z) :
  GoStrings.asciiSpace c = true -> (GoUtf8.RuneSelf <=? c) = false.
Proof.
  unfold GoStrings.asciiSpace, GoUtf8.RuneSelf. intros H.
  apply Z.leb_gt. apply orb_true_iff in H as [H|H].
  - apply andb_true_iff in H as [_ H]. apply Z.leb_le in H. lia.
  - apply Z.eqb_eq in H. lia.
Qed.

Lemma visible_spec (c : Z) :
  visible c = true ->
  (GoUtf8.RuneSelf <=? c) = false /\ GoStrings.asciiSpace c = false.
Proof.
  unfold visible. intros H. apply andb_true_iff in H as [H1 H2].
  apply Z.ltb_lt in H1. apply negb_true_iff in H2. split; [|exact H2].
  apply Z.leb_gt. exact H1.
Qed.

Lemma asciiStart_spaces (w rest : list Z) (n : nat) :
  forallb GoStrings.asciiSpace w = true ->
  GoStrings.asciiStart (w ++ rest) n = GoStrings.asciiStart rest (n + length w).
Proof.
  revert n. induction w as [|c w IH]; intros n H; simpl.
  - f_equal. lia.
  - simpl in H. apply andb_true_iff in H as [Hc Hw].
    rewrite (asciiSpace_ascii c Hc), Hc, (IH _ Hw). f_equal. lia.
Qed.

Lemma asciiStop_spaces (w rest : list Z) (n : nat) :
  forallb GoStrings.asciiSpace w = true ->
  GoStrings.asciiStop (w ++ rest) n = GoStrings.asciiStop rest (n - length w).
Proof.
  revert n. induction w as [|c w IH]; intros n H; simpl.
  - f_equal. lia.
  - simpl in H. apply andb_true_iff in H as [Hc Hw].
    rewrite (asciiSpace_ascii c Hc), Hc, (IH _ Hw). f_equal. lia.
Qed.

Lemma forallb_rev {A} (f : A -> bool) (l : list A) :
  forallb f (rev l) = forallb f l.
Proof.
  induction l as [|x l IH]; simpl; [reflexivity|].
  rewrite forallb_app, IH. simpl. rewrite andb_true_r. apply andb_comm.
Qed.

(** [strings.TrimSpace] on white space around a body with visible
    ends. *)
Lemma TrimSpace_bytes_around (w1 p w2 : list Z) (c d : Z) :
  forallb GoStrings.asciiSpace w1 = true ->
  forallb GoStrings.asciiSpace w2 = true ->
  head p = Some c -> last p = Some d -> visible c = true -> visible d = true ->
  GoStrings.TrimSpace_bytes (w1 ++ p ++ w2) = p.
Proof.
  intros H1 H2 Hc Hd Vc Vd. unfold GoStrings.TrimSpace_bytes.
  apply visible_spec in Vc as [Vc1 Vc2]. apply visible_spec in Vd as [Vd1 Vd2].
  rewrite (asciiStart_spaces w1 _ 0 H1).
  destruct p as [|c' p']; [discriminate|]. injection Hc as ->.
  simpl GoStrings.asciiStart. rewrite Vc1, Vc2. simpl "+"%nat.
  rewrite drop_app_length.
  assert (Hrev : exists r, rev (c :: p') = d :: r).
  { destruct (rev (c :: p')) as [|x r] eqn:E.
    - apply (f_equal (@length Z)) in E. rewrite length_rev in E. discriminate.
    - exists r. f_equal.
      assert (Hl : last (rev (x :: r)) = Some x) by (simpl; apply last_snoc).
      rewrite <- E, rev_involutive in Hl. congruence. }
  destruct Hrev as [r Hr]. rewrite rev_app_distr.
  rewrite asciiStop_spaces by (now rewrite forallb_rev).
  rewrite Hr. simpl GoStrings.asciiStop. rewrite Vd1, Vd2.
  rewrite ?length_rev, ?length_app.
  match goal with
  | |- take ?n _ = _ => replace n with (length (c :: p')) by (simpl; lia)
  end.
  apply take_app_length.
Qed.

Lemma TrimSpace_bytes_spaces (w : list Z) :
  forallb GoStrings.asciiSpace w = true -> GoStrings.TrimSpace_bytes w = [].
Proof.
  intros H. unfold GoStrings.TrimSpace_bytes.
  rewrite <- (app_nil_r w) at 1. rewrite (asciiStart_spaces w [] 0 H).
  simpl. rewrite drop_all. reflexivity.
Qed.

Lemma append_nil_r (s : string) : (s +:+ "")%string = s.
Proof.
  induction s as [|a s IH]; [reflexivity|].
  change (String a (s +:+ "") = String a s). now rewrite IH.
Qed.

(** X8.  White space around a relative time is ignored, white space
    inside it is not: with ASCII white space before and after a body
    that starts and ends with a visible ASCII byte, the parser gives
    what it gives on the body alone; a string of white space only is
    the empty-string error. *)
Theorem parse_ignores_surrounding_space (ws1 body ws2 : string) :
  isAsciiSpaces ws1 = true -> isAsciiSpaces ws2 = true ->
  (visibleEnds body = true ->
   GoStrings.TrimSpace (ws1 +:+ body +:+ ws2) = body
   /\ parseSimpleTime (ws1 +:+ body +:+ ws2) = parseSimpleTime body)
  /\ parseSimpleTime (ws1 +:+ ws2) = inl EmptyTimeString.
Proof.
  intros H1 H2. unfold isAsciiSpaces in *. split.
  - intros Hv. unfold visibleEnds in Hv.
    destruct (head (bytes_of body)) as [c|] eqn:Hc; [|discriminate].
    destruct (last (bytes_of body)) as [d|] eqn:Hd; [|discriminate].
    apply andb_true_iff in Hv as [Vc Vd].
    assert (E : forall w1 w2,
              forallb GoStrings.asciiSpace (bytes_of w1) = true ->
              forallb GoStrings.asciiSpace (bytes_of w2) = true ->
              GoStrings.TrimSpace (w1 +:+ body +:+ w2) = body).
    { intros w1 w2 Hw1 Hw2. unfold GoStrings.TrimSpace.
      rewrite !bytes_of_app.
      rewrite (TrimSpace_bytes_around _ _ _ c d Hw1 Hw2 Hc Hd Vc Vd).
      apply string_of_bytes_of. }
    split; [now apply E|]. unfold parseSimpleTime. rewrite (E ws1 ws2 H1 H2).
    pose proof (E EmptyString EmptyString eq_refl eq_refl) as E0.
    change (GoStrings.TrimSpace (body +:+ "") = body) in E0.
    rewrite append_nil_r in E0. now rewrite E0.
  - unfold parseSimpleTime, GoStrings.TrimSpace.
    rewrite TrimSpace_bytes_spaces; [reflexivity|].
    rewrite bytes_of_app, forallb_app, H1, H2. reflexivity.
Qed.

Lemma parse_ignores_surrounding_space_witness :
  parseSimpleTime ("  " +:+ "30m" +:+ String "010" EmptyString)
  = parseSimpleTime "30m".
Proof.
  refine (proj2 (proj1 (parse_ignores_surrounding_space
                          "  " "30m" (String "010" EmptyString) _ _) _));
    reflexivity.
Defined.

Lemma wrap64_mul_l (a b : Z) : wrap64 (wrap64 a * b) = wrap64 (a * b).
Proof.
  unfold wrap64.
  replace ((((a + 2 ^ 63) mod 2 ^ 64 - 2 ^ 63) * b + 2 ^ 63))
    with ((a + 2 ^ 63) mod 2 ^ 64 * b + (2 ^ 63 - 2 ^ 63 * b)) by lia.
  rewrite Zplus_mod, Zmult_mod_idemp_l, <- Zplus_mod. f_equal. f_equal. lia.
Qed.

(** What the three tests on the lowered unit select. *)
Lemma parse_unit (unit : ascii) (value : Z) :
  (let lower := GoStrings.ToLower1 unit in
   if String.eqb lower "m" then inr (mul64 value GoTime.Minute)
   else if String.eqb lower "h" then inr (mul64 value GoTime.Hour)
   else if String.eqb lower "d" then inr (mul64 (mul64 value 24) GoTime.Hour)
   else inl (UnsupportedTimeUnit (String unit EmptyString)))
  = match unitNanos unit with
    | Some u => inr (wrap64 (value * u))
    | None => inl (UnsupportedTimeUnit (String unit EmptyString))
    end.
Proof.
  pose proof (ToLower1_unit unit) as Hl. cbv zeta in *.
  destruct (unitNanos unit) as [u|].
  - destruct Hl as [[-> ->]|[(-> & -> & ->)|(-> & -> & -> & ->)]];
      try reflexivity.
    unfold mul64. rewrite wrap64_mul_l. do 2 f_equal. lia.
  - destruct Hl as (-> & -> & ->). reflexivity.
Qed.

(** The parser in one equation: trim, split off the last byte, read the
    number, look the unit up. *)
Lemma parseSimpleTime_eq (timeStr : string) :
  parseSimpleTime timeStr
  = match splitLast (GoStrings.TrimSpace timeStr) with
    | None => inl EmptyTimeString
    | Some (number, unit) =>
        match GoStrconv.ParseInt number with
        | inl _ => inl (InvalidNumberFormat number)
        | inr value =>
            match unitNanos unit with
            | Some u => inr (wrap64 (value * u))
            | None => inl (UnsupportedTimeUnit (String unit EmptyString))
            end
        end
    end.
Proof.
  unfold parseSimpleTime, GoStrconv.Atoi.
  destruct (splitLast (GoStrings.TrimSpace timeStr)) as [[number unit]|];
    [|reflexivity].
  destruct (GoStrconv.ParseInt number) as [e|v]; [reflexivity|].
  apply parse_unit.
Qed.

Lemma snoc_inj (number number' : string) (unit unit' : ascii) :
  (number +:+ String unit EmptyString)%string
  = (number' +:+ String unit' EmptyString)%string ->
  number = number' /\ unit = unit'.
Proof.
  intros E. apply (f_equal splitLast) in E. rewrite !splitLast_snoc in E.
  now injection E as -> ->.
Qed.

(** X9.  The value of every relative time the parser accepts: the
    trimmed string is a number followed by one byte; the number is an
    optional sign and decimal digits writing an [int64] [v]; the byte
    names a unit of [u] nanoseconds; and the duration is [v * u]
    wrapped to 64 bits.  A sign is accepted, so a duration can be
    negative. *)
Theorem parse_succeeds_exactly (timeStr : string) (d : Z) :
  parseSimpleTime timeStr = inr d <->
  exists number unit v u,
    GoStrings.TrimSpace timeStr = (number +:+ String unit EmptyString)%string
    /\ signedDecimal number = Some v /\ in_int64 v
    /\ unitNanos unit = Some u
    /\ d = wrap64 (v * u).
Proof.
  rewrite parseSimpleTime_eq. split.
  - destruct (splitLast (GoStrings.TrimSpace timeStr)) as [[number unit]|] eqn:Es;
      [|discriminate].
    apply splitLast_Some in Es.
    destruct (GoStrconv.ParseInt number) as [e|v] eqn:Ev; [discriminate|].
    apply ParseInt_spec in Ev as [Ev Hv].
    destruct (unitNanos unit) as [u|] eqn:Eu; [|discriminate].
    intros [= <-]. exists number, unit, v, u. auto.
  - intros (number & unit & v & u & Es & Ev & Hv & Eu & ->).
    rewrite Es, splitLast_snoc.
    assert (Ep : GoStrconv.ParseInt number = inr v) by now apply ParseInt_spec.
    now rewrite Ep, Eu.
Qed.

(** X10.  Which error the parser gives, and with what text: the
    empty-string error exactly when nothing is left after trimming; the
    number error, carrying everything before the last byte, exactly
    when that part does not write an [int64], whatever the last byte
    is; the unit error, carrying the last byte, exactly when the number
    is good and the byte names no unit. *)
Theorem parse_error_kinds (timeStr : string) :
  (parseSimpleTime timeStr = inl EmptyTimeString
   <-> GoStrings.TrimSpace timeStr = EmptyString)
  /\ (forall number,
        parseSimpleTime timeStr = inl (InvalidNumberFormat number) <->
        exists unit,
          GoStrings.TrimSpace timeStr = (number +:+ String unit EmptyString)%string
          /\ ~ writesInt64 number)
  /\ (forall text,
        parseSimpleTime timeStr = inl (UnsupportedTimeUnit text) <->
        exists number unit,
          text = String unit EmptyString
          /\ GoStrings.TrimSpace timeStr
             = (number +:+ String unit EmptyString)%string
          /\ writesInt64 number /\ unitNanos unit = None).
Proof.
  rewrite parseSimpleTime_eq.
  destruct (splitLast (GoStrings.TrimSpace timeStr)) as [[number unit]|] eqn:Es.
  - apply splitLast_Some in Es. rewrite Es.
    assert (Hne : (number +:+ String unit EmptyString)%string <> EmptyString)
      by (destruct number; discriminate).
    destruct (ParseInt_cases number) as [[Hn [v Ev]]|[Hn [e Ev]]]; rewrite Ev.
    + destruct (unitNanos unit) as [u|] eqn:Eu.
      * split; [split; [discriminate | contradiction]|].
        split; intros x; (split; [discriminate|]).
        -- intros (unit' & E & Hbad). apply snoc_inj in E as [<- _]. contradiction.
        -- intros (number' & unit' & _ & E & _ & Hnone).
           apply snoc_inj in E as [_ <-]. congruence.
      * split; [split; [discriminate | contradiction]|].
        split; intros x; split.
        -- discriminate.
        -- intros (unit' & E & Hbad). apply snoc_inj in E as [<- _]. contradiction.
        -- intros [= <-]. exists number, unit. auto.
        -- intros (number' & unit' & -> & E & _ & _).
           apply snoc_inj in E as [_ <-]. reflexivity.
    + split; [split; [discriminate | contradiction]|].
      split; intros x; split.
      * intros [= <-]. exists unit. auto.
      * intros (unit' & E & _). apply snoc_inj in E as [<- _]. reflexivity.
      * discriminate.
      * intros (number' & unit' & _ & E & Hgood & _).
        apply snoc_inj in E as [<- _]. contradiction.
  - apply splitLast_None in Es. rewrite Es.
    split; [split; reflexivity|].
    split; intros x; (split; [discriminate|]).
    + intros (unit & E & _). destruct x; discriminate.
    + intros (number & unit & _ & E & _). destruct number; discriminate.
Qed.
(** ** From the relative-time handler to the range-query handler *)

(** The digits that [%d] writes, read back. *)
Lemma valueFrom_cons (c : Z) (p : list Z) (n : Z) :
  valueFrom (c :: p) n = valueFrom p (n * 10 + (c - 0x30)).
Proof. reflexivity. Qed.

(** Evaluate the byte of a character that is written out. *)
Ltac eval_byte :=
  match goal with
  | |- context [byte_of ?c] =>
      let b := eval vm_compute in (byte_of c) in change (byte_of c) with b
  end.

Lemma uint_digits_acc (d : Decimal.uint) :
  forall acc : positive,
    forallb isDigit (bytes_of (NilEmpty.string_of_uint d)) = true
    /\ valueFrom (bytes_of (NilEmpty.string_of_uint d)) (Z.pos acc)
       = Z.pos (Pos.of_uint_acc d acc).
Proof.
  induction d as [|d IH|d IH|d IH|d IH|d IH|d IH|d IH|d IH|d IH|d IH];
    intros acc; [split; reflexivity|..];
    (split; [apply (IH acc)|]);
    cbn [NilEmpty.string_of_uint bytes_of Pos.of_uint_acc];
    rewrite valueFrom_cons; eval_byte;
    match goal with
    | |- valueFrom _ ?n = Z.pos (Pos.of_uint_acc _ ?a) =>
        replace n with (Z.pos a) by lia
    end;
    apply (IH _).
Qed.

Lemma uint_digits (d : Decimal.uint) :
  forallb isDigit (bytes_of (NilEmpty.string_of_uint d)) = true
  /\ decimalValue (bytes_of (NilEmpty.string_of_uint d)) = Z.of_N (Pos.of_uint d).
Proof.
  unfold decimalValue.
  induction d as [|d IH|d IH|d IH|d IH|d IH|d IH|d IH|d IH|d IH|d IH];
    [split; reflexivity|..];
    (split; [apply (uint_digits_acc d 1)|]);
    cbn [NilEmpty.string_of_uint bytes_of Pos.of_uint];
    rewrite valueFrom_cons; eval_byte;
    first [ exact (proj2 IH)
          | match goal with
            | |- valueFrom _ ?n = Z.of_N (N.pos (Pos.of_uint_acc _ ?a)) =>
                change n with (Z.pos a)
            end;
            apply (uint_digits_acc d) ].
Qed.

Lemma to_uint_digits (p : positive) :
  exists c rest,
    bytes_of (NilZero.string_of_uint (Pos.to_uint p)) = c :: rest
    /\ isDigit c = true /\ forallb isDigit rest = true
    /\ decimalValue (c :: rest) = Z.pos p.
Proof.
  pose proof (Unsigned.of_to p) as Hp.
  destruct (uint_digits (Pos.to_uint p)) as [Hd Hv]. rewrite Hp in Hv.
  assert (E : NilZero.string_of_uint (Pos.to_uint p)
              = NilEmpty.string_of_uint (Pos.to_uint p)).
  { destruct (Pos.to_uint p); [discriminate | reflexivity..]. }
  rewrite E.
  destruct (bytes_of (NilEmpty.string_of_uint (Pos.to_uint p))) as [|c rest].
  - discriminate.
  - simpl in Hd. apply andb_true_iff in Hd as [Hc Hr]. exists c, rest. auto.
Qed.

(** [%d] and [strconv.ParseInt] are inverse on [int64]. *)
Lemma signedDecimal_FormatInt (z : Z) : signedDecimal (GoStrconv.FormatInt z) = Some z.
Proof.
  unfold GoStrconv.FormatInt. destruct z as [|p|p]; [reflexivity|..];
    cbn [Z.to_int NilZero.string_of_int];
    destruct (to_uint_digits p) as (c & rest & E & Hc & Hr & Hv);
    unfold signedDecimal.
  - rewrite E. apply isDigit_range in Hc as Hc'.
    destruct (Z.eqb_spec c 43) as [?|_]; [lia|].
    destruct (Z.eqb_spec c 45) as [?|_]; [lia|].
    simpl orb. cbn [forallb]. rewrite Hc, Hr. simpl. now rewrite Hv.
  - cbn [bytes_of]. rewrite E. change (byte_of "-") with 45. simpl orb.
    change (45 =? 45) with true. cbn [forallb]. rewrite Hc, Hr. simpl.
    now rewrite Hv.
Qed.

Lemma ParseInt_FormatInt (z : Z) :
  in_int64 z -> GoStrconv.ParseInt (GoStrconv.FormatInt z) = inr z.
Proof.
  intros Hz. apply ParseInt_spec. split; [apply signedDecimal_FormatInt | exact Hz].
Qed.

Lemma quot_in_int64 (z k : Z) : in_int64 z -> 0 < k -> in_int64 (Z.quot z k).
Proof.
  unfold in_int64, int64_min, int64_max. intros Hz Hk.
  destruct (Z.le_gt_cases 0 z) as [H0|H0].
  - pose proof (Z.quot_pos z k H0 Hk).
    assert (Z.quot z k <= z) by (apply Z.quot_le_upper_bound; nia). lia.
  - pose proof (Z.quot_opp_l z k ltac:(lia)) as E.
    pose proof (Z.quot_pos (- z) k ltac:(lia) Hk).
    assert (Z.quot (- z) k <= - z) by (apply Z.quot_le_upper_bound; nia). lia.
Qed.

(** X11.  The redirect of the relative-time handler is one the
    range-query handler accepts: the two bounds it writes with [%d] are
    [int64]s that [strconv.ParseInt] reads back unchanged, so the
    handler behind the address answers with a projection, never with
    400, whatever the clock and the duration are. *)
Theorem redirect_bounds_are_accepted
  (now : GoTime.Time) (query : gmap string (list string)) (s : MetricsStore) (d : Z) :
  parseSimpleTime (Get query "time") = inr d ->
  exists fromMs toMs,
    grafanaSimpleHandler now query
    = HttpRedirect (rangeQueryURL (Get query "path") fromMs toMs)
        StatusTemporaryRedirect
    /\ GoStrconv.ParseInt (GoStrconv.FormatInt fromMs) = inr fromMs
    /\ GoStrconv.ParseInt (GoStrconv.FormatInt toMs) = inr toMs
    /\ grafanaHandler s (rangeQuery (Get query "path") fromMs toMs)
       = HttpJSON
           (response_of
              (project
                 (getRange s (GoTime.Unix (Z.quot fromMs 1000) 0)
                    (GoTime.Unix (Z.quot toMs 1000) 0))
                 (Get query "path"))).
Proof.
  intros Hd. rewrite (handler_redirect now query d Hd).
  set (fromMs := Z.quot (GoTime.UnixNano (GoTime.Add now (neg64 d))) GoTime.Millisecond).
  set (toMs := Z.quot (GoTime.UnixNano now) GoTime.Millisecond).
  assert (Hf : in_int64 fromMs)
    by (apply quot_in_int64; [apply wrap64_range | reflexivity]).
  assert (Ht : in_int64 toMs)
    by (apply quot_in_int64; [apply wrap64_range | reflexivity]).
  exists fromMs, toMs. split; [reflexivity|].
  pose proof (ParseInt_FormatInt _ Hf) as Ef.
  pose proof (ParseInt_FormatInt _ Ht) as Et.
  split; [exact Ef|]. split; [exact Et|].
  unfold grafanaHandler, rangeQuery.
  assert (Gf : Get ({[ "path"%string := [Get query "path"];
                       "from"%string := [GoStrconv.FormatInt fromMs];
                       "to"%string := [GoStrconv.FormatInt toMs] ]}
                    : gmap string (list string)) "from"
               = GoStrconv.FormatInt fromMs).
  { unfold Get. now simplify_map_eq. }
  assert (Gt : Get ({[ "path"%string := [Get query "path"];
                       "from"%string := [GoStrconv.FormatInt fromMs];
                       "to"%string := [GoStrconv.FormatInt toMs] ]}
                    : gmap string (list string)) "to"
               = GoStrconv.FormatInt toMs).
  { unfold Get. now simplify_map_eq. }
  assert (Gp : Get ({[ "path"%string := [Get query "path"];
                       "from"%string := [GoStrconv.FormatInt fromMs];
                       "to"%string := [GoStrconv.FormatInt toMs] ]}
                    : gmap string (list string)) "path"
               = Get query "path").
  { unfold Get at 1. now simplify_map_eq. }
  rewrite Gf, Gt, Gp, Ef, Et. reflexivity.
Qed.

Lemma redirect_bounds_are_accepted_witness :
  exists fromMs toMs,
    grafanaSimpleHandler (GoTime.Unix 1700000000 123456789) lastHourQuery
    = HttpRedirect (rangeQueryURL (Get lastHourQuery "path") fromMs toMs)
        StatusTemporaryRedirect
    /\ GoStrconv.ParseInt (GoStrconv.FormatInt fromMs) = inr fromMs
    /\ GoStrconv.ParseInt (GoStrconv.FormatInt toMs) = inr toMs
    /\ grafanaHandler steppedBackStore (rangeQuery (Get lastHourQuery "path") fromMs toMs)
       = HttpJSON
           (response_of
              (project
                 (getRange steppedBackStore (GoTime.Unix (Z.quot fromMs 1000) 0)
                    (GoTime.Unix (Z.quot toMs 1000) 0))
                 (Get lastHourQuery "path"))).
Proof.
  refine (redirect_bounds_are_accepted (GoTime.Unix 1700000000 123456789)
            lastHourQuery steppedBackStore (GoTime.Hour) _).
  reflexivity.
Defined.
(** ** The query string of the redirect, parsed *)

Lemma cut_plain (sep : Z) (a : list Z) :
  forallb (fun c => negb (c =? sep)) a = true ->
  (forall b, GoURL.cut sep (a ++ sep :: b) = (a, b)) /\ GoURL.cut sep a = (a, []).
Proof.
  induction a as [|c a IH]; intros H.
  - split; [intros b; simpl; now rewrite Z.eqb_refl | reflexivity].
  - simpl in H. apply andb_true_iff in H as [Hc Ha]. apply negb_true_iff in Hc.
    destruct (IH Ha) as [IH1 IH2]. split.
    + intros b. simpl. now rewrite Hc, IH1.
    + simpl. now rewrite Hc, IH2.
Qed.

Lemma plainByte_spec (c : Z) :
  plainByte c = true ->
  (c =? 0x26) = false /\ (c =? 0x3B) = false /\ (c =? 0x25) = false
  /\ (c =? 0x2B) = false /\ (c =? 0x23) = false.
Proof.
  unfold plainByte. intros H. apply negb_true_iff in H.
  repeat (apply orb_false_iff in H as [H ?]). repeat split; assumption.
Qed.

Lemma unescape_plain (s : list Z) :
  forallb plainByte s = true -> GoURL.unescape s = Some s.
Proof.
  induction s as [|c s IH]; [reflexivity|]. simpl. intros H.
  apply andb_true_iff in H as [Hc Hs].
  destruct (plainByte_spec c Hc) as (_ & _ & H37 & H43 & _).
  rewrite H37, H43, (IH Hs). reflexivity.
Qed.

Lemma plain_no (sep : Z) (s : list Z) :
  sep = 0x26 \/ sep = 0x3B ->
  forallb plainByte s = true -> forallb (fun c => negb (c =? sep)) s = true.
Proof.
  intros Hsep H. rewrite forallb_forall in *. intros c Hc. specialize (H c Hc).
  destruct (plainByte_spec c H) as (H1 & H2 & _).
  destruct Hsep as [->| ->]; apply negb_true_iff; assumption.
Qed.

Lemma existsb_semicolon (s : list Z) :
  forallb plainByte s = true -> existsb (Z.eqb 0x3B) s = false.
Proof.
  intros H. apply (plain_no 0x3B) in H; [|now right].
  induction s as [|c s IH]; [reflexivity|]. cbn [existsb forallb] in *.
  apply andb_true_iff in H as [Hc Hs]. apply negb_true_iff in Hc.
  rewrite (Z.eqb_sym 59 c), Hc. now apply IH.
Qed.

(** One turn of the loop of [parseQuery] on a parameter [key=value]
    whose key is a word and whose value is plain. *)
Lemma parseQuery_step (fuel : nat) (m : GoURL.Values) (key : string)
  (value rest : list Z) (last : bool) :
  forallb plainByte (bytes_of key) = true ->
  forallb (fun c => negb (c =? 0x3D)) (bytes_of key) = true ->
  forallb plainByte value = true ->
  GoURL.parseQuery (S fuel) m
    (bytes_of key ++ 0x3D :: value ++ (if last then [] else 0x26 :: rest))
  = GoURL.parseQuery fuel
      (GoURL.Add m key (GoStrings.string_of_bytes value))
      (if last then [] else rest).
Proof.
  intros Hk Hk' Hv.
  remember (bytes_of key ++ 0x3D :: value) as piece eqn:Epiece.
  assert (Hpiece : forallb plainByte piece = true)
    by (subst piece; rewrite forallb_app; simpl; now rewrite Hk, Hv).
  assert (C3 : GoURL.cut 0x3D piece = (bytes_of key, value)).
  { subst piece. destruct (cut_plain 0x3D (bytes_of key) Hk') as [C3 _].
    apply C3. }
  assert (Hpne : piece <> []) by (subst piece; destruct (bytes_of key); discriminate).
  remember (bytes_of key ++ 0x3D :: value ++ (if last then [] else 0x26 :: rest))
    as query eqn:Equery.
  assert (Hcut : GoURL.cut 0x26 query = (piece, if last then [] else rest)).
  { destruct (cut_plain 0x26 piece) as [C1 C2];
      [apply plain_no; [now left | exact Hpiece]|].
    subst query. destruct last.
    - rewrite app_nil_r, <- Epiece. exact C2.
    - specialize (C1 rest). rewrite Epiece, <- app_assoc in C1.
      rewrite Epiece. exact C1. }
  assert (Hqne : query <> []) by (subst query; destruct (bytes_of key); discriminate).
  clear Epiece Equery. cbn [GoURL.parseQuery].
  destruct query as [|c0 l0]; [congruence|].
  rewrite Hcut, (existsb_semicolon _ Hpiece).
  destruct piece as [|c1 l1]; [congruence|].
  rewrite C3, (unescape_plain _ Hk), (unescape_plain _ Hv), string_of_bytes_of.
  reflexivity.
Qed.

Lemma FormatInt_plain (z : Z) :
  forallb plainByte (bytes_of (GoStrconv.FormatInt z)) = true.
Proof.
  assert (Hd : forall p, forallb isDigit p = true -> forallb plainByte p = true).
  { intros p Hp. rewrite forallb_forall in *. intros c Hc.
    apply Hp, isDigit_range in Hc. unfold plainByte.
    destruct (Z.eqb_spec c 38); [lia|]. destruct (Z.eqb_spec c 59); [lia|].
    destruct (Z.eqb_spec c 37); [lia|]. destruct (Z.eqb_spec c 43); [lia|].
    destruct (Z.eqb_spec c 35); [lia|]. reflexivity. }
  unfold GoStrconv.FormatInt. destruct z as [|p|p]; [reflexivity|..];
    cbn [Z.to_int NilZero.string_of_int];
    destruct (to_uint_digits p) as (c & rest & E & Hc & Hr & _).
  - rewrite E. apply (Hd (c :: rest)). simpl. now rewrite Hc, Hr.
  - cbn [bytes_of]. rewrite E. cbn [forallb]. apply andb_true_iff. split.
    + reflexivity.
    + apply (Hd (c :: rest)). simpl. now rewrite Hc, Hr.
Qed.

Lemma bytes_of_length (s : string) : length (bytes_of s) = String.length s.
Proof. induction s as [|c s IH]; simpl; [reflexivity | now rewrite IH]. Qed.

(** The three parameters of a raw query, parsed. *)
Lemma Query_three (k1 k2 k3 v1 v2 v3 : string) :
  forallb plainByte (bytes_of k1) = true ->
  forallb (fun c => negb (c =? 0x3D)) (bytes_of k1) = true ->
  forallb plainByte (bytes_of k2) = true ->
  forallb (fun c => negb (c =? 0x3D)) (bytes_of k2) = true ->
  forallb plainByte (bytes_of k3) = true ->
  forallb (fun c => negb (c =? 0x3D)) (bytes_of k3) = true ->
  plain v1 = true -> plain v2 = true -> plain v3 = true ->
  GoURL.Query (k1 +:+ "=" +:+ v1 +:+ "&" +:+ k2 +:+ "=" +:+ v2 +:+ "&"
               +:+ k3 +:+ "=" +:+ v3)
  = GoURL.Add (GoURL.Add (GoURL.Add ∅ k1 v1) k2 v2) k3 v3.
Proof.
  intros K1 K1' K2 K2' K3 K3' V1 V2 V3. unfold GoURL.Query, plain in *.
  set (s := (k1 +:+ "=" +:+ v1 +:+ "&" +:+ k2 +:+ "=" +:+ v2 +:+ "&"
             +:+ k3 +:+ "=" +:+ v3)%string).
  assert (Hb : bytes_of s
               = bytes_of k1 ++ 0x3D :: bytes_of v1
                 ++ 0x26 :: (bytes_of k2 ++ 0x3D :: bytes_of v2
                             ++ 0x26 :: (bytes_of k3 ++ 0x3D :: bytes_of v3 ++ []))).
  { subst s. rewrite !bytes_of_app. cbn [bytes_of app].
    rewrite app_nil_r. reflexivity. }
  assert (Hlen : (3 <= String.length s)%nat).
  { rewrite <- bytes_of_length, Hb.
    repeat (rewrite length_app; cbn [length]). lia. }
  destruct (String.length s) as [|[|[|n]]]; try lia.
  rewrite Hb.
  rewrite (parseQuery_step _ _ k1 (bytes_of v1) _ false K1 K1' V1).
  rewrite (parseQuery_step _ _ k2 (bytes_of v2) _ false K2 K2' V2).
  rewrite (parseQuery_step _ _ k3 (bytes_of v3) [] true K3 K3' V3).
  rewrite !string_of_bytes_of. reflexivity.
Qed.

(** X22.  The address of the redirect read back.  When the path has no
    [&], [;], [%], [+] or [#], the query string of the address that the
    relative-time handler builds is parsed by [url.ParseQuery] into
    exactly the three parameters [path], [from] and [to] with the
    values written, so the range-query handler sees the path and the
    bounds that were computed. *)
Theorem redirect_query_parses_back (path : string) (fromMs toMs : Z) :
  plain path = true ->
  rangeQueryURL path fromMs toMs
  = ("/grafana?" +:+ rangeRawQuery path fromMs toMs)%string
  /\ GoURL.Query (rangeRawQuery path fromMs toMs) = rangeQuery path fromMs toMs
  /\ Get (GoURL.Query (rangeRawQuery path fromMs toMs)) "path" = path
  /\ Get (GoURL.Query (rangeRawQuery path fromMs toMs)) "from"
     = GoStrconv.FormatInt fromMs
  /\ Get (GoURL.Query (rangeRawQuery path fromMs toMs)) "to"
     = GoStrconv.FormatInt toMs.
Proof.
  intros Hp. split; [reflexivity|].
  assert (E : GoURL.Query (rangeRawQuery path fromMs toMs)
              = rangeQuery path fromMs toMs).
  { unfold rangeRawQuery.
    change ("path=" +:+ path +:+ "&from=" +:+ GoStrconv.FormatInt fromMs
            +:+ "&to=" +:+ GoStrconv.FormatInt toMs)%string
      with ("path" +:+ "=" +:+ path +:+ "&" +:+ "from" +:+ "="
            +:+ GoStrconv.FormatInt fromMs +:+ "&" +:+ "to" +:+ "="
            +:+ GoStrconv.FormatInt toMs)%string.
    rewrite Query_three;
      [| first [reflexivity | exact Hp | apply FormatInt_plain] ..].
    reflexivity. }
  rewrite E. split; [reflexivity|]. unfold Get, rangeQuery.
  repeat split; now simplify_map_eq.
Qed.

Lemma redirect_query_parses_back_witness :
  GoURL.Query (rangeRawQuery "/data" 1000 2000) = rangeQuery "/data" 1000 2000.
Proof.
  refine (proj1 (proj2 (redirect_query_parses_back "/data" 1000 2000 _))).
  reflexivity.
Defined.

(** X23.  The path is copied into the address as it is, without
    escaping.  A path that goes on with [&from=v] therefore adds a
    parameter of its own: the range-query handler, which takes the
    first value of [from], reads [v] as its lower bound and not the
    bound that was computed, and sees only the part before the [&] as
    the path. *)
Theorem path_overrides_from (path v : string) (fromMs toMs : Z) :
  plain path = true -> plain v = true ->
  let query :=
    GoURL.Query (rangeRawQuery (path +:+ "&from=" +:+ v) fromMs toMs) in
  query !! "from"%string = Some [v; GoStrconv.FormatInt fromMs]
  /\ Get query "from" = v
  /\ Get query "path" = path
  /\ Get query "to" = GoStrconv.FormatInt toMs.
Proof.
  intros Hp Hv. cbv zeta. unfold rangeRawQuery, GoURL.Query.
  set (s := ("path=" +:+ (path +:+ "&from=" +:+ v) +:+ "&from="
             +:+ GoStrconv.FormatInt fromMs +:+ "&to="
             +:+ GoStrconv.FormatInt toMs)%string).
  pose proof (FormatInt_plain fromMs) as Hf. pose proof (FormatInt_plain toMs) as Ht.
  unfold plain in *.
  assert (Hb : bytes_of s
               = bytes_of "path" ++ 0x3D :: bytes_of path
                 ++ 0x26 :: (bytes_of "from" ++ 0x3D :: bytes_of v
                   ++ 0x26 :: (bytes_of "from"
                               ++ 0x3D :: bytes_of (GoStrconv.FormatInt fromMs)
                     ++ 0x26 :: (bytes_of "to"
                                 ++ 0x3D :: bytes_of (GoStrconv.FormatInt toMs)
                                 ++ [])))).
  { subst s. rewrite !bytes_of_app. cbn [bytes_of app].
    rewrite app_nil_r, <- !app_assoc. reflexivity. }
  assert (Hlen : (4 <= String.length s)%nat).
  { rewrite <- bytes_of_length, Hb.
    repeat (rewrite length_app; cbn [length]). lia. }
  destruct (String.length s) as [|[|[|[|n]]]]; try lia.
  rewrite Hb.
  rewrite (parseQuery_step _ _ "path" (bytes_of path) _ false eq_refl eq_refl Hp).
  rewrite (parseQuery_step _ _ "from" (bytes_of v) _ false eq_refl eq_refl Hv).
  rewrite (parseQuery_step _ _ "from" (bytes_of (GoStrconv.FormatInt fromMs)) _
             false eq_refl eq_refl Hf).
  rewrite (parseQuery_step _ _ "to" (bytes_of (GoStrconv.FormatInt toMs)) [] true
             eq_refl eq_refl Ht).
  rewrite !string_of_bytes_of.
  cbn [GoURL.parseQuery].
  unfold Get, GoURL.Add. repeat split; now simplify_map_eq.
Qed.

Lemma path_overrides_from_witness :
  Get (GoURL.Query (rangeRawQuery ("/data" +:+ "&from=" +:+ "0") 1000 2000)) "from"
  = "0"%string.
Proof.
  refine (proj1 (proj2 (path_overrides_from "/data" "0" 1000 2000 _ _)));
    reflexivity.
Defined.
(** ** The collector: unreadable partitions, gauges, and the store over
       many runs *)

(** The loop of [collectMetrics] over the partitions, as a whole. *)
Lemma collect_fold (h : Host) (partitions : list PartitionStat) :
  forall acc,
    fst (fst (fold_left (collectPartition h) partitions acc))
    = fst (fst acc) ++ flat_map (reading h) partitions.
Proof.
  induction partitions as [|x partitions IH]; intros [[parts du] dup].
  - simpl. now rewrite app_nil_r.
  - simpl fold_left. simpl flat_map. rewrite IH, app_assoc. f_equal.
    unfold collectPartition, reading.
    destruct (disk_Usage h (Mountpoint x)) as [e|usage]; simpl;
      [now rewrite app_nil_r | reflexivity].
Qed.

Lemma collectMetrics_snapshot (h : Host) (st : Monitor)
  (partitions : list PartitionStat) :
  disk_Partitions h = inr partitions ->
  let metrics := mkMetrics (GoTime.unixSec (time_Now h))
                   (flat_map (reading h) partitions) in
  fst (collectMetrics h st) = inr metrics
  /\ mon_store (snd (collectMetrics h st)) = add (mon_store st) metrics.
Proof.
  intros Hp metrics. unfold collectMetrics. rewrite Hp.
  pose proof (collect_fold h partitions ([], diskUsage st, diskUsagePercent st)) as E.
  destruct (fold_left (collectPartition h) partitions
              ([], diskUsage st, diskUsagePercent st)) as [[parts du] dup].
  simpl in E. subst parts. split; reflexivity.
Qed.

Lemma In_reading (h : Host) (partitions : list PartitionStat) (p : PartitionMetrics) :
  In p (flat_map (reading h) partitions) <->
  exists partition usage,
    In partition partitions
    /\ disk_Usage h (Mountpoint partition) = inr usage
    /\ p = mkPartition (Mountpoint partition) (usTotal usage) (usUsed usage)
             (usFree usage) (usUsedPercent usage).
Proof.
  rewrite in_flat_map. split.
  - intros (x & Hx & Hp). unfold reading in Hp.
    destruct (disk_Usage h (Mountpoint x)) as [e|usage] eqn:E; [contradiction|].
    destruct Hp as [<-|[]]. exists x, usage. auto.
  - intros (x & usage & Hx & E & ->). exists x. split; [exact Hx|].
    unfold reading. rewrite E. now left.
Qed.

Lemma length_reading (h : Host) (partitions : list PartitionStat) :
  (length (flat_map (reading h) partitions) <= length partitions)%nat.
Proof.
  induction partitions as [|x partitions IH]; simpl; [lia|].
  rewrite length_app. unfold reading at 1.
  destruct (disk_Usage h (Mountpoint x)); simpl; lia.
Qed.

(** X12.  A collection fails only when the partitions cannot be listed.
    A partition whose usage cannot be read is left out of the snapshot
    and the others are kept, in the order of the listing, with the
    numbers read; when no usage can be read at all the snapshot has no
    partition and is stored and returned all the same. *)
Theorem collect_skips_unreadable
  (h : Host) (st : Monitor) (partitions : list PartitionStat) :
  disk_Partitions h = inr partitions ->
  exists metrics st',
    collectMetrics h st = (inr metrics, st')
    /\ Timestamp metrics = GoTime.unixSec (time_Now h)
    /\ Partitions metrics = flat_map (reading h) partitions
    /\ mon_store st' = add (mon_store st) metrics
    /\ (length (Partitions metrics) <= length partitions)%nat
    /\ (forall p, In p (Partitions metrics) <->
          exists partition usage,
            In partition partitions
            /\ disk_Usage h (Mountpoint partition) = inr usage
            /\ p = mkPartition (Mountpoint partition) (usTotal usage)
                     (usUsed usage) (usFree usage) (usUsedPercent usage))
    /\ ((forall partition, In partition partitions ->
           exists e, disk_Usage h (Mountpoint partition) = inl e) ->
        Partitions metrics = []).
Proof.
  intros Hp. destruct (collectMetrics_snapshot h st partitions Hp) as [E1 E2].
  destruct (collectMetrics h st) as [r st'] eqn:E. simpl in E1, E2. subst r.
  eexists _, st'. split; [reflexivity|]. cbn [Timestamp Partitions].
  split; [reflexivity|]. split; [reflexivity|]. split; [exact E2|].
  split; [apply length_reading|]. split; [intros p; apply In_reading|].
  intros Hall. destruct (flat_map (reading h) partitions) as [|p l] eqn:El;
    [reflexivity|].
  assert (Hin : In p (flat_map (reading h) partitions)) by (rewrite El; now left).
  apply In_reading in Hin as (x & usage & Hx & Eu & _).
  destruct (Hall x Hx) as [e He]. congruence.
Qed.

Lemma collect_skips_unreadable_witness :
  exists metrics st',
    collectMetrics (hostAt 7) initialMonitor = (inr metrics, st')
    /\ Timestamp metrics = GoTime.unixSec (time_Now (hostAt 7))
    /\ Partitions metrics = flat_map (reading (hostAt 7)) [mkPartitionStat "/"]
    /\ mon_store st' = add (mon_store initialMonitor) metrics
    /\ (length (Partitions metrics) <= length [mkPartitionStat "/"])%nat
    /\ (forall p, In p (Partitions metrics) <->
          exists partition usage,
            In partition [mkPartitionStat "/"]
            /\ disk_Usage (hostAt 7) (Mountpoint partition) = inr usage
            /\ p = mkPartition (Mountpoint partition) (usTotal usage)
                     (usUsed usage) (usFree usage) (usUsedPercent usage))
    /\ ((forall partition, In partition [mkPartitionStat "/"] ->
           exists e, disk_Usage (hostAt 7) (Mountpoint partition) = inl e) ->
        Partitions metrics = []).
Proof.
  exact (collect_skips_unreadable (hostAt 7) initialMonitor [mkPartitionStat "/"]
           eq_refl).
Defined.

Lemma lastReading_snoc (mp : string) (parts : list PartitionMetrics)
  (p : PartitionMetrics) :
  lastReading mp (parts ++ [p])
  = if String.eqb (Path p) mp then Some p else lastReading mp parts.
Proof.
  unfold lastReading.
  rewrite (filter_snoc (fun p => String.eqb (Path p) mp) parts p).
  destruct (String.eqb (Path p) mp).
  - apply last_snoc.
  - now rewrite app_nil_r.
Qed.

(** One turn of the loop keeps the gauges in step with the readings. *)
Lemma collectPartition_gauges (h : Host) (du0 : gmap (string * string) float64)
  (dup0 : gmap string float64) (x : PartitionStat)
  (parts : list PartitionMetrics) (du : gmap (string * string) float64)
  (dup : gmap string float64) :
  gaugesShow du0 dup0 parts du dup ->
  let '(parts', du', dup') := collectPartition h (parts, du, dup) x in
  gaugesShow du0 dup0 parts' du' dup'.
Proof.
  intros Hinv. unfold collectPartition.
  destruct (disk_Usage h (Mountpoint x)) as [e|usage]; [exact Hinv|].
  set (q := Mountpoint x). intros mp. rewrite lastReading_snoc. cbn [Path].
  specialize (Hinv mp).
  destruct (String.eqb_spec q mp) as [<-|Hne].
  - cbn [UsagePercent Total Used Free].
    rewrite lookup_insert_eq.
    rewrite (lookup_insert_ne _ (q, "free"%string) (q, "total"%string)) by congruence.
    rewrite (lookup_insert_ne _ (q, "used"%string) (q, "total"%string)) by congruence.
    rewrite (lookup_insert_ne _ (q, "free"%string) (q, "used"%string)) by congruence.
    rewrite !lookup_insert_eq.
    repeat split. intros kind K1 K2 K3.
    rewrite !lookup_insert_ne by congruence.
    destruct (lastReading q parts) as [p|].
    + destruct Hinv as (_ & _ & _ & _ & Hk). now apply Hk.
    + destruct Hinv as (_ & Hk). apply Hk.
  - assert (forall k1 k2 : string, (q, k1) <> (mp, k2)) by congruence.
    destruct (lastReading mp parts) as [p|].
    + destruct Hinv as (H1 & H2 & H3 & H4 & H5).
      rewrite !lookup_insert_ne by auto. repeat split; try assumption.
      intros kind K1 K2 K3. rewrite !lookup_insert_ne by auto. now apply H5.
    + destruct Hinv as (H1 & H2). rewrite !lookup_insert_ne by auto.
      split; [exact H1|]. intros kind. rewrite !lookup_insert_ne by auto. apply H2.
Qed.

Lemma collect_fold_gauges (h : Host) (du0 : gmap (string * string) float64)
  (dup0 : gmap string float64) (partitions : list PartitionStat) :
  forall parts du dup,
    gaugesShow du0 dup0 parts du dup ->
    let '(parts', du', dup') :=
      fold_left (collectPartition h) partitions (parts, du, dup) in
    gaugesShow du0 dup0 parts' du' dup'.
Proof.
  induction partitions as [|x partitions IH]; intros parts du dup Hinv;
    cbn [fold_left]; [exact Hinv|].
  pose proof (collectPartition_gauges h du0 dup0 x parts du dup Hinv) as Hstep.
  destruct (collectPartition h (parts, du, dup) x) as [[parts1 du1] dup1].
  now apply IH.
Qed.

(** X13.  After a collection every gauge of a mount point that was read
    shows the last reading of that mount point in the snapshot: usage
    percentage, and total, used and free bytes converted to [float64].
    A gauge of a mount point that was not read in this run keeps the
    value it had: the collector never removes or resets a gauge. *)
Theorem gauges_show_last_reading
  (h : Host) (st st' : Monitor) (metrics : DiskMetrics) :
  collectMetrics h st = (inr metrics, st') ->
  gaugesShow (diskUsage st) (diskUsagePercent st) (Partitions metrics)
    (diskUsage st') (diskUsagePercent st')
  /\ (forall mountpoint v,
        diskUsagePercent st !! mountpoint = Some v ->
        is_Some (diskUsagePercent st' !! mountpoint)).
Proof.
  intros E. unfold collectMetrics in E.
  destruct (disk_Partitions h) as [err|partitions]; [discriminate|].
  assert (H0 : gaugesShow (diskUsage st) (diskUsagePercent st) []
                 (diskUsage st) (diskUsagePercent st)).
  { intros mp. simpl. split; reflexivity. }
  pose proof (collect_fold_gauges h _ _ partitions _ _ _ H0) as Hinv.
  destruct (fold_left (collectPartition h) partitions
              ([], diskUsage st, diskUsagePercent st)) as [[parts du] dup].
  injection E as <- <-. cbn [Partitions diskUsage diskUsagePercent].
  split; [exact Hinv|]. intros mp v Hv. specialize (Hinv mp).
  destruct (lastReading mp parts) as [p|].
  - destruct Hinv as [-> _]. eauto.
  - destruct Hinv as [-> _]. eauto.
Qed.

Lemma gauges_show_last_reading_witness :
  gaugesShow (diskUsage initialMonitor) (diskUsagePercent initialMonitor)
    (Partitions (snapshotAt 7 50 : DiskMetrics))
    (diskUsage (snd (collectMetrics (hostAt 7) initialMonitor)))
    (diskUsagePercent (snd (collectMetrics (hostAt 7) initialMonitor))).
Proof.
  refine (proj1 (gauges_show_last_reading (hostAt 7) initialMonitor
                   (snd (collectMetrics (hostAt 7) initialMonitor))
                   (mkMetrics 7 [mkPartition "/" 100 50 50 (float64_of_Z 50)]) _)).
  reflexivity.
Defined.

Lemma collections_store (hosts : list Host) :
  forall st,
    mon_store (collections hosts st)
    = fold_left add (snapshotsOf hosts) (mon_store st).
Proof.
  unfold collections.
  induction hosts as [|h hosts IH]; intros st; [reflexivity|].
  simpl fold_left. rewrite IH. unfold snapshotsOf. simpl flat_map.
  rewrite fold_left_app. f_equal.
  destruct (disk_Partitions h) as [err|partitions] eqn:Hp.
  - unfold collectMetrics. now rewrite Hp.
  - now destruct (collectMetrics_snapshot h st partitions Hp) as [_ ->].
Qed.

(** X14.  Over any number of collections, started by the loop of [main]
    or by a request, the store of the program holds the snapshots of
    the most recent 1440 collections that could list the partitions, in
    the order they were taken; a collection that fails leaves the store
    as it is. *)
Theorem store_holds_latest_collections (hosts : list Host) :
  data (mon_store (collections hosts initialMonitor))
  = drop (length (snapshotsOf hosts) - 1440) (snapshotsOf hosts)
  /\ (length (data (mon_store (collections hosts initialMonitor))) <= 1440)%nat
  /\ maxSize (mon_store (collections hosts initialMonitor)) = 1440.
Proof.
  rewrite collections_store.
  assert (E : data (fold_left add (snapshotsOf hosts) (mon_store initialMonitor))
              = drop (length (snapshotsOf hosts) - 1440) (snapshotsOf hosts))
    by (rewrite adds_window; reflexivity).
  split; [exact E|]. split; [|apply adds_maxSize].
  rewrite E, length_drop. lia.
Qed.
(** ** The schedule of the reporter *)

Lemma uint64_wrap64 (z : Z) : GoDate.uint64 (wrap64 z) = z mod 2 ^ 64.
Proof.
  unfold GoDate.uint64, wrap64.
  rewrite Zminus_mod_idemp_l. f_equal. lia.
Qed.

Lemma uint64_id (z : Z) : 0 <= z < 2 ^ 64 -> GoDate.uint64 z = z.
Proof. intros H. unfold GoDate.uint64. now apply Z.mod_small. Qed.

Lemma rem_zero (a b : Z) : 0 < b -> (Z.rem a b =? 0) = (a mod b =? 0).
Proof.
  intros Hb. apply Bool.eq_iff_eq_true. rewrite !Z.eqb_eq.
  rewrite Z.rem_divide, Z.mod_divide by lia. reflexivity.
Qed.

(** The cycles of 400, 100, 4 and 1 years that [absDate] cuts off. *)
Lemma cycles (d : Z) :
  0 <= d ->
  let n400 := d / 146097 in
  let d1 := d - 146097 * n400 in
  let n100 := d1 / 36524 - Z.shiftr (d1 / 36524) 2 in
  let d2 := d1 - 36524 * n100 in
  let n4 := d2 / 1461 in
  let d3 := d2 - 1461 * n4 in
  let n1 := d3 / 365 - Z.shiftr (d3 / 365) 2 in
  let d4 := d3 - 365 * n1 in
  0 <= n400 /\ 0 <= n100 <= 3 /\ 0 <= n4 <= 24 /\ 0 <= n1 <= 3
  /\ 0 <= d4 <= 365
  /\ d = 146097 * n400 + 36524 * n100 + 1461 * n4 + 365 * n1 + d4
  /\ (d4 = 365 -> n1 = 3 /\ (n4 = 24 -> n100 = 3)).
Proof.
  intros Hd. cbv zeta. rewrite !Z.shiftr_div_pow2 by lia.
  change (2 ^ 2) with 4. lia.
Qed.

(** The year that [absDate] gives for the cycles counted, and whether it
    is a leap year. *)
Lemma isLeap_cycles (n400 n100 n4 n1 : Z) :
  0 <= n100 <= 3 -> 0 <= n4 <= 24 -> 0 <= n1 <= 3 ->
  GoDate.isLeap (400 * n400 + 100 * n100 + 4 * n4 + n1 + GoDate.absoluteZeroYear)
  = (n1 =? 3) && ((n4 <? 24) || (n100 =? 3)).
Proof.
  intros H100 H4 H1. unfold GoDate.isLeap, GoDate.absoluteZeroYear.
  rewrite !rem_zero by lia.
  apply Bool.eq_iff_eq_true.
  rewrite !andb_true_iff, !orb_true_iff, negb_true_iff, !Z.eqb_eq, Z.eqb_neq,
    Z.ltb_lt.
  lia.
Qed.

Lemma monthDay_ok (leap : bool) (yday : Z) :
  0 <= yday <= (if leap then 365 else 364) -> monthDayOk leap yday = true.
Proof.
  intros H.
  assert (Hall : forallb (fun k => monthDayOk true (Z.of_nat k)) (seq 0 366) = true
                 /\ forallb (fun k => monthDayOk false (Z.of_nat k)) (seq 0 365) = true)
    by (split; vm_compute; reflexivity).
  destruct Hall as [Ht Hf]. rewrite forallb_forall in Ht, Hf.
  rewrite <- (Z2Nat.id yday) by lia. destruct leap.
  - apply Ht, in_seq. lia.
  - apply Hf, in_seq. lia.
Qed.

(** [absDate] in terms of the cycles and of [monthDay]. *)
Lemma absDate_cycles (abs : Z) :
  0 <= abs < 2 ^ 64 ->
  exists n400 n100 n4 n1 yday,
    0 <= n400 < 2 ^ 40 /\ 0 <= n100 <= 3 /\ 0 <= n4 <= 24 /\ 0 <= n1 <= 3
    /\ 0 <= yday <= 365
    /\ abs / 86400 = 146097 * n400 + 36524 * n100 + 1461 * n4 + 365 * n1 + yday
    /\ (yday = 365 -> n1 = 3 /\ (n4 = 24 -> n100 = 3))
    /\ let year := 400 * n400 + 100 * n100 + 4 * n4 + n1 + GoDate.absoluteZeroYear in
       GoDate.absDate abs false = (year, 0, 0, yday)
       /\ GoDate.absDate abs true
          = (year, fst (monthDay (GoDate.isLeap year) yday),
             snd (monthDay (GoDate.isLeap year) yday), yday).
Proof.
  intros Habs.
  assert (Hd : 0 <= abs / 86400 < 2 ^ 48).
  { split; [apply Z.div_pos; lia|]. apply Z.div_lt_upper_bound; lia. }
  pose proof (cycles (abs / 86400) (proj1 Hd)) as Hc. cbv zeta in Hc.
  set (d := abs / 86400) in *.
  set (n400 := d / 146097) in *.
  set (d1 := d - 146097 * n400) in *.
  set (n100 := d1 / 36524 - Z.shiftr (d1 / 36524) 2) in *.
  set (d2 := d1 - 36524 * n100) in *.
  set (n4 := d2 / 1461) in *.
  set (d3 := d2 - 1461 * n4) in *.
  set (n1 := d3 / 365 - Z.shiftr (d3 / 365) 2) in *.
  set (d4 := d3 - 365 * n1) in *.
  destruct Hc as (H400 & H100 & H4 & H1 & Hy & Hsum & Hlast).
  exists n400, n100, n4, n1, d4.
  assert (Hn400 : n400 < 2 ^ 40) by lia.
  repeat (split; [first [assumption | lia]|]).
  cbv zeta.
  assert (Eyear : wrap64 (wrap64 (400 * n400 + 100 * n100 + 4 * n4 + n1)
                          + GoDate.absoluteZeroYear)
                  = 400 * n400 + 100 * n100 + 4 * n4 + n1 + GoDate.absoluteZeroYear).
  { rewrite wrap64_wrap64_add. apply wrap64_id.
    unfold in_int64, int64_min, int64_max, GoDate.absoluteZeroYear. lia. }
  unfold GoDate.absDate.
  change GoDate.secondsPerDay with 86400.
  change GoDate.daysPer400Years with 146097.
  change GoDate.daysPer100Years with 36524.
  change GoDate.daysPer4Years with 1461.
  cbv zeta. fold d. fold n400. fold d1. fold n100. fold d2. fold n4. fold d3.
  fold n1. fold d4.
  replace (400 * n400 + 100 * n100 + 4 * n4 + n1)
    with (400 * n400 + 100 * n100 + 4 * n4 + n1) in Eyear by reflexivity.
  rewrite Eyear. split; [reflexivity|].
  simpl negb. cbv iota. unfold monthDay.
  set (year := 400 * n400 + 100 * n100 + 4 * n4 + n1 + GoDate.absoluteZeroYear).
  destruct (GoDate.isLeap year && (d4 =? 31 + 29 - 1)); [reflexivity|].
  cbv zeta.
  destruct (GoDate.daysBefore _ <=? _); reflexivity.
Qed.

(** [daysSinceEpoch] adds the cycles up again. *)
Lemma daysSinceEpoch_cycles (n400 n100 n4 n1 : Z) :
  0 <= n400 < 2 ^ 40 -> 0 <= n100 <= 3 -> 0 <= n4 <= 24 -> 0 <= n1 <= 3 ->
  GoDate.daysSinceEpoch
    (400 * n400 + 100 * n100 + 4 * n4 + n1 + GoDate.absoluteZeroYear)
  = 146097 * n400 + 36524 * n100 + 1461 * n4 + 365 * n1.
Proof.
  intros H400 H100 H4 H1. unfold GoDate.daysSinceEpoch.
  replace (400 * n400 + 100 * n100 + 4 * n4 + n1 + GoDate.absoluteZeroYear
           - GoDate.absoluteZeroYear)
    with (400 * n400 + 100 * n100 + 4 * n4 + n1) by lia.
  rewrite uint64_wrap64, Z.mod_small by lia.
  change GoDate.daysPer400Years with 146097.
  change GoDate.daysPer100Years with 36524.
  change GoDate.daysPer4Years with 1461.
  cbv zeta.
  assert (E400 : (400 * n400 + 100 * n100 + 4 * n4 + n1) / 400 = n400)
    by (symmetry; apply (Z.div_unique _ _ _ (100 * n100 + 4 * n4 + n1)); lia).
  rewrite E400.
  replace (400 * n400 + 100 * n100 + 4 * n4 + n1 - 400 * n400)
    with (100 * n100 + 4 * n4 + n1) by lia.
  assert (E100 : (100 * n100 + 4 * n4 + n1) / 100 = n100)
    by (symmetry; apply (Z.div_unique _ _ _ (4 * n4 + n1)); lia).
  rewrite E100.
  replace (100 * n100 + 4 * n4 + n1 - 100 * n100) with (4 * n4 + n1) by lia.
  assert (E4 : (4 * n4 + n1) / 4 = n4)
    by (symmetry; apply (Z.div_unique _ _ _ n1); lia).
  rewrite E4.
  replace (4 * n4 + n1 - 4 * n4) with n1 by lia.
  rewrite (uint64_id (146097 * n400)) by lia.
  rewrite (uint64_id (146097 * n400 + 36524 * n100)) by lia.
  rewrite (uint64_id (146097 * n400 + 36524 * n100 + 1461 * n4)) by lia.
  apply uint64_id. lia.
Qed.

Lemma norm_id (hi lo base : Z) :
  0 <= lo < base -> GoDate.norm hi lo base = (hi, lo).
Proof.
  intros H. unfold GoDate.norm.
  destruct (Z.ltb_spec lo 0) as [?|_]; [lia|].
  destruct (Z.leb_spec base lo) as [?|_]; [lia|]. reflexivity.
Qed.

(** [Date] on a day that [absDate] gave, in a location with one zone: the
    instant of that day, hour and minute on the clock of the zone. *)
Lemma Date_on_day (abs hour min offset : Z) (l : GoDate.Location) :
  - 2 ^ 62 <= abs + GoDate.absoluteToInternal <= 2 ^ 62 ->
  0 <= hour < 24 -> 0 <= min < 60 ->
  fixedZone l offset -> - 2 ^ 31 <= offset <= 2 ^ 31 ->
  let '(year, _, _, _) := GoDate.absDate abs false in
  let '(_, month, day, _) := GoDate.absDate abs true in
  GoDate.Date year month day hour min 0 0 l
  = GoTime.mkTime
      (abs / 86400 * 86400 + hour * 3600 + min * 60
       + GoDate.absoluteToInternal - offset) 0.
Proof.
  intros Hrange Hh Hm Hzone Hoff.
  assert (Hc1 : GoDate.absoluteToInternal = -9223371966579724800) by reflexivity.
  assert (Hc2 : GoTime.internalToUnix = -62135596800) by reflexivity.
  assert (Hc3 : GoTime.unixToInternal = 62135596800) by reflexivity.
  assert (Habs : 0 <= abs < 2 ^ 64) by lia.
  destruct (absDate_cycles abs Habs)
    as (n400 & n100 & n4 & n1 & yday & H400 & H100 & H4 & H1 & Hy & Hsum & Hlast
        & Hdate).
  cbv zeta in Hdate. destruct Hdate as [-> ->].
  set (year := 400 * n400 + 100 * n100 + 4 * n4 + n1 + GoDate.absoluteZeroYear).
  pose proof (isLeap_cycles n400 n100 n4 n1 H100 H4 H1) as Hleap. fold year in Hleap.
  assert (Hyd : 0 <= yday <= (if GoDate.isLeap year then 365 else 364)).
  { destruct (GoDate.isLeap year) eqn:El; [lia|].
    destruct (Z.eq_dec yday 365) as [E|]; [|lia].
    destruct (Hlast E) as [-> Hn4]. exfalso. symmetry in Hleap.
    apply andb_false_iff in Hleap as [Hleap|Hleap]; [discriminate|].
    apply orb_false_iff in Hleap as [Hlt Hne]. apply Z.ltb_ge in Hlt.
    apply Z.eqb_neq in Hne. lia. }
  pose proof (monthDay_ok _ _ Hyd) as Hok. unfold monthDayOk in Hok.
  destruct (monthDay (GoDate.isLeap year) yday) as [month day]. simpl fst. simpl snd.
  repeat (apply andb_true_iff in Hok as [Hok ?]).
  repeat match goal with
         | H : (_ <=? _) = true |- _ => apply Z.leb_le in H
         | H : (_ =? _) = true |- _ => apply Z.eqb_eq in H
         end.
  unfold daysBeforeDate in *.
  unfold GoDate.Date.
  rewrite (wrap64_id (month - 1))
    by (unfold in_int64, int64_min, int64_max; lia).
  rewrite (norm_id year (month - 1) 12) by lia.
  rewrite (norm_id 0 0 1000000000) by lia.
  rewrite (norm_id min 0 60) by lia.
  rewrite (norm_id hour min 60) by lia.
  rewrite (norm_id day hour 24) by lia.
  replace (month - 1 + 1) with month by lia.
  set (base := 146097 * n400 + 36524 * n100 + 1461 * n4 + 365 * n1) in *.
  assert (Edse : GoDate.daysSinceEpoch year = base)
    by (unfold year, base; apply daysSinceEpoch_cycles; assumption).
  rewrite Edse.
  assert (Hbase : 0 <= base < 2 ^ 60) by (unfold base; lia).
  assert (Hdb : 0 <= GoDate.daysBefore (month - 1) <= 334).
  { assert (Hm12 : month - 1 = 0 \/ month - 1 = 1 \/ month - 1 = 2 \/ month - 1 = 3
                   \/ month - 1 = 4 \/ month - 1 = 5 \/ month - 1 = 6
                   \/ month - 1 = 7 \/ month - 1 = 8 \/ month - 1 = 9
                   \/ month - 1 = 10 \/ month - 1 = 11) by lia.
    repeat (destruct Hm12 as [->|Hm12]; [vm_compute; split; discriminate|]).
    rewrite Hm12. vm_compute. split; discriminate. }
  rewrite (uint64_id (base + _)) by lia.
  assert (Ed : (if GoDate.isLeap year && (3 <=? month)
                then GoDate.uint64 (base + GoDate.daysBefore (month - 1) + 1)
                else base + GoDate.daysBefore (month - 1))
               = base + GoDate.daysBefore (month - 1)
                 + (if GoDate.isLeap year && (3 <=? month) then 1 else 0)).
  { destruct (GoDate.isLeap year && (3 <=? month)); [apply uint64_id|]; lia. }
  rewrite Ed.
  rewrite (wrap64_id (day - 1)) by (unfold in_int64, int64_min, int64_max; lia).
  rewrite (uint64_id (day - 1)) by lia.
  replace (base + GoDate.daysBefore (month - 1)
           + (if GoDate.isLeap year && (3 <=? month) then 1 else 0) + (day - 1))
    with (abs / 86400) by lia.
  assert (Hdays : 0 <= abs / 86400 * 86400 <= abs).
  { pose proof (Z.mul_div_le abs 86400 ltac:(lia)).
    pose proof (Z.div_pos abs 86400 ltac:(lia) ltac:(lia)). lia. }
  rewrite (uint64_id (abs / 86400)) by lia.
  change GoDate.secondsPerDay with 86400.
  change GoDate.secondsPerHour with 3600.
  change GoDate.secondsPerMinute with 60.
  rewrite (uint64_id (abs / 86400 * 86400)) by lia.
  rewrite (wrap64_id (hour * 3600)) by (unfold in_int64, int64_min, int64_max; lia).
  rewrite (wrap64_id (min * 60)) by (unfold in_int64, int64_min, int64_max; lia).
  rewrite (wrap64_id (hour * 3600 + min * 60))
    by (unfold in_int64, int64_min, int64_max; lia).
  rewrite (wrap64_id (hour * 3600 + min * 60 + 0))
    by (unfold in_int64, int64_min, int64_max; lia).
  rewrite (uint64_id (hour * 3600 + min * 60 + 0)) by lia.
  set (abs' := abs / 86400 * 86400 + (hour * 3600 + min * 60 + 0)).
  assert (Habs' : 0 <= abs' <= abs + 86400) by (unfold abs'; lia).
  assert (Habs64 : abs' < 2 ^ 64) by lia.
  rewrite (uint64_id abs') by lia.
  rewrite wrap64_wrap64_add.
  rewrite (wrap64_id (abs' + _))
    by (unfold in_int64, int64_min, int64_max; lia).
  specialize (Hzone (abs' + (GoDate.absoluteToInternal + GoTime.internalToUnix)))
    as Hz1.
  destruct (GoDate.lookup l (abs' + (GoDate.absoluteToInternal + GoTime.internalToUnix)))
    as [[offset1 start] end_]. simpl in Hz1. subst offset1.
  f_equal.
  destruct (Z.eqb_spec offset 0) as [->|Hne]; simpl negb; cbv iota.
  - rewrite wrap64_id by (unfold in_int64, int64_min, int64_max; lia).
    unfold abs'. lia.
  - set (unix := abs' + (GoDate.absoluteToInternal + GoTime.internalToUnix)).
    assert (Hutc : wrap64 (unix - offset) = unix - offset)
      by (apply wrap64_id; unfold in_int64, int64_min, int64_max, unix; lia).
    rewrite Hutc.
    specialize (Hzone (unix - offset)) as Hz2.
    destruct (GoDate.lookup l (unix - offset)) as [[offset2 start2] end2].
    simpl in Hz2. subst offset2.
    assert (Eoff : (if (unix - offset <? start) || (end_ <=? unix - offset)
                    then offset else offset) = offset)
      by (destruct ((unix - offset <? start) || (end_ <=? unix - offset));
          reflexivity).
    rewrite Eoff, Hutc.
    rewrite wrap64_id by (unfold in_int64, int64_min, int64_max, unix; lia).
    unfold unix, abs'. lia.
Qed.

(** [t.abs()] in a location with one zone. *)
Lemma abs_fixed (t : GoTime.Time) (l : GoDate.Location) (offset : Z) :
  fixedZone l offset -> - 2 ^ 31 <= offset <= 2 ^ 31 ->
  - 2 ^ 61 <= GoTime.sec t <= 2 ^ 61 ->
  GoDate.abs t l = GoTime.sec t + offset + GoDate.internalToAbsolute.
Proof.
  intros Hzone Hoff Hsec. unfold GoDate.abs, GoTime.unixSec.
  assert (Hc1 : GoDate.internalToAbsolute = 9223371966579724800) by reflexivity.
  assert (Hc2 : GoTime.internalToUnix = -62135596800) by reflexivity.
  assert (Hc3 : GoTime.unixToInternal = 62135596800) by reflexivity.
  rewrite (wrap64_id (GoTime.sec t + _))
    by (unfold in_int64, int64_min, int64_max; lia).
  specialize (Hzone (GoTime.sec t + GoTime.internalToUnix)).
  destruct (GoDate.lookup l (GoTime.sec t + GoTime.internalToUnix))
    as [[offset1 start] end_]. simpl in Hzone. subst offset1.
  rewrite uint64_wrap64, wrap64_id
    by (unfold in_int64, int64_min, int64_max; lia).
  rewrite Z.mod_small by lia. lia.
Qed.

Lemma fixedZone_UTC : fixedZone GoDate.UTC 0.
Proof. intros s. reflexivity. Qed.

(** The instant that [Parse] gives for a time of day: that time on
    1 January of the year 0, in UTC. *)
Lemma Date_year0 (hour min : Z) :
  0 <= hour < 24 -> 0 <= min < 60 ->
  GoDate.Date 0 1 1 hour min 0 0 GoDate.UTC
  = GoTime.mkTime (hour * 3600 + min * 60 - 31622400) 0.
Proof.
  intros Hh Hm. unfold GoDate.Date.
  change (wrap64 (1 - 1)) with 0.
  rewrite (norm_id 0 0 12) by lia.
  rewrite (norm_id 0 0 1000000000) by lia.
  rewrite (norm_id min 0 60) by lia.
  rewrite (norm_id hour min 60) by lia.
  rewrite (norm_id 1 hour 24) by lia.
  change (GoDate.uint64
            (GoDate.uint64
               ((if GoDate.isLeap 0 && (3 <=? 0 + 1)
                 then GoDate.uint64
                        (GoDate.uint64
                           (GoDate.daysSinceEpoch 0 + GoDate.daysBefore (0 + 1 - 1)) + 1)
                 else GoDate.uint64
                        (GoDate.daysSinceEpoch 0 + GoDate.daysBefore (0 + 1 - 1)))
                + GoDate.uint64 (wrap64 (1 - 1))) * GoDate.secondsPerDay))
    with 9223371966548102400.
  change GoDate.secondsPerHour with 3600.
  change GoDate.secondsPerMinute with 60.
  rewrite (wrap64_id (hour * 3600)) by (unfold in_int64, int64_min, int64_max; lia).
  rewrite (wrap64_id (min * 60)) by (unfold in_int64, int64_min, int64_max; lia).
  rewrite (wrap64_id (hour * 3600 + min * 60))
    by (unfold in_int64, int64_min, int64_max; lia).
  rewrite (wrap64_id (hour * 3600 + min * 60 + 0))
    by (unfold in_int64, int64_min, int64_max; lia).
  rewrite (uint64_id (hour * 3600 + min * 60 + 0)) by lia.
  rewrite (uint64_id (9223371966548102400 + _)) by lia.
  rewrite wrap64_wrap64_add.
  change (GoDate.absoluteToInternal + GoTime.internalToUnix)
    with (-9223372028715321600).
  rewrite (wrap64_id (9223371966548102400 + _ + _))
    by (unfold in_int64, int64_min, int64_max; lia).
  cbn [GoDate.lookup GoDate.UTC]. simpl negb. cbv iota.
  change GoTime.unixToInternal with 62135596800.
  rewrite wrap64_id by (unfold in_int64, int64_min, int64_max; lia).
  f_equal. lia.
Qed.

Lemma clock_of_year0 (hour min : Z) :
  0 <= hour < 24 -> 0 <= min < 60 ->
  GoDate.Hour (GoDate.Date 0 1 1 hour min 0 0 GoDate.UTC) GoDate.UTC = hour
  /\ GoDate.Minute (GoDate.Date 0 1 1 hour min 0 0 GoDate.UTC) GoDate.UTC = min.
Proof.
  intros Hh Hm. rewrite Date_year0 by assumption.
  unfold GoDate.Hour, GoDate.Minute.
  rewrite (abs_fixed _ GoDate.UTC 0 fixedZone_UTC) by (simpl; lia).
  cbn [GoTime.sec].
  change GoDate.internalToAbsolute with (106751990353566 * 86400 + 31622400).
  change GoDate.secondsPerDay with 86400.
  change GoDate.secondsPerHour with 3600.
  change GoDate.secondsPerMinute with 60.
  replace (hour * 3600 + min * 60 - 31622400 + 0
           + (106751990353566 * 86400 + 31622400))
    with (hour * 3600 + min * 60 + 106751990353566 * 86400) by lia.
  rewrite Z.mod_add by lia.
  replace (hour * 3600 + min * 60 + 106751990353566 * 86400)
    with (min * 60 + (hour + 106751990353566 * 24) * 3600) by lia.
  rewrite Z.mod_add by lia.
  rewrite (Z.mod_small (hour * 3600 + min * 60)) by lia.
  rewrite (Z.mod_small (min * 60)) by lia.
  split.
  - rewrite Z.quot_div_nonneg by lia. symmetry.
    apply (Z.div_unique _ _ _ (min * 60)); lia.
  - rewrite Z.quot_div_nonneg by lia. apply Z.div_mul. lia.
Qed.

(** Case analysis on whether a byte is a digit or a colon. *)
Ltac byte_cases x :=
  destruct ((48 <=? x) && (x <=? 57)) eqn:?;
  destruct (x =? 58) eqn:?.

(** Booleans of the context and of the goal as propositions. *)
Ltac bool_to_prop :=
  repeat match goal with
         | H : _ && _ = true |- _ => apply andb_true_iff in H as [? ?]
         | H : _ || _ = false |- _ => apply orb_false_iff in H as [? ?]
         | H : _ && _ = false |- _ => apply andb_false_iff in H
         | H : _ || _ = true |- _ => apply orb_true_iff in H
         | H : negb _ = true |- _ => apply negb_true_iff in H
         | H : negb _ = false |- _ => apply negb_false_iff in H
         | H : (_ <=? _) = true |- _ => apply Z.leb_le in H
         | H : (_ <=? _) = false |- _ => apply Z.leb_gt in H
         | H : (_ <? _) = true |- _ => apply Z.ltb_lt in H
         | H : (_ <? _) = false |- _ => apply Z.ltb_ge in H
         | H : (_ =? _) = true |- _ => apply Z.eqb_eq in H
         | H : (_ =? _) = false |- _ => apply Z.eqb_neq in H
         end.

Lemma Parse_clockOf (s : string) :
  GoDate.Parse_15_04 s
  = match clockOf s with
    | Some (hour, min) => Some (GoDate.Date 0 1 1 hour min 0 0 GoDate.UTC)
    | None => None
    end.
Proof.
  unfold GoDate.Parse_15_04, clockOf, GoDate.getnum, GoDate.isDigit.
  destruct (bytes_of s) as [|a [|b [|c [|d [|e [|f r]]]]]]; cbn;
    try reflexivity;
    try byte_cases a; cbn; try reflexivity;
    try byte_cases b; cbn; try reflexivity;
    try byte_cases c; cbn; try reflexivity;
    try byte_cases d; cbn; try reflexivity;
    try byte_cases e; cbn; try reflexivity;
    try byte_cases f; cbn; try reflexivity;
    repeat match goal with
           | |- context [if ?t then _ else _] => destruct t eqn:?; cbn
           end;
    try reflexivity; bool_to_prop; try lia.
Qed.

Lemma clockOf_range (s : string) (hour min : Z) :
  clockOf s = Some (hour, min) -> 0 <= hour < 24 /\ 0 <= min < 60.
Proof.
  unfold clockOf.
  destruct (bytes_of s) as [|a [|b [|c [|d [|e [|f r]]]]]]; cbn;
    try discriminate;
    repeat match goal with
           | |- context [if ?t then _ else _] => destruct t eqn:?; cbn
           end;
    try discriminate; intros [= <- <-]; bool_to_prop; lia.
Qed.

(** [t.Add(d)] away from the ends of the range of instants. *)
Lemma Add_near (t : GoTime.Time) (d : Z) :
  wfTime t -> - 2 ^ 62 <= GoTime.sec t <= 2 ^ 62 -> - 2 ^ 62 <= d <= 2 ^ 62 ->
  wfTime (GoTime.Add t d)
  /\ GoTime.sec (GoTime.Add t d) * 1000000000 + GoTime.nsec (GoTime.Add t d)
     = GoTime.sec t * 1000000000 + GoTime.nsec t + d.
Proof.
  unfold wfTime. intros Hwf Hsec Hd. unfold GoTime.Add.
  pose proof (Z.quot_rem' d 1000000000) as Hqr.
  assert (Hr : -1000000000 < Z.rem d 1000000000 < 1000000000).
  { pose proof (Z.rem_bound_abs d 1000000000 ltac:(lia)). lia. }
  set (q := Z.quot d 1000000000) in *. set (r := Z.rem d 1000000000) in *.
  assert (Hgen : forall q' ns',
            0 <= ns' < 1000000000 ->
            (GoTime.sec t + q') * 1000000000 + ns'
            = GoTime.sec t * 1000000000 + GoTime.nsec t + d ->
            0 <= GoTime.nsec (GoTime.addSec (GoTime.mkTime (GoTime.sec t) ns') q')
              < 1000000000
            /\ GoTime.sec (GoTime.addSec (GoTime.mkTime (GoTime.sec t) ns') q')
               * 1000000000
               + GoTime.nsec (GoTime.addSec (GoTime.mkTime (GoTime.sec t) ns') q')
               = GoTime.sec t * 1000000000 + GoTime.nsec t + d).
  { intros q' ns' Hns' Heq. unfold GoTime.addSec. simpl GoTime.sec. simpl GoTime.nsec.
    rewrite (wrap64_id (GoTime.sec t + q'))
      by (unfold in_int64, int64_min, int64_max; lia).
    destruct (Z.ltb_spec (GoTime.sec t) (GoTime.sec t + q'));
      destruct (Z.ltb_spec 0 q'); simpl; try lia. }
  destruct (Z.leb_spec 1000000000 (GoTime.nsec t + r)).
  - apply Hgen; lia.
  - destruct (Z.ltb_spec (GoTime.nsec t + r) 0); apply Hgen; lia.
Qed.

Lemma Add_whole (t : GoTime.Time) (d sec' : Z) :
  wfTime t -> - 2 ^ 62 <= GoTime.sec t <= 2 ^ 62 -> - 2 ^ 62 <= d <= 2 ^ 62 ->
  GoTime.sec t * 1000000000 + GoTime.nsec t + d = sec' * 1000000000 ->
  GoTime.Add t d = GoTime.mkTime sec' 0.
Proof.
  intros Hwf Hsec Hd Heq. destruct (Add_near t d Hwf Hsec Hd) as [Hwf' Hsum].
  unfold wfTime in Hwf'. destruct (GoTime.Add t d) as [s n]. simpl in *.
  f_equal; lia.
Qed.

(** [t.Sub(u)] for a [t] on a whole second, not far from [u]. *)
Lemma Sub_whole (u : GoTime.Time) (sec' : Z) :
  wfTime u -> - 2 ^ 61 <= GoTime.sec u <= 2 ^ 61 ->
  - 2 ^ 20 <= sec' - GoTime.sec u <= 2 ^ 20 ->
  GoDate.Sub (GoTime.mkTime sec' 0) u
  = (sec' - GoTime.sec u) * 1000000000 - GoTime.nsec u.
Proof.
  intros Hwf Hsec Hnear. unfold GoDate.Sub. cbn [GoTime.sec GoTime.nsec].
  unfold wfTime in Hwf. change GoTime.Second with 1000000000.
  rewrite (wrap64_id (sec' - GoTime.sec u))
    by (unfold in_int64, int64_min, int64_max; lia).
  rewrite (wrap64_id ((sec' - GoTime.sec u) * 1000000000))
    by (unfold in_int64, int64_min, int64_max; lia).
  rewrite (wrap64_id (_ + (0 - GoTime.nsec u)))
    by (unfold in_int64, int64_min, int64_max; lia).
  rewrite (Add_whole u _ sec') by (unfold wfTime; lia).
  assert (E : GoTime.Equal (GoTime.mkTime sec' 0) (GoTime.mkTime sec' 0) = true)
    by (apply Equal_spec; reflexivity).
  rewrite E. lia.
Qed.

(** X16.  The wait until the next run.  In a location with a single
    zone, for a schedule written [H:MM] or [HH:MM], the delay is the
    time from now to the next moment the clock of that zone reads the
    scheduled hour and minute, second zero: the scheduled time of day
    minus the present time of day, modulo 24 hours.  It is at least
    zero and below 24 hours, and it is zero exactly when the clock
    reads the scheduled time to the nanosecond. *)
Theorem scheduleNextRun_delay
  (now : GoTime.Time) (local : GoDate.Location) (offset : Z)
  (scheduleTime : string) (hour min : Z) :
  wfTime now -> - 2 ^ 61 <= GoTime.sec now <= 2 ^ 61 ->
  fixedZone local offset -> - 2 ^ 31 <= offset <= 2 ^ 31 ->
  clockOf scheduleTime = Some (hour, min) ->
  exists d,
    scheduleNextRun now local scheduleTime = Some d
    /\ d = ((hour * 3600 + min * 60) * GoTime.Second - nanosOfDay now offset)
           mod (24 * GoTime.Hour)
    /\ 0 <= d < 24 * GoTime.Hour
    /\ (unixNanos now + d + offset * GoTime.Second) mod (24 * GoTime.Hour)
       = (hour * 3600 + min * 60) * GoTime.Second
    /\ (d = 0 <-> nanosOfDay now offset = (hour * 3600 + min * 60) * GoTime.Second).
Proof.
  intros Hwf Hsec Hzone Hoff Hclock.
  destruct (clockOf_range _ _ _ Hclock) as [Hh Hm].
  unfold scheduleNextRun. rewrite Parse_clockOf, Hclock.
  destruct (clock_of_year0 hour min Hh Hm) as [-> ->].
  pose proof (abs_fixed now local offset Hzone Hoff Hsec) as Habs.
  assert (Hc1 : GoDate.internalToAbsolute = 106751990353932 * 86400) by reflexivity.
  assert (Hc2 : GoDate.absoluteToInternal = - (106751990353932 * 86400))
    by reflexivity.
  assert (Hc3 : GoTime.internalToUnix = - (719162 * 86400)) by reflexivity.
  pose proof (Date_on_day (GoDate.abs now local) hour min offset local) as Hdate.
  unfold GoDate.Year, GoDate.Month, GoDate.Day.
  destruct (GoDate.absDate (GoDate.abs now local) false) as [[[year ?] ?] ?].
  destruct (GoDate.absDate (GoDate.abs now local) true) as [[[? month] day] ?].
  rewrite Hdate by first [assumption | rewrite ?Habs; lia]. clear Hdate.
  set (A := GoDate.abs now local) in *.
  pose proof (Z.div_mod A 86400 ltac:(lia)) as Hdm.
  pose proof (Z.mod_pos_bound A 86400 ltac:(lia)) as Hmod.
  set (r := A mod 86400) in *.
  set (T := A / 86400 * 86400 + hour * 3600 + min * 60
            + GoDate.absoluteToInternal - offset).
  assert (HT : T = GoTime.sec now - r + (hour * 3600 + min * 60))
    by (unfold T; lia).
  unfold wfTime in Hwf.
  assert (Hday : forall k : Z,
            (unixNanos now + ((T + k * 86400 - GoTime.sec now) * 1000000000
                              - GoTime.nsec now)
             + offset * GoTime.Second) mod (24 * GoTime.Hour)
            = (hour * 3600 + min * 60) * GoTime.Second).
  { intros k. unfold unixNanos. change GoTime.Second with 1000000000.
    change (24 * GoTime.Hour) with (86400 * 1000000000).
    replace ((GoTime.sec now + GoTime.internalToUnix) * 1000000000
             + GoTime.nsec now
             + ((T + k * 86400 - GoTime.sec now) * 1000000000 - GoTime.nsec now)
             + offset * 1000000000)
      with ((hour * 3600 + min * 60) * 1000000000
            + (A / 86400 + k - 106751990353932 - 719162) * (86400 * 1000000000))
      by (unfold T; lia).
    rewrite Z.mod_add by lia. apply Z.mod_small. lia. }
  assert (Hnow : nanosOfDay now offset = r * 1000000000 + GoTime.nsec now).
  { unfold nanosOfDay, unixNanos. change GoTime.Second with 1000000000.
    change (24 * GoTime.Hour) with (86400 * 1000000000).
    replace ((GoTime.sec now + GoTime.internalToUnix) * 1000000000
             + GoTime.nsec now + offset * 1000000000)
      with (r * 1000000000 + GoTime.nsec now
            + (A / 86400 - 106751990353932 - 719162) * (86400 * 1000000000))
      by lia.
    rewrite Z.mod_add by lia. apply Z.mod_small. lia. }
  rewrite Hnow. change GoTime.Second with 1000000000.
  change (24 * GoTime.Hour) with 86400000000000 in *.
  unfold GoTime.After. cbn [GoTime.sec GoTime.nsec]. fold T.
  destruct ((T <? GoTime.sec now) || ((GoTime.sec now =? T) && (0 <? GoTime.nsec now)))
    eqn:Hafter.
  - rewrite (Add_whole (GoTime.mkTime T 0) 86400000000000 (T + 86400))
      by (unfold wfTime; cbn [GoTime.sec GoTime.nsec]; lia).
    rewrite Sub_whole by (unfold wfTime; lia).
    eexists. split; [reflexivity|].
    apply orb_true_iff in Hafter.
    assert (Hpast : T < GoTime.sec now \/ (T = GoTime.sec now /\ 0 < GoTime.nsec now)).
    { destruct Hafter as [H|H]; [left; now apply Z.ltb_lt|right].
      apply andb_true_iff in H as [H1 H2]. apply Z.eqb_eq in H1.
      apply Z.ltb_lt in H2. lia. }
    split; [apply (Z.mod_unique _ _ (-1)); lia|].
    split; [lia|]. split; [|lia].
    specialize (Hday 1). replace (T + 1 * 86400) with (T + 86400) in Hday by lia.
    exact Hday.
  - rewrite Sub_whole by (unfold wfTime; lia).
    eexists. split; [reflexivity|].
    apply orb_false_iff in Hafter as [H1 H2]. apply Z.ltb_ge in H1.
    assert (Hnot : T = GoTime.sec now -> GoTime.nsec now = 0).
    { intros E. apply andb_false_iff in H2 as [H2|H2].
      - apply Z.eqb_neq in H2. congruence.
      - apply Z.ltb_ge in H2. lia. }
    split; [apply (Z.mod_unique _ _ 0); lia|].
    split; [lia|]. split; [|lia].
    specialize (Hday 0). replace (T + 0 * 86400) with T in Hday by lia.
    exact Hday.
Qed.

Lemma scheduleNextRun_delay_witness :
  exists d,
    scheduleNextRun (GoTime.Unix 1700000000 5) twoHoursEast "0:13" = Some d
    /\ d = ((0 * 3600 + 13 * 60) * GoTime.Second
            - nanosOfDay (GoTime.Unix 1700000000 5) 7200)
           mod (24 * GoTime.Hour)
    /\ 0 <= d < 24 * GoTime.Hour
    /\ (unixNanos (GoTime.Unix 1700000000 5) + d + 7200 * GoTime.Second)
       mod (24 * GoTime.Hour)
       = (0 * 3600 + 13 * 60) * GoTime.Second
    /\ (d = 0 <-> nanosOfDay (GoTime.Unix 1700000000 5) 7200
                  = (0 * 3600 + 13 * 60) * GoTime.Second).
Proof.
  refine (scheduleNextRun_delay (GoTime.Unix 1700000000 5) twoHoursEast 7200
            "0:13" 0 13 _ _ _ _ _).
  - unfold wfTime. vm_compute. split; [discriminate | reflexivity].
  - vm_compute. split; discriminate.
  - intros s. reflexivity.
  - vm_compute. split; discriminate.
  - reflexivity.
Defined.

(** X17.  Which schedules the reporter accepts: exactly the times of
    day written with one or two digits for the hour, a colon and two
    digits for the minute, the hour below 24 and the minute below 60.
    On any other string the process exits, whatever the clock reads;
    seconds, a minute of one digit and the hour 24 are among the
    rejected. *)
Theorem scheduleNextRun_accepts
  (now : GoTime.Time) (local : GoDate.Location) (scheduleTime : string) :
  (scheduleNextRun now local scheduleTime = None <-> clockOf scheduleTime = None)
  /\ (exists d, scheduleNextRun now local "9:30" = Some d)
  /\ (exists d, scheduleNextRun now local "09:30" = Some d)
  /\ scheduleNextRun now local "24:00" = None
  /\ scheduleNextRun now local "9:5" = None
  /\ scheduleNextRun now local "09:30:00" = None
  /\ scheduleNextRun now local "" = None.
Proof.
  unfold scheduleNextRun. rewrite !Parse_clockOf.
  split; [|repeat split; eauto].
  destruct (clockOf scheduleTime) as [[hour min]|]; split; congruence.
Qed.
(** ** The reporter: fetching and mailing *)

Section ReporterFacts.
Context {W B : Type} (o : Outside W B).

(** The loop of [processScreenshots] in terms of the outcomes of the
    fetches. *)
Lemma fetch_loop (config : Config) (uids : list string) :
  forall (screenshots : gmap string (list Z)) (logged : list string) (w : W)
         (before : list (string * (list Z * option string))),
    (forall uid, screenshots !! uid = captured before uid) ->
    logged = omap errorLine before ->
    exists screenshots',
      fold_left (fetchScreenshot o config) uids (screenshots, logged, w)
      = (screenshots',
         omap errorLine (before ++ fst (fetches o config uids w)),
         snd (fetches o config uids w))
      /\ forall uid,
           screenshots' !! uid
           = captured (before ++ fst (fetches o config uids w)) uid.
Proof.
  induction uids as [|uid uids IH]; intros screenshots logged w before Hs Hl.
  - exists screenshots. simpl. rewrite app_nil_r. split; [now rewrite Hl | exact Hs].
  - cbn [fold_left fetches]. unfold fetchScreenshot at 2.
    destruct (getGrafanaScreenshot o config uid w) as [[data err] w1] eqn:E.
    destruct (fetches o config uids w1) as [outcomes w2] eqn:Ef.
    cbn [fst snd].
    assert (Happ : before ++ (uid, (data, err)) :: outcomes
                   = (before ++ [(uid, (data, err))]) ++ outcomes)
      by (rewrite <- app_assoc; reflexivity).
    destruct err as [e|].
    + destruct (IH screenshots
                  (logged ++ [("Error getting screenshot for dashboard " +:+ uid
                               +:+ ": " +:+ e)%string])
                  w1 (before ++ [(uid, (data, Some e))]))
        as (s' & Hfold & Hs').
      * intros u. unfold captured. rewrite omap_app. simpl. rewrite app_nil_r.
        apply Hs.
      * rewrite omap_app, Hl. reflexivity.
      * exists s'. rewrite Ef in Hfold, Hs'. cbn [fst snd] in Hfold, Hs'.
        rewrite Happ. split; assumption.
    + destruct (IH (<[uid := data]> screenshots) logged w1
                  (before ++ [(uid, (data, None))]))
        as (s' & Hfold & Hs').
      * intros u. unfold captured. rewrite omap_app. simpl.
        destruct (String.eqb_spec uid u) as [<-|Hne].
        -- rewrite lookup_insert_eq. symmetry. apply last_snoc.
        -- rewrite lookup_insert_ne by assumption. rewrite app_nil_r. apply Hs.
      * rewrite omap_app, Hl. simpl. now rewrite app_nil_r.
      * exists s'. rewrite Ef in Hfold, Hs'. cbn [fst snd] in Hfold, Hs'.
        rewrite Happ. split; assumption.
Qed.

Lemma captured_none (outcomes : list (string * (list Z * option string))) :
  forallb failed outcomes = true <-> forall uid, captured outcomes uid = None.
Proof.
  unfold captured. induction outcomes as [|[u [data err]] outcomes IH] using rev_ind.
  - split; reflexivity.
  - rewrite forallb_app. simpl. rewrite andb_true_r, andb_true_iff, IH.
    unfold failed. simpl. split.
    + intros [Hall He] uid. rewrite omap_app. simpl.
      destruct err; [|discriminate]. rewrite app_nil_r. apply Hall.
    + intros Hall. destruct err as [e|].
      * split; [|reflexivity]. intros uid. specialize (Hall uid).
        rewrite omap_app in Hall. simpl in Hall. now rewrite app_nil_r in Hall.
      * exfalso. specialize (Hall u). rewrite omap_app in Hall. simpl in Hall.
        rewrite String.eqb_refl, last_snoc in Hall. discriminate.
Qed.

(** X18.  A run of the reporter in terms of what each fetch gave.  Every
    dashboard of the configuration is fetched once, in order, whatever
    the earlier fetches gave; every failure is logged, once and in
    order.  The run fails with "no screenshots were captured
    successfully", and sends no mail, exactly when every fetch failed
    (or there is no dashboard); otherwise it mails, for each dashboard
    fetched with success, the bytes of its last such fetch, and its
    error is that of the mail server. *)
Theorem processScreenshots_outcomes (config : Config) (w : W) :
  let outcomes := fst (fetches o config (DashboardUIDs config) w) in
  let w' := snd (fetches o config (DashboardUIDs config) w) in
  map fst outcomes = DashboardUIDs config
  /\ exists screenshots,
       (forall uid, screenshots !! uid = captured outcomes uid)
       /\ processScreenshots o config w
          = if forallb failed outcomes
            then (Some "no screenshots were captured successfully"%string,
                  omap errorLine outcomes, w')
            else (fst (sendEmail o config screenshots w'),
                  omap errorLine outcomes,
                  snd (sendEmail o config screenshots w')).
Proof.
  intros outcomes w'. split.
  - subst outcomes. generalize w. clear.
    induction (DashboardUIDs config) as [|uid uids IH]; intros w; [reflexivity|].
    cbn [fetches]. destruct (getGrafanaScreenshot o config uid w) as [r w1].
    specialize (IH w1). destruct (fetches o config uids w1) as [rs w2].
    simpl in *. now rewrite IH.
  - destruct (fetch_loop config (DashboardUIDs config) ∅ [] w [])
      as (screenshots & Hfold & Hs); [intros uid; apply lookup_empty | reflexivity|].
    simpl app in Hfold, Hs. fold outcomes in Hfold, Hs. fold w' in Hfold.
    exists screenshots. split; [exact Hs|].
    unfold processScreenshots. rewrite Hfold.
    destruct (forallb failed outcomes) eqn:Hall.
    + pose proof (proj1 (captured_none outcomes) Hall) as Hnone.
      assert (E : screenshots = ∅).
      { apply map_eq. intros uid. now rewrite Hs, Hnone, lookup_empty. }
      rewrite E, map_size_empty. reflexivity.
    + destruct (size screenshots =? 0)%nat eqn:Hsize.
      * exfalso. apply Nat.eqb_eq, map_size_empty_iff in Hsize.
        assert (Hnone : forallb failed outcomes = true).
        { apply (proj2 (captured_none outcomes)). intros uid.
          now rewrite <- Hs, Hsize, lookup_empty. }
        congruence.
      * destruct (sendEmail o config screenshots w'). reflexivity.
Qed.



Lemma string_of_bytes_app (p q : list Z) :
  GoStrings.string_of_bytes (p ++ q)
  = (GoStrings.string_of_bytes p +:+ GoStrings.string_of_bytes q)%string.
Proof.
  induction p as [|c p IH]; [reflexivity|].
  change (GoStrings.string_of_bytes ((c :: p) ++ q))
    with (String (ascii_of_N (Z.to_N c)) (GoStrings.string_of_bytes (p ++ q))).
  now rewrite IH.
Qed.

Lemma escape_app (p q : list Z) :
  GoURL.escape (p ++ q) = GoURL.escape p ++ GoURL.escape q.
Proof.
  induction p as [|c p IH]; [reflexivity|]. simpl.
  destruct (c =? 32); [now rewrite IH|].
  destruct (GoURL.shouldEscape c); now rewrite IH.
Qed.

Lemma escape_unreserved (p : list Z) :
  forallb (fun c => negb (GoURL.shouldEscape c)) p = true -> GoURL.escape p = p.
Proof.
  induction p as [|c p IH]; [reflexivity|]. simpl.
  intros H. apply andb_true_iff in H as [Hc Hp]. apply negb_true_iff in Hc.
  rewrite Hc, (IH Hp).
  destruct (Z.eqb_spec c 32) as [->|_]; [discriminate Hc | reflexivity].
Qed.

(** X20.  The request for a picture.  It is the request that
    [http.NewRequest] builds for the address
    [<GrafanaURL>/api/dashboards/uid/<uid>/png], with the header
    [Authorization: Bearer <key>] added.  With no time range the address
    is left as it is; with a time range, and an address that has no
    query of its own, the query is [from=now-<range>&to=now], the range
    being percent-encoded (and left as it is when it is made of
    letters, digits, [-], [_], [.] and [~]). *)
Theorem screenshotRequest_query (config : Config) (uid : string)
  (req : GoHTTP.Request) :
  http_NewRequest o "GET" (screenshotURL config uid) = inr req ->
  exists sent,
    screenshotRequest o config uid = inr sent
    /\ GoHTTP.Method sent = GoHTTP.Method req
    /\ GoHTTP.Header sent !! "Authorization"%string
       = Some (default [] (GoHTTP.Header req !! "Authorization"%string)
               ++ [("Bearer " +:+ GrafanaAPIKey config)%string])
    /\ (TimeRange config = EmptyString -> GoHTTP.URL sent = GoHTTP.URL req)
    /\ (TimeRange config <> EmptyString ->
        GoURL.RawQuery (GoHTTP.URL req) = EmptyString ->
        GoURL.RawQuery (GoHTTP.URL sent)
        = ("from=now-" +:+ GoURL.QueryEscape (TimeRange config) +:+ "&to=now")%string
        /\ (unreserved (TimeRange config) = true ->
            GoURL.RawQuery (GoHTTP.URL sent)
            = ("from=now-" +:+ TimeRange config +:+ "&to=now")%string)).
Proof.
  intros Hreq. unfold screenshotRequest. fold (screenshotURL config uid).
  rewrite Hreq. eexists. split; [reflexivity|].
  cbn [GoHTTP.Method GoHTTP.Header GoHTTP.URL].
  split; [reflexivity|]. split; [apply lookup_insert_eq|]. split.
  - intros ->. reflexivity.
  - intros Hne Hraw.
    destruct (String.eqb_spec (TimeRange config) "") as [?|_]; [contradiction|].
    cbn [negb GoURL.RawQuery GoURL.setRawQuery]. rewrite Hraw.
    assert (E : GoURL.Encode
                  (GoURL.Add (GoURL.Add (GoURL.Query "") "from"
                                ("now-" +:+ TimeRange config)) "to" "now")
                = ("from=now-" +:+ GoURL.QueryEscape (TimeRange config)
                   +:+ "&to=now")%string).
    { unfold GoURL.Encode.
      change (GoURL.sortedKeys
                (GoURL.Add (GoURL.Add (GoURL.Query "") "from"
                              ("now-" +:+ TimeRange config)) "to" "now"))
        with ["from"%string; "to"%string].
      cbn [fold_left]. unfold GoURL.encodeKey.
      assert (Lf : GoURL.Add (GoURL.Add (GoURL.Query "") "from"
                                ("now-" +:+ TimeRange config)) "to" "now"
                   !! "from"%string = Some [("now-" +:+ TimeRange config)%string]).
      { unfold GoURL.Add, GoURL.Query. now simplify_map_eq. }
      assert (Lt : GoURL.Add (GoURL.Add (GoURL.Query "") "from"
                                ("now-" +:+ TimeRange config)) "to" "now"
                   !! "to"%string = Some ["now"%string]).
      { unfold GoURL.Add, GoURL.Query. now simplify_map_eq. }
      rewrite Lf, Lt. unfold default. cbn [from_option id fold_left].
      change (GoURL.escape (bytes_of "from")) with [102; 114; 111; 109].
      change (GoURL.escape (bytes_of "to")) with [116; 111].
      change (GoURL.escape (bytes_of "now")) with [110; 111; 119].
      rewrite bytes_of_app, escape_app.
      change (GoURL.escape (bytes_of "now-")) with [110; 111; 119; 45].
      cbn [app].
      transitivity
        (GoStrings.string_of_bytes
           (bytes_of "from=now-" ++ GoURL.escape (bytes_of (TimeRange config))
            ++ bytes_of "&to=now")).
      - f_equal. cbn [bytes_of app]. rewrite <- app_assoc. reflexivity.
      - rewrite !string_of_bytes_app. reflexivity. }
    rewrite E. split; [reflexivity|].
    intros Hun. unfold GoURL.QueryEscape.
    rewrite escape_unreserved by exact Hun. now rewrite string_of_bytes_of.
Qed.

End ReporterFacts.

Lemma processScreenshots_outcomes_example :
  processScreenshots twoDashboards twoDashboardsConfig 0%nat
  = (None, ["Error getting screenshot for dashboard a: grafana API returned status: 500"%string], 2%nat).
Proof. vm_compute. reflexivity. Qed.

Lemma screenshotRequest_query_witness :
  exists sent,
    screenshotRequest twoDashboards twoDashboardsConfig "a" = inr sent
    /\ GoURL.RawQuery (GoHTTP.URL sent) = "from=now-12h&to=now"%string.
Proof.
  destruct (screenshotRequest_query twoDashboards twoDashboardsConfig "a"
              (GoHTTP.mkRequest "GET"
                 (GoURL.mkURL "http" "" None "grafana"
                    "http://grafana/api/dashboards/uid/a/png" "" false false "" "" "")
                 ∅ "grafana") eq_refl)
    as (sent & Hs & _ & _ & _ & Hq).
  exists sent. split; [exact Hs|].
  destruct (Hq ltac:(discriminate) eq_refl) as [_ Hu]. exact (Hu eq_refl).
Defined.
(** ** From a collection to the answer of a range query *)

Lemma In_last {A} (l : list A) (x : A) : last l = Some x -> In x l.
Proof.
  intros H. destruct l as [|y l] using rev_ind; [discriminate|].
  rewrite last_snoc in H. injection H as ->. apply in_or_app. right. now left.
Qed.

Lemma In_sortDatapoints (points : list datapoint) (pt : datapoint) :
  Forall timed points -> In pt points -> In pt (sortDatapoints points).
Proof.
  intros Ht Hin. destruct (sortDatapoints_spec points Ht) as (_ & Hperm & _).
  eapply Permutation_in; [symmetry; exact Hperm | exact Hin].
Qed.

(** X21.  A snapshot that has just been collected is served by the next
    range query that covers its second: for every partition of the
    snapshot that the path filter lets through, the answer has the
    three series of that partition, and each holds the point of this
    reading, with the timestamp of the snapshot in milliseconds. *)
Theorem collected_snapshot_is_served
  (h : Host) (st st' : Monitor) (metrics : DiskMetrics)
  (query : gmap string (list string)) (fromMs toMs : Z) (p : PartitionMetrics) :
  collectMetrics h st = (inr metrics, st') ->
  1 <= maxSize (mon_store st) ->
  representable (Timestamp metrics) ->
  GoStrconv.ParseInt (Get query "from") = inr fromMs ->
  GoStrconv.ParseInt (Get query "to") = inr toMs ->
  Z.quot fromMs 1000 <= Timestamp metrics <= Z.quot toMs 1000 ->
  In p (Partitions metrics) ->
  selected (Get query "path") (Path p) = true ->
  exists body used free percent,
    grafanaHandler (mon_store st') query = HttpJSON body
    /\ In used body /\ In free body /\ In percent body
    /\ Target used = usedKey (Path p)
    /\ Target free = freeKey (Path p)
    /\ Target percent = percentKey (Path p)
    /\ In (float64_of_Z (Used p), timestampOf metrics) (Datapoints used)
    /\ In (float64_of_Z (Free p), timestampOf metrics) (Datapoints free)
    /\ In (UsagePercent p, timestampOf metrics) (Datapoints percent).
Proof.
  intros Hc Hcap Hrep Ef Et Hin Hp Hsel.
  assert (Hstore : mon_store st' = add (mon_store st) metrics).
  { unfold collectMetrics in Hc. destruct (disk_Partitions h); [discriminate|].
    destruct (fold_left (collectPartition h) l ([], diskUsage st, diskUsagePercent st))
      as [[parts du] dup].
    injection Hc as <- <-. reflexivity. }
  unfold grafanaHandler. rewrite Ef, Et.
  set (fromTime := GoTime.Unix (Z.quot fromMs 1000) 0).
  set (toTime := GoTime.Unix (Z.quot toMs 1000) 0).
  set (range := getRange (mon_store st') fromTime toTime).
  assert (Hrange : In metrics range).
  { subst range. rewrite getRange_filter. apply List.filter_In. split.
    - rewrite Hstore. apply In_last, add_last. now right.
    - subst fromTime toTime. apply ParseInt_spec in Ef as [_ Hf].
      apply ParseInt_spec in Et as [_ Ht].
      rewrite inRange_seconds
        by first [apply quot_1000_representable; assumption | assumption | lia].
      unfold betweenSeconds. apply andb_true_iff. split; apply Z.leb_le; lia. }
  set (pathFilter := Get query "path") in *.
  destruct (project_tracks range pathFilter) as [Hser _].
  destruct (Hser (Path p)) as (Hu & Hf & Hpc).
  rewrite readingsAt_ingested, Hsel in Hu, Hf, Hpc.
  assert (Hr : In (timestampOf metrics, p) (readingsOf (Path p) range)).
  { apply readingsOf_path. exists metrics. simpl. auto. }
  destruct (readingsOf (Path p) range) as [|r rs] eqn:Er; [contradiction|].
  pose proof (project_timed range pathFilter) as Htimed.
  exists (response_of (project range pathFilter)),
    (mkTimeserie (usedKey (Path p)) (sortDatapoints (map usedPoint (r :: rs)))),
    (mkTimeserie (freeKey (Path p)) (sortDatapoints (map freePoint (r :: rs)))),
    (mkTimeserie (percentKey (Path p)) (sortDatapoints (map percentPoint (r :: rs)))).
  split; [reflexivity|].
  split; [apply response_of_In; eexists; split; [exact Hu | reflexivity]|].
  split; [apply response_of_In; eexists; split; [exact Hf | reflexivity]|].
  split; [apply response_of_In; eexists; split; [exact Hpc | reflexivity]|].
  cbn [Target Datapoints]. do 3 (split; [reflexivity|]).
  split; [|split]; apply In_sortDatapoints.
  - exact (Htimed _ _ Hu).
  - change (float64_of_Z (Used p), timestampOf metrics)
      with (usedPoint (timestampOf metrics, p)). now apply in_map.
  - exact (Htimed _ _ Hf).
  - change (float64_of_Z (Free p), timestampOf metrics)
      with (freePoint (timestampOf metrics, p)). now apply in_map.
  - exact (Htimed _ _ Hpc).
  - change (UsagePercent p, timestampOf metrics)
      with (percentPoint (timestampOf metrics, p)). now apply in_map.
Qed.

Lemma collected_snapshot_is_served_witness :
  exists body used free percent,
    grafanaHandler (mon_store (snd (collectMetrics (hostAt 7) initialMonitor)))
      secondSevenQuery
    = HttpJSON body
    /\ In used body /\ In free body /\ In percent body
    /\ Target used = usedKey (Path halfFull)
    /\ Target free = freeKey (Path halfFull)
    /\ Target percent = percentKey (Path halfFull)
    /\ In (float64_of_Z (Used halfFull), timestampOf (snapshotAt 7 50))
          (Datapoints used)
    /\ In (float64_of_Z (Free halfFull), timestampOf (snapshotAt 7 50))
          (Datapoints free)
    /\ In (UsagePercent halfFull, timestampOf (snapshotAt 7 50))
          (Datapoints percent).
Proof.
  refine (collected_snapshot_is_served (hostAt 7) initialMonitor
            (snd (collectMetrics (hostAt 7) initialMonitor)) (snapshotAt 7 50)
            secondSevenQuery 7000 7999 halfFull _ _ _ _ _ _ _ _).
  - reflexivity.
  - vm_compute. discriminate.
  - unfold representable, in_int64. vm_compute. split; discriminate.
  - reflexivity.
  - reflexivity.
  - vm_compute. split; discriminate.
  - left. reflexivity.
  - reflexivity.
Defined.
